(** * MSL (Message Security Layer), JavaScript sources

    A shallow embedding of

    - [core/src/main/javascript/entityauth/X509AuthenticationData.js]
      (module [Core]): X.509 entity authentication data with certificate
      chains;
    - [src/main/javascript/entityauth/X509AuthenticationData.js]
      (module [Main]): the certificate-only X.509 entity authentication data;
    - the [MessageOutputStream] class (module [MOS]);
    - [tests/src/main/javascript/util/MockMslContext.js]
      (module [MockMslContext]): the registries of factories of the test
      context.

    JavaScript numbers are IEEE 754 binary64 values.  JavaScript objects are compared by reference with [===], so every object
    of the embedding carries the address it was allocated at, and [new] is
    an operation of an allocation monad.  Asynchronous code is embedded as a
    step function over the events that the JavaScript event loop delivers:
    calls of the public methods and the completions reported by the
    destination stream, the payload chunk factory and the readiness queue. *)

From Stdlib Require Import ZArith List String Bool Lia Arith SpecFloat.
Import ListNotations.

Local Open Scope string_scope.
Local Open Scope list_scope.

(** ** JavaScript values *)

(** Address of a heap object: what [===] compares on objects. *)
Definition Addr := nat.

(** A JavaScript number is an IEEE 754 binary64 value: a zero or an
    infinity with its sign, NaN, or a finite value with sign, mantissa and
    exponent in the range of the format. *)
Record Number : Type := {
  ieee : spec_float;
  binary64 : valid_binary 53 1024 ieee = true }.

Definition NaN : Number := {| ieee := S754_nan; binary64 := eq_refl |}.

Definition positive_zero : Number :=
  {| ieee := S754_zero false; binary64 := eq_refl |}.

(** The number 5, which is 5 * 2^50 * 2^-50. *)
Definition five : Number :=
  {| ieee := S754_finite false 5629499534213120 (-50); binary64 := eq_refl |}.

(** [x === y] on numbers is the IEEE comparison: NaN equals nothing, itself
    included, and the two zeros are equal. *)
Definition number_equals (x y : Number) : bool := SFeqb (ieee x) (ieee y).

(** The values a wire (JSON) object can hold, and [undefined] for a missing
    key.  An array is an object: it has an address. *)
Inductive JsValue : Type :=
| Undefined
| Null
| JBool (b : bool)
| JNumber (x : Number)
| JString (s : string)
| JArray (a : Addr) (elems : list string).

(** [ToBoolean]: what [if (v)] tests. *)
Definition truthy (v : JsValue) : bool :=
  match v with
  | Undefined | Null => false
  | JBool b => b
  | JNumber x =>
      match ieee x with
      | S754_zero _ | S754_nan => false
      | _ => true
      end
  | JString s => negb (s =? "")
  | JArray _ _ => true
  end.

(** [v === w]: by value on primitives, by address on objects. *)
Definition strict_equals (v w : JsValue) : bool :=
  match v, w with
  | Undefined, Undefined => true
  | Null, Null => true
  | JBool a, JBool b => Bool.eqb a b
  | JNumber a, JNumber b => number_equals a b
  | JString a, JString b => (a =? b)
  | JArray a _, JArray b _ => Nat.eqb a b
  | _, _ => false
  end.

(** [typeof v === 'string'] *)
Definition typeof_string (v : JsValue) : bool :=
  match v with JString _ => true | _ => false end.

(** A plain JavaScript object used as a record of string keys: keys keep
    their insertion order, which is the order [JSON.stringify] prints. *)
Definition JsObject := list (string * JsValue).

(** [jo[key]] *)
Fixpoint get (jo : JsObject) (key : string) : JsValue :=
  match jo with
  | [] => Undefined
  | (k, v) :: rest => if k =? key then v else get rest key
  end.

(** [jo[key] = v] *)
Fixpoint set (jo : JsObject) (key : string) (v : JsValue) : JsObject :=
  match jo with
  | [] => [(key, v)]
  | (k, w) :: rest =>
      if k =? key then (k, v) :: rest else (k, w) :: set rest key v
  end.

(** [delete jo[key]] *)
Fixpoint delete (jo : JsObject) (key : string) : JsObject :=
  match jo with
  | [] => []
  | (k, w) :: rest => if k =? key then rest else (k, w) :: delete rest key
  end.

(** The document [JSON.stringify] prints: addresses are not printed, a
    key whose value is [undefined] is left out, NaN and the infinities are
    printed as [null] and the negative zero as [0].  The printed text is a
    function of this document. *)
Inductive JsonValue : Type :=
| JsonNull
| JsonBool (b : bool)
| JsonNumber (x : Number)
| JsonString (s : string)
| JsonArray (elems : list string).

Definition JsonDocument := list (string * JsonValue).

Definition json_of_value (v : JsValue) : option JsonValue :=
  match v with
  | Undefined => None
  | Null => Some JsonNull
  | JBool b => Some (JsonBool b)
  | JNumber x =>
      match ieee x with
      | S754_nan | S754_infinity _ => Some JsonNull
      | S754_zero _ => Some (JsonNumber positive_zero)
      | S754_finite _ _ _ => Some (JsonNumber x)
      end
  | JString s => Some (JsonString s)
  | JArray _ elems => Some (JsonArray elems)
  end.

Fixpoint JSON_stringify (jo : JsObject) : JsonDocument :=
  match jo with
  | [] => []
  | (k, v) :: rest =>
      match json_of_value v with
      | Some j => (k, j) :: JSON_stringify rest
      | None => JSON_stringify rest
      end
  end.

(** ** Exceptions *)

(** Modelled from the spec: the [MslError] constants are not among the
    sources; the two the X.509 code raises are named by the spec and the
    tests ([MslErrorTest.js]). *)
Inductive MslError : Type :=
| JSON_PARSE_ERROR
| X509CERT_PARSE_ERROR.

(** The message of an [MslIoException]; the last one is built from the
    stream's sequence number. *)
Inductive Message : Type :=
| Text (s : string)
| ErrorEncodingPayloadChunk (sequenceNumber : Z).

Inductive Exception : Type :=
| MslEncodingException (error : MslError) (details : string) (jo : JsonDocument)
| MslCryptoException (error : MslError) (details : JsValue) (cause : Exception)
| MslIoException (message : Message)
| MslIoExceptionCausedBy (message : Message) (cause : Exception)
| MslInternalException (message : string)
| RangeError (message : string)
| TypeError (message : string)
| ForeignError (isMslException : bool) (tag : nat).

(** [e instanceof MslException]: the MSL exceptions with an [MslError]
    code; what a collaborator raises says so itself. *)
Definition instanceof_MslException (e : Exception) : bool :=
  match e with
  | MslEncodingException _ _ _ | MslCryptoException _ _ _ => true
  | ForeignError b _ => b
  | _ => false
  end.

(** How a JavaScript function body completes. *)
Inductive Completion (A : Type) : Type :=
| Return (a : A)
| Throw (e : Exception).
Arguments Return {A} a.
Arguments Throw {A} e.

(** ** Allocation *)

(** Code that allocates: the state is the next free address. *)
Definition Exec (A : Type) : Type := Addr -> Completion A * Addr.

Definition ret {A} (a : A) : Exec A := fun h => (Return a, h).
Definition throw {A} (e : Exception) : Exec A := fun h => (Throw e, h).
Definition bind {A B} (m : Exec A) (k : A -> Exec B) : Exec B :=
  fun h => match m h with
           | (Return a, h') => k a h'
           | (Throw e, h') => (Throw e, h')
           end.
Definition try_catch {A} (m : Exec A) (handler : Exception -> Exec A) : Exec A :=
  fun h => match m h with
           | (Return a, h') => (Return a, h')
           | (Throw e, h') => handler e h'
           end.
(** [new]: the fresh address of the object being constructed. *)
Definition new : Exec Addr := fun h => (Return h, S h).

Declare Scope exec_scope.
Delimit Scope exec_scope with exec.
Notation "x <- m ;; k" := (bind m (fun x => k))
  (at level 61, m at next level, right associativity) : exec_scope.

(** ** The X.509 certificate library *)

(** An [X509] object after [readCertPEM]: its address and the hexadecimal
    dump of the certificate it holds. *)
Record X509 : Type := { x509_addr : Addr; hex : string }.

(** The [X509] class and the [CryptoJS] encoders are a third-party library:
    its functions are parameters of the embedding.
    [readCertPEM v] is the dump of the certificate that [v] encodes, or the
    exception the library raises; [getSubjectString h] is the subject of the
    certificate with dump [h]; [base64_of_hex h] is
    [CryptoJS.enc.Base64.stringify(CryptoJS.enc.Hex.parse(h))]. *)
Record CertLibrary : Type := {
  readCertPEM : JsValue -> Completion string;
  getSubjectString : string -> string;
  base64_of_hex : string -> string }.

(** What an [@param {X509} x509cert] argument holds. *)
Inductive CertRef : Type :=
| CertUndefined
| CertNull
| CertObject (c : X509).

Definition cert_truthy (c : CertRef) : bool :=
  match c with CertObject _ => true | _ => false end.

(** [c === d] on certificate references. *)
Definition cert_strict_equals (c d : CertRef) : bool :=
  match c, d with
  | CertUndefined, CertUndefined => true
  | CertNull, CertNull => true
  | CertObject x, CertObject y => Nat.eqb (x509_addr x) (x509_addr y)
  | _, _ => false
  end.

(** ** Entity authentication data *)

(** Modelled from the spec: [EntityAuthenticationScheme] is not among the
    sources; these are the variants the spec lists. *)
Inductive EntityAuthenticationScheme : Type :=
| PSK | PSK_PROFILE | X509_SCHEME | RSA | ECC | NONE | NONE_SUFFIXED
| MT_PROTECTED | PROVISIONED.

Definition scheme_eqb (a b : EntityAuthenticationScheme) : bool :=
  match a, b with
  | PSK, PSK | PSK_PROFILE, PSK_PROFILE | X509_SCHEME, X509_SCHEME
  | RSA, RSA | ECC, ECC | NONE, NONE | NONE_SUFFIXED, NONE_SUFFIXED
  | MT_PROTECTED, MT_PROTECTED | PROVISIONED, PROVISIONED => true
  | _, _ => false
  end.

Definition KEY_X509_CERT : string := "x509certificate".
Definition KEY_X509_CHAIN : string := "x509chain".
Definition KEY_X509_IDENTITY : string := "identity".

(** Modelled from the spec: the base class [EntityAuthenticationData] is not
    among the sources.  Its [init(scheme)] stores the scheme and its
    [equals] is the spec's same-scheme comparison. *)
Definition EntityAuthenticationData_equals
  (this_scheme that_scheme : EntityAuthenticationScheme) : bool :=
  scheme_eqb this_scheme that_scheme.

(** ** core/src/main/javascript/entityauth/X509AuthenticationData.js *)

Module Core.

Record X509AuthenticationData : Type := {
    self : Addr;
    scheme : EntityAuthenticationScheme;
    identity : JsValue;
    x509cert : CertRef;
    x509chain : JsValue }.

  (** What [equals] can be handed: a value that is no instance of the class
      ([null], a string, ...) or an instance. *)
Inductive Other : Type :=
  | Value (v : JsValue)
  | Instance (d : X509AuthenticationData).

Section WithLibrary.
Variable lib : CertLibrary.

    (** [init(identity, x509cert, x509chain)], on the object at [this]. *)
Definition init (this : Addr) (identity : JsValue) (x509cert : CertRef)
      (x509chain : JsValue) : X509AuthenticationData :=
      let identity :=
        match x509cert with
        | CertObject c => JString (getSubjectString lib (hex c))
        | _ => identity
        end in
      {| self := this;
         scheme := X509_SCHEME;
         identity := identity;
         x509cert := x509cert;
         x509chain := x509chain |}.

    (** [new X509AuthenticationData(identity, x509cert, x509chain)] *)
Definition new_X509AuthenticationData (identity : JsValue)
      (x509cert : CertRef) (x509chain : JsValue) : Exec X509AuthenticationData :=
      (this <- new ;; ret (init this identity x509cert x509chain))%exec.

Definition getIdentity (this : X509AuthenticationData) : JsValue :=
      identity this.

Definition getAuthData (this : X509AuthenticationData) : JsObject :=
      let result : JsObject := [] in
      let result :=
        match x509cert this with
        | CertObject c =>
            let certHex := hex c in
            let certB64 := base64_of_hex lib certHex in
            set result KEY_X509_CERT (JString certB64)
        | _ =>
            if truthy (x509chain this)
            then set result KEY_X509_CHAIN (x509chain this)
            else result
        end in
      set result KEY_X509_IDENTITY (identity this).

Definition equals (this : X509AuthenticationData) (that : Other) : bool :=
      match that with
      | Value _ => false
      | Instance that =>
          if Nat.eqb (self this) (self that) then true
          else
            EntityAuthenticationData_equals (scheme this) (scheme that)
            && strict_equals (identity this) (identity that)
            && cert_strict_equals (x509cert this) (x509cert that)
            && strict_equals (x509chain this) (x509chain that)
      end.

    (** [x509 = new X509(); x509.readCertPEM(certB64);] *)
Definition new_X509_readCertPEM (certB64 : JsValue) : Exec X509 :=
      (a <- new ;;
       match readCertPEM lib certB64 with
       | Return h => ret {| x509_addr := a; hex := h |}
       | Throw e => throw e
       end)%exec.

Definition parse (x509AuthJO : JsObject) : Exec X509AuthenticationData :=
      let certB64 := get x509AuthJO KEY_X509_CERT in
      let chain := get x509AuthJO KEY_X509_CHAIN in
      let identity := get x509AuthJO KEY_X509_IDENTITY in
      if truthy certB64 then
        (_ <- new ;;
         x509 <- try_catch (new_X509_readCertPEM certB64)
                   (fun e => throw (MslCryptoException X509CERT_PARSE_ERROR certB64 e)) ;;
         new_X509AuthenticationData Null (CertObject x509) Null)%exec
      else if truthy chain then
        new_X509AuthenticationData identity CertNull chain
      else
        throw (MslEncodingException JSON_PARSE_ERROR "X.509 authdata"
                 (JSON_stringify x509AuthJO)).

End WithLibrary.

End Core.

(** ** src/main/javascript/entityauth/X509AuthenticationData.js *)

Module Main.

Record X509AuthenticationData : Type := {
    self : Addr;
    scheme : EntityAuthenticationScheme;
    identity : string;
    x509cert : X509 }.

Inductive Other : Type :=
  | Value (v : JsValue)
  | Instance (d : X509AuthenticationData).

Section WithLibrary.
Variable lib : CertLibrary.

    (** [init(x509cert)], on the object at [this]. *)
Definition init (this : Addr) (x509cert : X509) : X509AuthenticationData :=
      let identity := getSubjectString lib (hex x509cert) in
      {| self := this;
         scheme := X509_SCHEME;
         identity := identity;
         x509cert := x509cert |}.

Definition new_X509AuthenticationData (x509cert : X509)
      : Exec X509AuthenticationData :=
      (this <- new ;; ret (init this x509cert))%exec.

Definition getIdentity (this : X509AuthenticationData) : string :=
      identity this.

Definition getAuthData (this : X509AuthenticationData) : JsObject :=
      let certHex := hex (x509cert this) in
      let certB64 := base64_of_hex lib certHex in
      let result : JsObject := [] in
      set result KEY_X509_CERT (JString certB64).

    (** [this.identity == that.identity] compares two strings. *)
Definition equals (this : X509AuthenticationData) (that : Other) : bool :=
      match that with
      | Value _ => false
      | Instance that =>
          if Nat.eqb (self this) (self that) then true
          else
            EntityAuthenticationData_equals (scheme this) (scheme that)
            && (identity this =? identity that)
      end.

Definition new_X509_readCertPEM (certB64 : JsValue) : Exec X509 :=
      (a <- new ;;
       match readCertPEM lib certB64 with
       | Return h => ret {| x509_addr := a; hex := h |}
       | Throw e => throw e
       end)%exec.

Definition parse (x509AuthJO : JsObject) : Exec X509AuthenticationData :=
      let certB64 := get x509AuthJO KEY_X509_CERT in
      if negb (typeof_string certB64) then
        throw (MslEncodingException JSON_PARSE_ERROR "X.509 authdata"
                 (JSON_stringify x509AuthJO))
      else
        (_ <- new ;;
         x509 <- try_catch (new_X509_readCertPEM certB64)
                   (fun e => throw (MslCryptoException X509CERT_PARSE_ERROR certB64 e)) ;;
         new_X509AuthenticationData x509)%exec.

End WithLibrary.

End Main.

(** ** MessageOutputStream *)

Module MOS.

  (** Modelled from the spec: [MslConstants$CompressionAlgorithm] is not
      among the sources; the spec and [MockMslContext.js] name LZW, MSL
      also defines GZIP. *)
Inductive CompressionAlgorithm : Type := GZIP | LZW.

Definition algo_eqb (a b : CompressionAlgorithm) : bool :=
    match a, b with
    | GZIP, GZIP | LZW, LZW => true
    | _, _ => false
    end.

  (** [a == b] on values that are an algorithm or [null]. *)
Definition algo_equals (a b : option CompressionAlgorithm) : bool :=
    match a, b with
    | None, None => true
    | Some x, Some y => algo_eqb x y
    | _, _ => false
    end.

  (** Modelled from the spec: [MessageCapabilities] is not among the
      sources; of its fields the stream reads [compressionAlgorithms]. *)
Record MessageCapabilities : Type := {
    compressionAlgorithms : list CompressionAlgorithm }.

  (** Modelled from the spec: [MessageCapabilities$intersection] is not
      among the sources; "the negotiated compression set is the
      intersection of local and remote message capabilities", and there is
      none when either side has none. *)
Definition MessageCapabilities_intersection
    (mc1 mc2 : option MessageCapabilities) : option MessageCapabilities :=
    match mc1, mc2 with
    | Some a, Some b =>
        Some {| compressionAlgorithms :=
                 filter (fun x => existsb (algo_eqb x) (compressionAlgorithms b))
                   (compressionAlgorithms a) |}
    | _, _ => None
    end.

  (** Modelled from the spec: a [MessageHeader] "carries messageId,
      isHandshake flag, negotiated messageCapabilities". *)
Record MessageHeader : Type := {
    messageId : Z;
    isHandshake : bool;
    messageCapabilities : option MessageCapabilities }.

  (** Modelled from the spec: an [ErrorHeader] carries no payload; the
      stream reads none of its fields. *)
Record ErrorHeader : Type := { errorCode : Z }.

Inductive Header : Type :=
  | Message (h : MessageHeader)
  | ErrorMessage (h : ErrorHeader).

  (** [header.messageCapabilities]: [undefined] on an error header. *)
Definition header_messageCapabilities (h : Header) : option MessageCapabilities :=
    match h with
    | Message m => messageCapabilities m
    | ErrorMessage _ => None
    end.

  (** Modelled from the spec: [PayloadChunk] is not among the sources; a
      chunk is what [PayloadChunk$create] was asked to protect. *)
Record PayloadChunk : Type := {
    sequenceNumber : Z;
    chunk_messageId : Z;
    endofmsg : bool;
    compressionAlgo : option CompressionAlgorithm;
    data : list Byte.byte }.

  (** [chunk.length]: a payload chunk has no such property. *)
Definition chunk_length (c : PayloadChunk) : option Z := None.

  (** [n < v] where [v] is a number or [undefined]; a comparison with
      [undefined] is false. *)
Definition js_less_than (n : Z) (v : option Z) : bool :=
    match v with
    | Some m => (n <? m)%Z
    | None => false
    end.

  (** The properties of a [MessageOutputStream].  [_destination],
      [_charset] and [_cryptoContext] are handles that never change:
      the destination is the [destination] log of the [World] below. *)
Record Stream : Type := {
    _capabilities : option MessageCapabilities;
    _header : Header;
    _compressionAlgo : option CompressionAlgorithm;
    _payloadSequenceNumber : Z;
    _currentPayload : option (list (list Byte.byte));
    _closed : bool;
    _closeDestination : bool;
    _caching : bool;
    _payloads : list PayloadChunk;
    _ready : bool;
    _readyQueue : list bool;
    _aborted : bool;
    _timedout : bool;
    _errored : option Exception }.

Definition set_compressionAlgo (v : option CompressionAlgorithm) (s : Stream) : Stream :=
    {| _capabilities := _capabilities s; _header := _header s;
       _compressionAlgo := v;
       _payloadSequenceNumber := _payloadSequenceNumber s;
       _currentPayload := _currentPayload s; _closed := _closed s;
       _closeDestination := _closeDestination s; _caching := _caching s;
       _payloads := _payloads s; _ready := _ready s;
       _readyQueue := _readyQueue s; _aborted := _aborted s;
       _timedout := _timedout s; _errored := _errored s |}.

Definition set_payloadSequenceNumber (v : Z) (s : Stream) : Stream :=
    {| _capabilities := _capabilities s; _header := _header s;
       _compressionAlgo := _compressionAlgo s;
       _payloadSequenceNumber := v;
       _currentPayload := _currentPayload s; _closed := _closed s;
       _closeDestination := _closeDestination s; _caching := _caching s;
       _payloads := _payloads s; _ready := _ready s;
       _readyQueue := _readyQueue s; _aborted := _aborted s;
       _timedout := _timedout s; _errored := _errored s |}.

Definition set_currentPayload (v : option (list (list Byte.byte))) (s : Stream) : Stream :=
    {| _capabilities := _capabilities s; _header := _header s;
       _compressionAlgo := _compressionAlgo s;
       _payloadSequenceNumber := _payloadSequenceNumber s;
       _currentPayload := v; _closed := _closed s;
       _closeDestination := _closeDestination s; _caching := _caching s;
       _payloads := _payloads s; _ready := _ready s;
       _readyQueue := _readyQueue s; _aborted := _aborted s;
       _timedout := _timedout s; _errored := _errored s |}.

Definition set_closed (v : bool) (s : Stream) : Stream :=
    {| _capabilities := _capabilities s; _header := _header s;
       _compressionAlgo := _compressionAlgo s;
       _payloadSequenceNumber := _payloadSequenceNumber s;
       _currentPayload := _currentPayload s; _closed := v;
       _closeDestination := _closeDestination s; _caching := _caching s;
       _payloads := _payloads s; _ready := _ready s;
       _readyQueue := _readyQueue s; _aborted := _aborted s;
       _timedout := _timedout s; _errored := _errored s |}.

Definition set_closeDestination (v : bool) (s : Stream) : Stream :=
    {| _capabilities := _capabilities s; _header := _header s;
       _compressionAlgo := _compressionAlgo s;
       _payloadSequenceNumber := _payloadSequenceNumber s;
       _currentPayload := _currentPayload s; _closed := _closed s;
       _closeDestination := v; _caching := _caching s;
       _payloads := _payloads s; _ready := _ready s;
       _readyQueue := _readyQueue s; _aborted := _aborted s;
       _timedout := _timedout s; _errored := _errored s |}.

  (** [_caching = c; _payloads = ps] *)
Definition set_cache (c : bool) (ps : list PayloadChunk) (s : Stream) : Stream :=
    {| _capabilities := _capabilities s; _header := _header s;
       _compressionAlgo := _compressionAlgo s;
       _payloadSequenceNumber := _payloadSequenceNumber s;
       _currentPayload := _currentPayload s; _closed := _closed s;
       _closeDestination := _closeDestination s; _caching := c;
       _payloads := ps; _ready := _ready s;
       _readyQueue := _readyQueue s; _aborted := _aborted s;
       _timedout := _timedout s; _errored := _errored s |}.

  (** [_ready = r; _readyQueue = q] *)
Definition set_readiness (r : bool) (q : list bool) (s : Stream) : Stream :=
    {| _capabilities := _capabilities s; _header := _header s;
       _compressionAlgo := _compressionAlgo s;
       _payloadSequenceNumber := _payloadSequenceNumber s;
       _currentPayload := _currentPayload s; _closed := _closed s;
       _closeDestination := _closeDestination s; _caching := _caching s;
       _payloads := _payloads s; _ready := r;
       _readyQueue := q; _aborted := _aborted s;
       _timedout := _timedout s; _errored := _errored s |}.

Definition set_aborted (v : bool) (s : Stream) : Stream :=
    {| _capabilities := _capabilities s; _header := _header s;
       _compressionAlgo := _compressionAlgo s;
       _payloadSequenceNumber := _payloadSequenceNumber s;
       _currentPayload := _currentPayload s; _closed := _closed s;
       _closeDestination := _closeDestination s; _caching := _caching s;
       _payloads := _payloads s; _ready := _ready s;
       _readyQueue := _readyQueue s; _aborted := v;
       _timedout := _timedout s; _errored := _errored s |}.

Definition set_timedout (v : bool) (s : Stream) : Stream :=
    {| _capabilities := _capabilities s; _header := _header s;
       _compressionAlgo := _compressionAlgo s;
       _payloadSequenceNumber := _payloadSequenceNumber s;
       _currentPayload := _currentPayload s; _closed := _closed s;
       _closeDestination := _closeDestination s; _caching := _caching s;
       _payloads := _payloads s; _ready := _ready s;
       _readyQueue := _readyQueue s; _aborted := _aborted s;
       _timedout := v; _errored := _errored s |}.

Definition set_errored (v : option Exception) (s : Stream) : Stream :=
    {| _capabilities := _capabilities s; _header := _header s;
       _compressionAlgo := _compressionAlgo s;
       _payloadSequenceNumber := _payloadSequenceNumber s;
       _currentPayload := _currentPayload s; _closed := _closed s;
       _closeDestination := _closeDestination s; _caching := _caching s;
       _payloads := _payloads s; _ready := _ready s;
       _readyQueue := _readyQueue s; _aborted := _aborted s;
       _timedout := _timedout s; _errored := v |}.

  (** [getMessageHeader()]: [null] for error messages. *)
Definition getMessageHeader (s : Stream) : option MessageHeader :=
    match _header s with
    | Message h => Some h
    | ErrorMessage _ => None
    end.

  (** [getErrorMessage()]: [null] except for error messages. *)
Definition getErrorMessage (s : Stream) : option ErrorHeader :=
    match _header s with
    | ErrorMessage h => Some h
    | Message _ => None
    end.

Definition getPayloads (s : Stream) : list PayloadChunk := _payloads s.

  (** *** The destination and the operations in flight *)

  (** What the stream hands to [_destination.write]: the encoding of the
      header or of a payload chunk. *)
Inductive Written : Type :=
  | HeaderBytes (h : Header)
  | PayloadBytes (c : PayloadChunk).

  (** The calls the destination has received. *)
Inductive DestinationCall : Type :=
  | DWrite (w : Written)
  | DFlush
  | DAbort
  | DClose.

  (** What a callback triple [{result, timeout, error}] is told. *)
Inductive ResultValue : Type :=
  | RBool (b : bool)
  | RNumber (n : Z).

Inductive Outcome : Type :=
  | Result (v : ResultValue)
  | Timeout
  | Error (e : Exception).

Definition value_truthy (v : ResultValue) : bool :=
    match v with
    | RBool b => b
    | RNumber n => negb (n =? 0)%Z
    end.

  (** Completions of [destination.write], [destination.flush] and
      [PayloadChunk$create]. *)
Inductive WriteReply : Type :=
  | WResult (numWritten : Z)
  | WTimeout
  | WError (e : Exception).

Inductive FlushReply : Type :=
  | FResult (success : bool)
  | FTimeout
  | FError (e : Exception).

Inductive CreateReply : Type :=
  | CreateResult
  | CreateError (e : Exception).

  (** Transmission of the header, started by the constructor. *)
Inductive HeaderIO : Type :=
  | HeaderWriting
  | HeaderFlushing
  | HeaderDone.

  (** The callback that [flush] reports to: the caller's own, or the one
      [close] or [setCompressionAlgorithm] wrapped around the caller's. *)
Inductive Continuation : Type :=
  | KFlush
  | KClose
  | KSetCompressionAlgorithm (compressionAlgo : option CompressionAlgorithm).

  (** What an operation in flight waits for: the readiness queue, the chunk
      factory, the destination's write or flush of the chunk it holds, the
      destination's close. *)
Inductive Stage : Type :=
  | AwaitReady
  | AwaitChunk (c : PayloadChunk)
  | AwaitPayloadWrite (c : PayloadChunk)
  | AwaitPayloadFlush (c : PayloadChunk)
  | AwaitDestinationClose.

  (** The stream, the calls its destination received, the state of the
      header transmission and the operations in flight: for each one what
      it waits for and the callback its flush reports to, in the order in
      which the waits began.  Nothing in the class stops a caller from
      calling [flush], [close] or [setCompressionAlgorithm] while an
      earlier call is in flight. *)
Record World : Type := {
    stream : Stream;
    destination : list DestinationCall;
    headerLength : Z;
    header_io : HeaderIO;
    pending : list (Stage * Continuation) }.

Definition update (f : Stream -> Stream) (w : World) : World :=
    {| stream := f (stream w); destination := destination w;
       headerLength := headerLength w; header_io := header_io w;
       pending := pending w |}.

Definition call_destination (c : DestinationCall) (w : World) : World :=
    {| stream := stream w; destination := destination w ++ [c];
       headerLength := headerLength w; header_io := header_io w;
       pending := pending w |}.

Definition set_header_io (h : HeaderIO) (w : World) : World :=
    {| stream := stream w; destination := destination w;
       headerLength := headerLength w; header_io := h;
       pending := pending w |}.

Definition set_pending (p : list (Stage * Continuation)) (w : World) : World :=
    {| stream := stream w; destination := destination w;
       headerLength := headerLength w; header_io := header_io w;
       pending := p |}.

  (** The [i]-th element of a list, and the list without it. *)
Fixpoint pick {A} (i : nat) (l : list A) {struct l} : option (A * list A) :=
    match l with
    | [] => None
    | x :: rest =>
        match i with
        | O => Some (x, rest)
        | S j =>
            match pick j rest with
            | Some (y, others) => Some (y, x :: others)
            | None => None
            end
        end
    end.

  (** *** The methods

      A method or a completion yields the next world and what the callers'
      callbacks were told, in the order in which they were called.
      [InterruptibleExecutor(callback, f, self)] runs [f]: a returned value
      goes to [callback.result], a thrown exception to [callback.error], and
      [undefined] leaves the callback for later. *)
Definition Step : Type := (World * list Outcome)%type.

Definition done (w : World) (o : Outcome) : Step := (w, [o]).
Definition silent (w : World) : Step := (w, []).

  (** An asynchronous call was made: the operation waits for its
      completion. *)
Definition suspend (st : Stage) (k : Continuation) (w : World) : Step :=
    silent (set_pending (pending w ++ [(st, k)]) w).

  (** The callbacks handed to [this.flush] by the caller ([KFlush]), by
      [close] and by [setCompressionAlgorithm]. *)
Definition flush_callback (k : Continuation) (o : Outcome) (w : World) : Step :=
    match k with
    | KFlush => done w o
    | KClose =>
        match o with
        | Result success =>
            let w := if value_truthy success
                     then update (set_currentPayload None) w else w in
            if _closeDestination (stream w)
            then suspend AwaitDestinationClose KFlush (call_destination DClose w)
            else done w (Result success)
        | Timeout => done w Timeout
        | Error e => done w (Error e)
        end
    | KSetCompressionAlgorithm compressionAlgo =>
        match o with
        | Result success =>
            if negb (value_truthy success)
            then done w (Error (MslIoException (Text "flush() aborted")))
            else done (update (set_compressionAlgo compressionAlgo) w)
                   (Result (RBool true))
        | Timeout => done w Timeout
        | Error e => done w (Error e)
        end
    end.

  (** [perform()] inside [flush]. *)
Definition perform (k : Continuation) (w : World) : Step :=
    let s := stream w in
    if _aborted s then flush_callback k (Result (RBool false)) w
    else if _timedout s then flush_callback k Timeout w
    else
      match _errored s with
      | Some e => flush_callback k (Error e) w
      | None =>
          match _currentPayload s with
          | None => flush_callback k (Result (RBool true)) w
          | Some segments =>
              if negb (_closed s) && (Z.of_nat (List.length segments) =? 0)%Z
              then flush_callback k (Result (RBool true)) w
              else
                match getMessageHeader s with
                | None => flush_callback k (Result (RBool true)) w
                | Some messageHeader =>
                    if isHandshake messageHeader
                    then flush_callback k (Result (RBool true)) w
                    else
                      let data := List.concat segments in
                      suspend
                        (AwaitChunk
                           {| sequenceNumber := _payloadSequenceNumber s;
                              chunk_messageId := messageId messageHeader;
                              endofmsg := _closed s;
                              compressionAlgo := _compressionAlgo s;
                              data := data |})
                        k w
                end
          end
      end.

  (** Modelled from the spec: [BlockingQueue] is not among the sources; it
      is the "readiness signal" that [flush] waits on.  [poll] takes the
      element if there is one and waits otherwise; [add] hands the element
      to the waiter that polled first, if any waits, and keeps it otherwise;
      [cancelAll] wakes every waiter with [undefined]; the timer of [poll]
      is the event [ReadyPollTimeout] below.  The waiters are the operations
      in flight at [AwaitReady]. *)
Definition flush (k : Continuation) (w : World) : Step :=
    if negb (_ready (stream w)) then
      match _readyQueue (stream w) with
      | _ :: rest =>
          perform k (update (fun s => set_readiness (_ready s) rest s) w)
      | [] => suspend AwaitReady k w
      end
    else perform k w.

  (** The waiter that polled first, and the operations in flight without
      it. *)
Fixpoint take_waiter (p : list (Stage * Continuation))
    : option (Continuation * list (Stage * Continuation)) :=
    match p with
    | [] => None
    | (AwaitReady, k) :: rest => Some (k, rest)
    | x :: rest =>
        match take_waiter rest with
        | Some (k, others) => Some (k, x :: others)
        | None => None
        end
    end.

  (** [ready()] inside [init]. *)
Definition ready (w : World) : Step :=
    let w := update (fun s => set_readiness true (_readyQueue s) s) w in
    match take_waiter (pending w) with
    | Some (k, others) => perform k (set_pending others w)
    | None =>
        silent (update (fun s => set_readiness (_ready s)
                                   (_readyQueue s ++ [true]) s) w)
    end.

  (** The callbacks of all the waiters, and the operations in flight that
      wait for something else. *)
Fixpoint waiters (p : list (Stage * Continuation)) : list Continuation :=
    match p with
    | [] => []
    | (AwaitReady, k) :: rest => k :: waiters rest
    | _ :: rest => waiters rest
    end.

Fixpoint not_waiting (p : list (Stage * Continuation))
    : list (Stage * Continuation) :=
    match p with
    | [] => []
    | (AwaitReady, _) :: rest => not_waiting rest
    | x :: rest => x :: not_waiting rest
    end.

  (** [cancelAll()]: each waiter's [result] callback is called with
      [undefined], on which [flush] tells its own callback [false]. *)
Fixpoint cancelAll (ks : list Continuation) (w : World) : Step :=
    match ks with
    | [] => silent w
    | k :: rest =>
        let (w1, os1) := flush_callback k (Result (RBool false)) w in
        let (w2, os2) := cancelAll rest w1 in
        (w2, os1 ++ os2)
    end.

Definition abort (w : World) : Step :=
    let w := update (set_aborted true) w in
    let w := call_destination DAbort w in
    cancelAll (waiters (pending w)) (set_pending (not_waiting (pending w)) w).

Definition stopCaching (w : World) : Step :=
    silent (update (set_cache false []) w).

Definition closeDestination (close : bool) (w : World) : Step :=
    silent (update (set_closeDestination close) w).

Definition close (w : World) : Step :=
    let s := stream w in
    if _aborted s then done w (Result (RBool false))
    else if _timedout s then done w Timeout
    else
      match _errored s with
      | Some e => done w (Error e)
      | None =>
          if _closed s then done w (Result (RBool true))
          else flush KClose (update (set_closed true) w)
      end.

Definition setCompressionAlgorithm (compressionAlgo : option CompressionAlgorithm)
    (w : World) : Step :=
    let s := stream w in
    match getMessageHeader s with
    | None =>
        done w (Error (MslInternalException
                         "Cannot write payload data for an error message."))
    | Some _ =>
        if algo_equals (_compressionAlgo s) compressionAlgo
        then done w (Result (RBool true))
        else
          match compressionAlgo with
          | Some a =>
              match _capabilities s with
              | None => done w (Result (RBool false))
              | Some capabilities =>
                  if existsb (fun c => algo_eqb c a) (compressionAlgorithms capabilities)
                  then flush (KSetCompressionAlgorithm compressionAlgo) w
                  else done w (Result (RBool false))
              end
          | None => flush (KSetCompressionAlgorithm compressionAlgo) w
          end
    end.

  (** [data.subarray(off, off + len)] *)
Definition subarray (data : list Byte.byte) (off len : Z) : list Byte.byte :=
    firstn (Z.to_nat len) (skipn (Z.to_nat off) data).

Definition write (data : list Byte.byte) (off len : Z) (w : World) : Step :=
    let s := stream w in
    if _aborted s then done w (Result (RBool false))
    else if _timedout s then done w Timeout
    else
      match _errored s with
      | Some e => done w (Error e)
      | None =>
          if _closed s
          then done w (Error (MslIoException
                                (Text "Message output stream already closed.")))
          else if (off <? 0)%Z
          then done w (Error (RangeError "Offset cannot be negative."))
          else if (len <? 0)%Z
          then done w (Error (RangeError "Length cannot be negative."))
          else if (off + len >? Z.of_nat (List.length data))%Z
          then done w (Error (RangeError
                 "Offset plus length cannot be greater than the array length."))
          else
            match getMessageHeader s with
            | None =>
                done w (Error (MslInternalException
                                 "Cannot write payload data for an error message."))
            | Some messageHeader =>
                if isHandshake messageHeader
                then done w (Error (MslInternalException
                       "Cannot write payload data for a handshake message."))
                else
                  let bytes := subarray data off len in
                  match _currentPayload s with
                  | Some segments =>
                      done (update (set_currentPayload (Some (segments ++ [bytes]))) w)
                        (Result (RNumber (Z.of_nat (List.length bytes))))
                  | None =>
                      done w (Error (TypeError "Cannot read properties of null"))
                  end
            end
      end.

  (** The [error] callbacks of [flush] wrap an [MslException]. *)
Definition encoding_error (e : Exception) (w : World) : Exception :=
    if instanceof_MslException e
    then MslIoExceptionCausedBy
           (ErrorEncodingPayloadChunk (_payloadSequenceNumber (stream w))) e
    else e.

  (** Completion of [destination.write] for the header. *)
Definition header_written (r : WriteReply) (w : World) : Step :=
    match r with
    | WResult numWritten =>
        if _aborted (stream w) then ready (set_header_io HeaderDone w)
        else if (numWritten <? headerLength w)%Z
        then ready (set_header_io HeaderDone (update (set_timedout true) w))
        else silent (set_header_io HeaderFlushing (call_destination DFlush w))
    | WTimeout => ready (set_header_io HeaderDone (update (set_timedout true) w))
    | WError e => ready (set_header_io HeaderDone (update (set_errored (Some e)) w))
    end.

  (** Completion of [destination.flush] for the header. *)
Definition header_flushed (r : FlushReply) (w : World) : Step :=
    let w := set_header_io HeaderDone w in
    match r with
    | FResult success =>
        if _aborted (stream w) then ready w
        else ready (update (set_timedout (negb success)) w)
    | FTimeout => ready (update (set_timedout true) w)
    | FError e => ready (update (set_errored (Some e)) w)
    end.

  (** Completion of [PayloadChunk$create]. *)
Definition chunk_created (r : CreateReply) (chunk : PayloadChunk)
    (k : Continuation) (w : World) : Step :=
    match r with
    | CreateResult =>
        let w := if _caching (stream w)
                 then update (fun s => set_cache (_caching s) (_payloads s ++ [chunk]) s) w
                 else w in
        suspend (AwaitPayloadWrite chunk) k
          (call_destination (DWrite (PayloadBytes chunk)) w)
    | CreateError e => flush_callback k (Error (encoding_error e w)) w
    end.

  (** Completion of [destination.write] for a payload chunk. *)
Definition payload_written (r : WriteReply) (chunk : PayloadChunk)
    (k : Continuation) (w : World) : Step :=
    match r with
    | WResult numWritten =>
        if _aborted (stream w) then flush_callback k (Result (RBool false)) w
        else if js_less_than numWritten (chunk_length chunk)
        then flush_callback k Timeout w
        else suspend (AwaitPayloadFlush chunk) k (call_destination DFlush w)
    | WTimeout => flush_callback k Timeout w
    | WError e => flush_callback k (Error (encoding_error e w)) w
    end.

  (** Completion of [destination.flush] for a payload chunk. *)
Definition payload_flushed (r : FlushReply) (k : Continuation) (w : World) : Step :=
    match r with
    | FResult success =>
        if _aborted (stream w) then flush_callback k (Result (RBool false)) w
        else if negb success then flush_callback k Timeout w
        else
          let w := update (fun s => set_payloadSequenceNumber
                                      (_payloadSequenceNumber s + 1) s) w in
          let w := if _closed (stream w)
                   then update (set_currentPayload None) w
                   else update (set_currentPayload (Some [])) w in
          flush_callback k (Result (RBool true)) w
    | FTimeout => flush_callback k Timeout w
    | FError e => flush_callback k (Error (encoding_error e w)) w
    end.

  (** *** Events *)

Inductive Call : Type :=
  | Write (data : list Byte.byte) (off len : Z)
  | Flush
  | Close
  | SetCompressionAlgorithm (compressionAlgo : option CompressionAlgorithm)
  | Abort
  | StopCaching
  | CloseDestination (close : bool).

  (** What the event loop delivers: a call of a method, a completion of
      the header transmission, or a completion for the [i]-th operation in
      flight. *)
Inductive Event : Type :=
  | Invoke (c : Call)
  | HeaderWriteDone (r : WriteReply)
  | HeaderFlushDone (r : FlushReply)
  | ReadyPollTimeout (i : nat)
  | ReadyPollError (i : nat) (e : Exception)
  | ChunkCreateDone (i : nat) (r : CreateReply)
  | PayloadWriteDone (i : nat) (r : WriteReply)
  | PayloadFlushDone (i : nat) (r : FlushReply)
  | DestinationCloseDone (i : nat) (o : Outcome).

Definition invoke (c : Call) (w : World) : Step :=
    match c with
    | Write data off len => write data off len w
    | Flush => flush KFlush w
    | Close => close w
    | SetCompressionAlgorithm compressionAlgo =>
        setCompressionAlgorithm compressionAlgo w
    | Abort => abort w
    | StopCaching => stopCaching w
    | CloseDestination b => closeDestination b w
    end.

  (** One event.  [None]: the event cannot happen in this world, it is a
      completion of something that is not in flight. *)
Definition step (w : World) (ev : Event) : option Step :=
    match ev with
    | Invoke c => Some (invoke c w)
    | HeaderWriteDone r =>
        match header_io w with
        | HeaderWriting => Some (header_written r w)
        | _ => None
        end
    | HeaderFlushDone r =>
        match header_io w with
        | HeaderFlushing => Some (header_flushed r w)
        | _ => None
        end
    | ReadyPollTimeout i =>
        match pick i (pending w) with
        | Some ((AwaitReady, k), others) =>
            Some (flush_callback k Timeout (set_pending others w))
        | _ => None
        end
    | ReadyPollError i e =>
        match pick i (pending w) with
        | Some ((AwaitReady, k), others) =>
            Some (flush_callback k (Error e) (set_pending others w))
        | _ => None
        end
    | ChunkCreateDone i r =>
        match pick i (pending w) with
        | Some ((AwaitChunk c, k), others) =>
            Some (chunk_created r c k (set_pending others w))
        | _ => None
        end
    | PayloadWriteDone i r =>
        match pick i (pending w) with
        | Some ((AwaitPayloadWrite c, k), others) =>
            Some (payload_written r c k (set_pending others w))
        | _ => None
        end
    | PayloadFlushDone i r =>
        match pick i (pending w) with
        | Some ((AwaitPayloadFlush c, k), others) =>
            Some (payload_flushed r k (set_pending others w))
        | _ => None
        end
    | DestinationCloseDone i o =>
        match pick i (pending w) with
        | Some ((AwaitDestinationClose, _), others) =>
            Some (done (set_pending others w) o)
        | _ => None
        end
    end.

  (** The world after a sequence of events, and what the callbacks were
      told along it. *)
Fixpoint run (w : World) (evs : list Event) : option (World * list Outcome) :=
    match evs with
    | [] => Some (w, [])
    | ev :: rest =>
        match step w ev with
        | None => None
        | Some (w', os) =>
            match run w' rest with
            | None => None
            | Some (w'', os') => Some (w'', os ++ os')
            end
        end
    end.

  (** [init]: the properties are set and the header is handed to the
      destination; [getPreferredAlgorithm] is
      [MslConstants$CompressionAlgorithm$getPreferredAlgorithm], which is not
      among the sources, [localCapabilities] is
      [ctx.getMessageCapabilities()] and [headerBytesLength] is the length
      of the encoded header. *)
Definition init
    (getPreferredAlgorithm : list CompressionAlgorithm -> option CompressionAlgorithm)
    (localCapabilities : option MessageCapabilities) (header : Header)
    (headerBytesLength : Z) : World :=
    let capabilities :=
      MessageCapabilities_intersection localCapabilities
        (header_messageCapabilities header) in
    let compressionAlgo :=
      match capabilities with
      | Some c => getPreferredAlgorithm (compressionAlgorithms c)
      | None => None
      end in
    {| stream :=
        {| _capabilities := capabilities;
           _header := header;
           _compressionAlgo := compressionAlgo;
           _payloadSequenceNumber := 1;
           _currentPayload := Some [];
           _closed := false;
           _closeDestination := false;
           _caching := true;
           _payloads := [];
           _ready := false;
           _readyQueue := [];
           _aborted := false;
           _timedout := false;
           _errored := None |};
       destination := [DWrite (HeaderBytes header)];
       headerLength := headerBytesLength;
       header_io := HeaderWriting;
       pending := [] |}.

  (** The payload chunks handed to the destination, in order. *)
Fixpoint emitted (calls : list DestinationCall) : list PayloadChunk :=
    match calls with
    | [] => []
    | DWrite (PayloadBytes c) :: rest => c :: emitted rest
    | _ :: rest => emitted rest
    end.

End MOS.

(** ** tests/src/main/javascript/util/MockMslContext.js *)

Module MockMslContext.

(** An authentication or key exchange scheme is an enumeration constant,
    one object per name: [a == b] on schemes compares the names. *)
Record Scheme : Type := { name : string }.

Definition scheme_equals (a b : Scheme) : bool := name a =? name b.

(** A factory is a collaborator, an object of a class that is not among
    the sources; the context reads its [scheme]. *)
Record Factory : Type := { factory_addr : Addr; scheme : Scheme }.

(** The objects [_entityAuthFactories] and [_userAuthFactories] are plain
    JavaScript objects ([{}]) with scheme names as keys.  Such an object has
    own properties, here the factories stored in it, and a prototype, which
    is [Object.prototype] until a factory is stored under the name
    [__proto__]: that assignment replaces the prototype by the factory
    object. *)
Inductive Prototype : Type :=
| OfObject
| OfFactory (f : Factory).

Record Registry : Type := {
  own : list (string * Factory);
  prototype : Prototype }.

(** [{}] *)
Definition empty_registry : Registry := {| own := []; prototype := OfObject |}.

(** The names of the properties of [Object.prototype] other than
    [__proto__]: the methods of the language and the four legacy accessor
    helpers. *)
Definition object_prototype_members : list string :=
  ["constructor"; "hasOwnProperty"; "isPrototypeOf"; "propertyIsEnumerable";
   "toLocaleString"; "toString"; "valueOf";
   "__defineGetter__"; "__defineSetter__";
   "__lookupGetter__"; "__lookupSetter__"].

Definition is_object_prototype_member (key : string) : bool :=
  existsb (String.eqb key) object_prototype_members.

(** What [registry[key]] evaluates to: a factory, [Object.prototype]
    itself, one of its methods, the property [key] of the factory object
    that serves as prototype (whatever that object holds there), or
    [undefined]. *)
Inductive Member : Type :=
| AFactory (f : Factory)
| ObjectPrototype
| ObjectPrototypeMember (key : string)
| FactoryMember (f : Factory) (key : string)
| NoMember.

Fixpoint own_get (o : list (string * Factory)) (key : string) : option Factory :=
  match o with
  | [] => None
  | (k, f) :: rest => if k =? key then Some f else own_get rest key
  end.

Fixpoint own_set (o : list (string * Factory)) (key : string) (factory : Factory)
  : list (string * Factory) :=
  match o with
  | [] => [(key, factory)]
  | (k, f) :: rest =>
      if k =? key then (k, factory) :: rest
      else (k, f) :: own_set rest key factory
  end.

Fixpoint own_delete (o : list (string * Factory)) (key : string)
  : list (string * Factory) :=
  match o with
  | [] => []
  | (k, f) :: rest =>
      if k =? key then own_delete rest key
      else (k, f) :: own_delete rest key
  end.

(** [registry[key]]: the own property, or else what the prototype chain
    holds; [__proto__] is an accessor of [Object.prototype] that answers
    the prototype. *)
Definition registry_get (r : Registry) (key : string) : Member :=
  match own_get (own r) key with
  | Some f => AFactory f
  | None =>
      match prototype r with
      | OfObject =>
          if key =? "__proto__" then ObjectPrototype
          else if is_object_prototype_member key
               then ObjectPrototypeMember key
               else NoMember
      | OfFactory f =>
          if key =? "__proto__" then AFactory f else FactoryMember f key
      end
  end.

(** [registry[key] = factory]: an own property is overwritten; otherwise,
    under [Object.prototype], the name [__proto__] reaches the accessor,
    which makes the factory the prototype, and any other name becomes an
    own property.  [None]: the name is not an own property and the
    prototype is a factory object; the effect of the assignment then
    depends on what that object, whose class is not among the sources,
    holds under the name. *)
Definition registry_set (r : Registry) (key : string) (factory : Factory)
  : option Registry :=
  match own_get (own r) key with
  | Some _ =>
      Some {| own := own_set (own r) key factory; prototype := prototype r |}
  | None =>
      match prototype r with
      | OfObject =>
          if key =? "__proto__"
          then Some {| own := own r; prototype := OfFactory factory |}
          else Some {| own := own_set (own r) key factory;
                       prototype := prototype r |}
      | OfFactory _ => None
      end
  end.

(** [delete registry[key]]: the own property goes, the prototype stays. *)
Definition registry_delete (r : Registry) (key : string) : Registry :=
  {| own := own_delete (own r) key; prototype := prototype r |}.

(** Of the properties of the context, the registries of factories. *)
Record Context : Type := {
  _entityAuthFactories : Registry;
  _userAuthFactories : Registry;
  _keyxFactories : list Factory }.

Definition addEntityAuthenticationFactory (factory : Factory) (this : Context)
  : option Context :=
  match registry_set (_entityAuthFactories this) (name (scheme factory)) factory with
  | Some r =>
      Some {| _entityAuthFactories := r;
              _userAuthFactories := _userAuthFactories this;
              _keyxFactories := _keyxFactories this |}
  | None => None
  end.

Definition removeEntityAuthenticationFactory (scheme : Scheme) (this : Context)
  : Context :=
  {| _entityAuthFactories :=
       registry_delete (_entityAuthFactories this) (name scheme);
     _userAuthFactories := _userAuthFactories this;
     _keyxFactories := _keyxFactories this |}.

Definition getEntityAuthenticationFactory (scheme : Scheme) (this : Context)
  : Member :=
  registry_get (_entityAuthFactories this) (name scheme).

Definition addUserAuthenticationFactory (factory : Factory) (this : Context)
  : option Context :=
  match registry_set (_userAuthFactories this) (name (scheme factory)) factory with
  | Some r =>
      Some {| _entityAuthFactories := _entityAuthFactories this;
              _userAuthFactories := r;
              _keyxFactories := _keyxFactories this |}
  | None => None
  end.

Definition removeUserAuthenticationFactory (scheme : Scheme) (this : Context)
  : Context :=
  {| _entityAuthFactories := _entityAuthFactories this;
     _userAuthFactories :=
       registry_delete (_userAuthFactories this) (name scheme);
     _keyxFactories := _keyxFactories this |}.

Definition getUserAuthenticationFactory (scheme : Scheme) (this : Context)
  : Member :=
  registry_get (_userAuthFactories this) (name scheme).

(** [this._keyxFactories.push(factory)] *)
Definition addKeyExchangeFactory (factory : Factory) (this : Context) : Context :=
  {| _entityAuthFactories := _entityAuthFactories this;
     _userAuthFactories := _userAuthFactories this;
     _keyxFactories := _keyxFactories this ++ [factory] |}.

(** [array.splice(i, 1)] *)
Definition splice1 {A} (array : list A) (i : Z) : list A :=
  firstn (Z.to_nat i) array ++ skipn (S (Z.to_nat i)) array.

(** The loop of [removeKeyExchangeFactories], from index [i]: an element
    of the scheme is spliced out and the index stepped back before the
    loop steps it forward.  [None] when the fuel runs out. *)
Fixpoint removeKeyExchangeFactories_loop (fuel : nat) (scheme0 : Scheme)
  (keyx : list Factory) (i : Z) : option (list Factory) :=
  match fuel with
  | O => None
  | S fuel' =>
      if (i <? Z.of_nat (List.length keyx))%Z then
        match nth_error keyx (Z.to_nat i) with
        | Some factory =>
            if scheme_equals (scheme factory) scheme0
            then removeKeyExchangeFactories_loop fuel' scheme0
                   (splice1 keyx i) (i - 1 + 1)
            else removeKeyExchangeFactories_loop fuel' scheme0 keyx (i + 1)
        | None => None
        end
      else Some keyx
  end.

Definition removeKeyExchangeFactories (scheme0 : Scheme) (this : Context)
  : option Context :=
  match removeKeyExchangeFactories_loop (S (List.length (_keyxFactories this)))
          scheme0 (_keyxFactories this) 0 with
  | Some keyx =>
      Some {| _entityAuthFactories := _entityAuthFactories this;
              _userAuthFactories := _userAuthFactories this;
              _keyxFactories := keyx |}
  | None => None
  end.

(** The loop of [getKeyExchangeFactory]: the first factory of the scheme,
    [undefined] when there is none. *)
Fixpoint getKeyExchangeFactory_loop (scheme0 : Scheme) (keyx : list Factory)
  : option Factory :=
  match keyx with
  | [] => None
  | factory :: rest =>
      if scheme_equals (scheme factory) scheme0 then Some factory
      else getKeyExchangeFactory_loop scheme0 rest
  end.

Definition getKeyExchangeFactory (scheme0 : Scheme) (this : Context)
  : option Factory :=
  getKeyExchangeFactory_loop scheme0 (_keyxFactories this).

Definition getKeyExchangeFactories (this : Context) : list Factory :=
  _keyxFactories this.

End MockMslContext.

(** * Properties *)

(** ** Definitions used by the statements *)

(** A stand-in for the certificate library, for evaluating the code: a
    certificate is encoded by its own dump, an empty or non-string encoding
    does not decode, and the subject is the first six digits of the dump. *)
Definition sample_library : CertLibrary :=
  {| readCertPEM := fun v =>
       match v with
       | JString s => if s =? "" then Throw (ForeignError false 0) else Return s
       | _ => Throw (ForeignError false 0)
       end;
     getSubjectString := fun h => substring 0 6 h;
     base64_of_hex := fun h => h |}.

(** The required-field table of the wire format: [x509certificate], or
    [x509chain] plus [identity]. *)
Definition present (jo : JsObject) (key : string) : bool :=
  match get jo key with Undefined => false | _ => true end.

Definition required_fields_present (jo : JsObject) : bool :=
  present jo KEY_X509_CERT
  || (present jo KEY_X509_CHAIN && present jo KEY_X509_IDENTITY).

Definition is_encoding_error {A} (c : Completion A) : bool :=
  match c with
  | Throw (MslEncodingException JSON_PARSE_ERROR _ _) => true
  | _ => false
  end.

Definition is_certificate_parse_error {A} (c : Completion A) : bool :=
  match c with
  | Throw (MslCryptoException X509CERT_PARSE_ERROR _ _) => true
  | _ => false
  end.

Definition returns {A} (c : Completion A) : bool :=
  match c with Return _ => true | Throw _ => false end.

Definition throws {A} (c : Completion A) : bool := negb (returns c).

(** The value is the number NaN. *)
Definition is_NaN (v : JsValue) : bool :=
  match v with
  | JNumber x => match ieee x with S754_nan => true | _ => false end
  | _ => false
  end.

(** Properties of the runs of a message output stream. *)
Module MOSProperties.
Import MOS.

  (** The sequence numbers and the end-of-message flags of the chunks
      handed to the destination, in order. *)
Definition sequence_numbers (w : World) : list Z :=
    map sequenceNumber (emitted (destination w)).

Definition end_flags (w : World) : list bool :=
    map endofmsg (emitted (destination w)).

  (** 1, 2, ..., n *)
Definition one_to (n : nat) : list Z := map Z.of_nat (seq 1 n).

  (** Each number is the one before it or one more. *)
Fixpoint gap_free (prev : Z) (l : list Z) : Prop :=
    match l with
    | [] => True
    | x :: rest => (x = prev \/ x = prev + 1)%Z /\ gap_free x rest
    end.

  (** The list begins at 1 and never skips a number. *)
Definition counts_from_one (l : list Z) : Prop :=
    match l with
    | [] => True
    | x :: rest => x = 1%Z /\ gap_free x rest
    end.

  (** The destination acknowledges the write and the flush of a payload
      chunk: no timeout, no error, no unsuccessful flush. *)
Definition acknowledged (ev : Event) : bool :=
    match ev with
    | PayloadWriteDone _ (WResult _) => true
    | PayloadWriteDone _ _ => false
    | PayloadFlushDone _ (FResult success) => success
    | PayloadFlushDone _ _ => false
    | _ => true
    end.

  (** The methods that flush. *)
Definition flushes (c : Call) : bool :=
    match c with
    | Flush | Close | SetCompressionAlgorithm _ => true
    | _ => false
    end.

  (** The event is in turn: it is no call of a method that flushes made
      while an operation is in flight. *)
Definition in_turn (w : World) (ev : Event) : bool :=
    match ev with
    | Invoke c =>
        if flushes c
        then match pending w with [] => true | _ => false end
        else true
    | _ => true
    end.

  (** The events of a run satisfy [guard], each in the world it meets. *)
Fixpoint guarded (guard : World -> Event -> bool) (w : World) (evs : list Event)
    : bool :=
    match evs with
    | [] => true
    | ev :: rest =>
        guard w ev
        && match step w ev with
           | Some (w', _) => guarded guard w' rest
           | None => true
           end
    end.

  (** The caller runs one operation at a time: [flush], [close] and
      [setCompressionAlgorithm] are called only when none is in flight. *)
Definition one_at_a_time (w : World) (evs : list Event) : bool :=
    guarded in_turn w evs.

  (** How many flags are set. *)
Definition end_count (l : list bool) : nat :=
    List.length (filter (fun b => b) l).

  (** The flags that are set come last. *)
Definition end_marks_last (l : list bool) : Prop :=
    exists a b, l = repeat false a ++ repeat true b.

  (** Any event but a call of [close]. *)
Definition not_close (ev : Event) : bool :=
    match ev with
    | Invoke Close => false
    | _ => true
    end.

  (** Any event but a call of [stopCaching]. *)
Definition not_stopCaching (ev : Event) : bool :=
    match ev with
    | Invoke StopCaching => false
    | _ => true
    end.

  (** The flags that abort, timeout and error leave untouched. *)
Definition healthy (s : Stream) : Prop :=
    _aborted s = false /\ _timedout s = false /\ _errored s = None.

  (** The header carries payload: a message header that is no handshake. *)
Definition data_bearing (s : Stream) : bool :=
    match _header s with
    | Message h => negb (isHandshake h)
    | ErrorMessage _ => false
    end.

  (** The callbacks of the operations that wait for readiness, oldest
      first. *)
Definition waiting_callbacks (p : list (Stage * Continuation))
    : list Continuation :=
    map snd (filter (fun e => match fst e with AwaitReady => true | _ => false end) p).

  (** The operation does not wait for readiness. *)
Definition released (e : Stage * Continuation) : Prop :=
    match fst e with
    | AwaitReady => False
    | _ => True
    end.

  (** What the caller of [flush], [close] or [setCompressionAlgorithm] is
      told when the flush of its operation reports [false], the report of
      an aborted stream: [flush] passes it on; [close] passes it on unless
      the destination is to be closed, and then leaves the answer to the
      destination's [close]; [setCompressionAlgorithm] raises an
      exception. *)
Definition aborted_report (closeDestination : bool) (k : Continuation)
    : list Outcome :=
    match k with
    | KFlush => [Result (RBool false)]
    | KClose => if closeDestination then [] else [Result (RBool false)]
    | KSetCompressionAlgorithm _ =>
        [Error (MslIoException (Text "flush() aborted"))]
    end.

  (** Sample streams for evaluating the code. *)
Definition first_algorithm (l : list CompressionAlgorithm)
    : option CompressionAlgorithm := hd_error l.

Definition sample_capabilities : option MessageCapabilities :=
    Some {| compressionAlgorithms := [GZIP; LZW] |}.

Definition sample_header : Header :=
    Message {| messageId := 7; isHandshake := false;
               messageCapabilities := sample_capabilities |}.

Definition sample_stream : World :=
    init first_algorithm sample_capabilities sample_header 10.

Definition sample_error_stream : World :=
    init first_algorithm sample_capabilities (ErrorMessage {| errorCode := 3 |}) 10.

  (** The header is written and flushed in full. *)
Definition header_sent : list Event :=
    [HeaderWriteDone (WResult 10); HeaderFlushDone (FResult true)].

  (** The chunk of the oldest operation in flight is created, written
      and flushed. *)
Definition chunk_sent : list Event :=
    [ChunkCreateDone 0 CreateResult; PayloadWriteDone 0 (WResult 40);
     PayloadFlushDone 0 (FResult true)].

Definition two_bytes : list Byte.byte := [Byte.x01; Byte.x02].

Local Open Scope Z_scope.

  (** The numbers in use: every chunk emitted or in the making carries a
      number from 1 to the stream's counter. *)
Definition numbers_in_range (w : World) : Prop :=
    let n := _payloadSequenceNumber (stream w) in
    1 <= n
    /\ Forall (fun x => 1 <= x <= n) (sequence_numbers w)
    /\ Forall (fun e => match fst e with
                        | AwaitChunk c | AwaitPayloadWrite c
                        | AwaitPayloadFlush c => 1 <= sequenceNumber c <= n
                        | _ => True
                        end) (pending w).

  (** Invariant of the sequence numbers when the caller runs one operation
      at a time: what was emitted counts from one and ends at the stream's
      counter or one below it. *)
Definition numbering (w : World) : Prop :=
    let seqs := sequence_numbers w in
    let n := _payloadSequenceNumber (stream w) in
    counts_from_one seqs /\ 1 <= n /\
    match pending w with
    | [] => last seqs 0 = n - 1 \/ last seqs 0 = n
    | [(AwaitChunk c, _)] =>
        sequenceNumber c = n /\ (last seqs 0 = n - 1 \/ last seqs 0 = n)
    | [(AwaitPayloadWrite _, _)] | [(AwaitPayloadFlush _, _)] =>
        last seqs 0 = n
    | [_] => last seqs 0 = n - 1 \/ last seqs 0 = n
    | _ => False
    end.

  (** The same with a destination that acknowledges every chunk: the
      numbers emitted are 1 to the counter, or to one below it. *)
Definition numbering_acknowledged (w : World) : Prop :=
    let seqs := sequence_numbers w in
    let n := _payloadSequenceNumber (stream w) in
    let len := Z.of_nat (List.length seqs) in
    seqs = one_to (List.length seqs) /\
    match pending w with
    | [] => len = n - 1 \/ (len = n /\ _aborted (stream w) = true)
    | [(AwaitChunk c, _)] => sequenceNumber c = n /\ len = n - 1
    | [(AwaitPayloadWrite _, _)] | [(AwaitPayloadFlush _, _)] => len = n
    | [_] => len = n - 1 \/ (len = n /\ _aborted (stream w) = true)
    | _ => False
    end.

  (** A stream that was not closed: no chunk emitted or in the making is
      flagged end-of-message. *)
Definition open_stream (w : World) : Prop :=
    _closed (stream w) = false
    /\ end_count (end_flags w) = 0%nat
    /\ Forall (fun e => match fst e with
                        | AwaitChunk c | AwaitPayloadWrite c
                        | AwaitPayloadFlush c => endofmsg c = false
                        | _ => True
                        end) (pending w).

  (** Invariant of the end-of-message flag on a data-bearing stream when
      the caller runs one operation at a time. *)
Definition closing (w : World) : Prop :=
    let s := stream w in
    let flags := end_flags w in
    data_bearing s = true /\ end_marks_last flags /\
    (_closed s = false -> end_count flags = 0%nat /\ _currentPayload s <> None) /\
    (_currentPayload s = None -> (1 <= end_count flags)%nat) /\
    match pending w with
    | [] => True
    | [(AwaitChunk c, k)] =>
        endofmsg c = _closed s /\ (k = KClose -> _closed s = true)
    | [(AwaitPayloadWrite c, k)] | [(AwaitPayloadFlush c, k)] =>
        endofmsg c = _closed s
        /\ (_closed s = true -> (1 <= end_count flags)%nat)
        /\ (k = KClose -> _closed s = true)
    | [(AwaitReady, k)] => k = KClose -> _closed s = true
    | [_] => True
    | _ => False
    end.

  (** With an acknowledging destination at most one chunk is flagged. *)
Definition single_end (w : World) : Prop :=
    let s := stream w in
    let flags := end_flags w in
    closing w /\ (end_count flags <= 1)%nat /\
    match pending w with
    | [(AwaitChunk _, _)] => end_count flags = 0%nat
    | [(AwaitPayloadWrite _, _)] | [(AwaitPayloadFlush _, _)] => True
    | _ => end_count flags = 1%nat ->
           _currentPayload s = None \/ _aborted s = true
    end.

  (** Caching was stopped. *)
Definition cache_off (w : World) : Prop :=
    _caching (stream w) = false /\ _payloads (stream w) = [].

  (** While caching is on the cache holds what was emitted. *)
Definition cache_on (w : World) : Prop :=
    _caching (stream w) = true ->
    _payloads (stream w) = emitted (destination w).

  (** The negotiated capabilities list the algorithm; [null] (no
      compression) is always accepted. *)
Definition supported (s : Stream) (algo : option CompressionAlgorithm) : bool :=
    match algo with
    | None => true
    | Some a =>
        match _capabilities s with
        | None => false
        | Some capabilities =>
            existsb (fun c => algo_eqb c a) (compressionAlgorithms capabilities)
        end
    end.

  (** Both sides list the algorithm. *)
Definition listed_by_both (local remote : option MessageCapabilities)
    (a : CompressionAlgorithm) : Prop :=
    exists l r,
      local = Some l /\ remote = Some r
      /\ In a (compressionAlgorithms l) /\ In a (compressionAlgorithms r).

  (** The world with the chunk in the cache, if caching is on. *)
Definition cached (c : PayloadChunk) (w : World) : World :=
    if _caching (stream w)
    then update (fun s => set_cache (_caching s) (_payloads s ++ [c]) s) w
    else w.

  (** What a flush leaves of a world with no other operation in flight
      when the destination does not acknowledge its chunk: the chunk in
      the cache, if caching is on, and in the log of the destination, and
      nothing else. *)
Definition attempted (c : PayloadChunk) (flushed : bool) (w : World) : World :=
    set_pending []
      (if flushed
       then call_destination DFlush
              (call_destination (DWrite (PayloadBytes c)) (cached c w))
       else call_destination (DWrite (PayloadBytes c)) (cached c w)).

  (** The world after a sequence of events. *)
Definition after (w : World) (evs : list Event) : World :=
    match run w evs with
    | Some (w', _) => w'
    | None => w
    end.

  (** Sample worlds: two bytes buffered on a ready stream; a ready stream
      aborted; a stream closed through an acknowledging destination. *)
Definition sample_buffering : World :=
    after sample_stream (header_sent ++ [Invoke (Write two_bytes 0 2)]).

Definition sample_aborted : World :=
    after sample_stream (header_sent ++ [Invoke Abort]).

Definition sample_closed : World :=
    after sample_stream (header_sent ++ Invoke Close :: chunk_sent).

End MOSProperties.

(** More properties of the runs of a message output stream. *)
Module MOSMoreProperties.
Import MOS MOSProperties.
Local Open Scope Z_scope.

(** The operation holds no chunk: it waits neither for the chunk factory
    nor for the destination to take a chunk. *)
Definition idle (e : Stage * Continuation) : Prop :=
  match fst e with
  | AwaitChunk _ | AwaitPayloadWrite _ | AwaitPayloadFlush _ => False
  | _ => True
  end.

(** A stream without payload: nothing emitted, nothing cached, no chunk in
    the making. *)
Definition carries_nothing (w : World) : Prop :=
  data_bearing (stream w) = false
  /\ emitted (destination w) = []
  /\ _payloads (stream w) = []
  /\ Forall idle (pending w).

(** How many times the header was handed to the destination. *)
Fixpoint header_writes (calls : list DestinationCall) : nat :=
  match calls with
  | [] => 0
  | DWrite (HeaderBytes _) :: rest => S (header_writes rest)
  | _ :: rest => header_writes rest
  end.

(** The operation waits for readiness or for the destination to close. *)
Definition before_payload (e : Stage * Continuation) : Prop :=
  match fst e with
  | AwaitReady | AwaitDestinationClose => True
  | _ => False
  end.

(** The header is the first call, it is handed over once, and until the
    header transmission is done the stream is not ready, has no failure
    recorded and has emitted nothing. *)
Definition header_first (w : World) : Prop :=
  hd_error (destination w) = Some (DWrite (HeaderBytes (_header (stream w))))
  /\ header_writes (destination w) = 1%nat
  /\ (_ready (stream w) = true
      \/ (_ready (stream w) = false
          /\ emitted (destination w) = []
          /\ _readyQueue (stream w) = []
          /\ header_io w <> HeaderDone
          /\ Forall before_payload (pending w)))
  /\ (header_io w <> HeaderDone ->
      _ready (stream w) = false
      /\ _timedout (stream w) = false /\ _errored (stream w) = None).

(** What [w] keeps of the flags of [w0]. *)
Definition flags_kept (w0 w : World) : Prop :=
  (_closed (stream w0) = true -> _closed (stream w) = true)
  /\ (_aborted (stream w0) = true -> _aborted (stream w) = true)
  /\ (_ready (stream w0) = true -> _ready (stream w) = true)
  /\ (header_io w0 = HeaderDone ->
      header_io w = HeaderDone
      /\ _timedout (stream w) = _timedout (stream w0)
      /\ _errored (stream w) = _errored (stream w0)).

(** Any event but [closeDestination(true)]. *)
Definition close_not_requested (ev : Event) : bool :=
  match ev with
  | Invoke (CloseDestination true) => false
  | _ => true
  end.

(** The operation does not wait for the destination to close. *)
Definition not_closing (e : Stage * Continuation) : Prop :=
  match fst e with
  | AwaitDestinationClose => False
  | _ => True
  end.

(** The destination was not asked to close and is not about to be. *)
Definition destination_open (w : World) : Prop :=
  _closeDestination (stream w) = false
  /\ ~ In DClose (destination w)
  /\ Forall not_closing (pending w).

(** The buffer is released and no chunk is in the making. *)
Definition sealed (w : World) : Prop :=
  _currentPayload (stream w) = None /\ Forall idle (pending w).

(** The chunk that the operation holds, if it holds one, carries the
    message id and a number of at least 1. *)
Definition holds_stamped (h : MessageHeader) (e : Stage * Continuation) : Prop :=
  match fst e with
  | AwaitChunk c =>
      chunk_messageId c = messageId h /\ 1 <= sequenceNumber c
  | _ => True
  end.

(** Every chunk carries the message id of the header. *)
Definition stamped (h : MessageHeader) (w : World) : Prop :=
  _header (stream w) = Message h
  /\ Forall (fun c => chunk_messageId c = messageId h /\ 1 <= sequenceNumber c)
       (emitted (destination w))
  /\ 1 <= _payloadSequenceNumber (stream w)
  /\ Forall (holds_stamped h) (pending w).

End MOSMoreProperties.

(** Properties of the factories of the test context. *)
Module ContextProperties.
Import MockMslContext.

(** The factory is of another scheme than [s]. *)
Definition other_scheme (s : Scheme) (f : Factory) : bool :=
  negb (scheme_equals (scheme f) s).

(** The name is no property of [Object.prototype]: neither [__proto__]
    nor one of its methods. *)
Definition ordinary (key : string) : bool :=
  negb (key =? "__proto__") && negb (is_object_prototype_member key).

(** The registry is as [{}] made it but for the factories stored in it:
    its prototype is [Object.prototype], and [__proto__], which an
    assignment never makes an own property, is none. *)
Definition plain (r : Registry) : Prop :=
  prototype r = OfObject /\ own_get (own r) "__proto__" = None.

(** The laws of a registry [reg] of a context with its three methods, at a
    context whose registry is plain: an added factory is found under the
    name of its scheme; under a name other than [__proto__] the registry
    stays plain and what is found under another name is what was found
    before; a factory added under [__proto__] is found there also after
    the removal; after the removal of a scheme the registry is plain and
    under the name is found nothing if the name is ordinary, the method of
    [Object.prototype] if it names one, and [Object.prototype] under
    [__proto__]; a removal leaves what is found under another name. *)
Definition registry_of_factories
  (reg : Context -> Registry)
  (add : Factory -> Context -> option Context)
  (remove : Scheme -> Context -> Context)
  (get : Scheme -> Context -> Member) : Prop :=
  forall (this : Context) (factory : Factory) (s : Scheme),
    plain (reg this) ->
    (exists this1,
        add factory this = Some this1
        /\ get (scheme factory) this1 = AFactory factory
        /\ (name (scheme factory) <> "__proto__" ->
            plain (reg this1)
            /\ (name s <> name (scheme factory) -> get s this1 = get s this))
        /\ (name (scheme factory) = "__proto__" ->
            get (scheme factory) (remove (scheme factory) this1)
            = AFactory factory))
    /\ plain (reg (remove s this))
    /\ (ordinary (name s) = true -> get s (remove s this) = NoMember)
    /\ (is_object_prototype_member (name s) = true ->
        get s (remove s this) = ObjectPrototypeMember (name s))
    /\ (name s = "__proto__" -> get s (remove s this) = ObjectPrototype)
    /\ (name s <> name (scheme factory) ->
        get s (remove (scheme factory) this) = get s this).

(** A context whose registries are empty objects. *)
Definition empty_context : Context :=
  {| _entityAuthFactories := empty_registry;
     _userAuthFactories := empty_registry;
     _keyxFactories := [] |}.

End ContextProperties.

(** * Theorems *)

(** ** X.509 entity authentication data *)

Lemma scheme_eqb_eq a b : scheme_eqb a b = true <-> a = b.
Proof. destruct a, b; simpl; split; congruence. Qed.

Lemma strict_equals_string a b :
  strict_equals (JString a) (JString b) = true <-> a = b.
Proof. simpl. apply String.eqb_eq. Qed.

(** In [src/main/javascript], two distinct instances are equal exactly when
    scheme and identity agree: the certificate objects are not compared. *)
Lemma Main_equals_iff (a b : Main.X509AuthenticationData) :
  Main.self a <> Main.self b ->
  Main.equals a (Main.Instance b) = true <->
  Main.scheme a = Main.scheme b /\ Main.identity a = Main.identity b.
Proof.
  intros Hne. unfold Main.equals, EntityAuthenticationData_equals.
  apply Nat.eqb_neq in Hne. rewrite Hne.
  rewrite andb_true_iff, scheme_eqb_eq, String.eqb_eq. tauto.
Qed.

(** In [core/src/main/javascript], two distinct instances that are equal
    hold the very same certificate object and the very same chain. *)
Lemma Core_equals_same_objects (a b : Core.X509AuthenticationData) :
  Core.self a <> Core.self b ->
  Core.equals a (Core.Instance b) = true ->
  Core.scheme a = Core.scheme b
  /\ strict_equals (Core.identity a) (Core.identity b) = true
  /\ cert_strict_equals (Core.x509cert a) (Core.x509cert b) = true
  /\ strict_equals (Core.x509chain a) (Core.x509chain b) = true.
Proof.
  intros Hne. unfold Core.equals, EntityAuthenticationData_equals.
  apply Nat.eqb_neq in Hne. rewrite Hne.
  rewrite !andb_true_iff, scheme_eqb_eq. tauto.
Qed.

(** C1 (code): in [core/src/main/javascript], two instances built from two
    certificate objects with different bytes and the same subject have the
    same scheme and the same identity, and [equals] answers false: the
    comparison [this.x509cert === that.x509cert] is by object reference. *)
Theorem C1_core_equals_same_subject_not_equal :
  let certA := {| x509_addr := 1; hex := "3082aa01" |} in
  let certB := {| x509_addr := 2; hex := "3082aa02" |} in
  let a := Core.init sample_library 3 Null (CertObject certA) Null in
  let b := Core.init sample_library 4 Null (CertObject certB) Null in
  Core.scheme a = Core.scheme b
  /\ Core.identity a = Core.identity b
  /\ Core.equals a (Core.Instance b) = false.
Proof. repeat split. Qed.

(** The same two certificates in [src/main/javascript]: equal. *)
Example Main_equals_same_subject :
  let certA := {| x509_addr := 1; hex := "3082aa01" |} in
  let certB := {| x509_addr := 2; hex := "3082aa02" |} in
  Main.equals (Main.init sample_library 3 certA)
    (Main.Instance (Main.init sample_library 4 certB)) = true.
Proof. reflexivity. Qed.

(** C5: an instance constructed with a certificate has the certificate's
    subject as identity, whatever identity argument comes with it; without
    a certificate ([null] or [undefined]) the identity argument is kept. *)
Theorem C5_identity_is_certificate_subject :
  forall (lib : CertLibrary) (identity chain : JsValue) (c : X509) (h : Addr),
    (exists d,
        Core.new_X509AuthenticationData lib identity (CertObject c) chain h
        = (Return d, S h)
        /\ Core.getIdentity d = JString (getSubjectString lib (hex c)))
    /\ (exists d,
           Core.new_X509AuthenticationData lib identity CertNull chain h
           = (Return d, S h)
           /\ Core.getIdentity d = identity)
    /\ (exists d,
           Core.new_X509AuthenticationData lib identity CertUndefined chain h
           = (Return d, S h)
           /\ Core.getIdentity d = identity).
Proof.
  intros. repeat split; eexists; (split; [reflexivity | reflexivity]).
Qed.

(** What [Core.parse] answers on the serialization of an instance that
    holds a certificate. *)
Lemma Core_parse_getAuthData_certificate lib (d : Core.X509AuthenticationData)
  (c : X509) (h h' : Addr) (d2 : Core.X509AuthenticationData) :
  Core.x509cert d = CertObject c ->
  Core.parse lib (Core.getAuthData lib d) h = (Return d2, h') ->
  exists hx,
    readCertPEM lib (JString (base64_of_hex lib (hex c))) = Return hx
    /\ d2 = Core.init lib (S (S h)) Null
              (CertObject {| x509_addr := S h; hex := hx |}) Null.
Proof.
  intros Hc. unfold Core.getAuthData. rewrite Hc.
  unfold Core.parse. cbn [set get KEY_X509_CERT KEY_X509_IDENTITY KEY_X509_CHAIN].
  cbn. destruct (base64_of_hex lib (hex c) =? "") eqn:E; cbn.
  - destruct (truthy (Core.identity d)); cbn; discriminate.
  - unfold bind, try_catch, Core.new_X509_readCertPEM, bind, new, ret, throw.
    destruct (readCertPEM lib (JString (base64_of_hex lib (hex c)))) as [hx|e] eqn:R;
      cbn; intros H; inversion H; subst.
    exists hx. split; reflexivity.
Qed.

(** C6 (code): in [core/src/main/javascript], the instance parsed from the
    serialization of an instance holding a certificate is never [equals] to
    it: [parse] allocates a new certificate object and [equals] compares
    the certificate objects by reference. *)
Theorem C6_core_roundtrip_not_equal :
  forall lib (d d2 : Core.X509AuthenticationData) (c : X509) (h h' : Addr),
    Core.x509cert d = CertObject c ->
    (Core.self d < h)%nat -> (x509_addr c < h)%nat ->
    Core.parse lib (Core.getAuthData lib d) h = (Return d2, h') ->
    Core.equals d (Core.Instance d2) = false.
Proof.
  intros lib d d2 c h h' Hc Hs Ha Hp.
  destruct (Core_parse_getAuthData_certificate lib d c h h' d2 Hc Hp) as [hx [_ ->]].
  unfold Core.equals. cbn.
  replace (Nat.eqb (Core.self d) (S (S h))) with false
    by (symmetry; apply Nat.eqb_neq; lia).
  rewrite Hc. cbn.
  replace (Nat.eqb (x509_addr c) (S h)) with false
    by (symmetry; apply Nat.eqb_neq; lia).
  rewrite andb_false_r. reflexivity.
Qed.

Lemma C6_core_roundtrip_not_equal_witness :
  let cert := {| x509_addr := 1; hex := "3082aa01" |} in
  let d := Core.init sample_library 2 Null (CertObject cert) Null in
  exists d2,
    Core.parse sample_library (Core.getAuthData sample_library d) 3
    = (Return d2, 6)
    /\ Core.identity d2 = Core.identity d
    /\ JSON_stringify (Core.getAuthData sample_library d2)
       = JSON_stringify (Core.getAuthData sample_library d)
    /\ Core.equals d (Core.Instance d2) = false.
Proof.
  eexists. split; [reflexivity|]. split; [reflexivity|]. split; [reflexivity|].
  apply (C6_core_roundtrip_not_equal sample_library _ _
           {| x509_addr := 1; hex := "3082aa01" |} 3 6);
    [reflexivity | simpl; lia | simpl; lia | reflexivity].
Defined.

(** What [Core.parse] does, by cases on the wire object. *)
Lemma Core_parse_cases lib jo h :
  let certB64 := get jo KEY_X509_CERT in
  let chain := get jo KEY_X509_CHAIN in
  fst (Core.parse lib jo h) =
  if truthy certB64 then
    match readCertPEM lib certB64 with
    | Return hx =>
        Return (Core.init lib (S (S h)) Null
                  (CertObject {| x509_addr := S h; hex := hx |}) Null)
    | Throw e => Throw (MslCryptoException X509CERT_PARSE_ERROR certB64 e)
    end
  else if truthy chain then
    Return (Core.init lib h (get jo KEY_X509_IDENTITY) CertNull chain)
  else
    Throw (MslEncodingException JSON_PARSE_ERROR "X.509 authdata"
             (JSON_stringify jo)).
Proof.
  cbv zeta. unfold Core.parse.
  destruct (truthy (get jo KEY_X509_CERT)).
  - unfold bind, try_catch, Core.new_X509_readCertPEM, bind, new, ret, throw,
      Core.new_X509AuthenticationData, bind, new, ret.
    destruct (readCertPEM lib (get jo KEY_X509_CERT)); reflexivity.
  - destruct (truthy (get jo KEY_X509_CHAIN)); reflexivity.
Qed.

Lemma Main_parse_cases lib jo h :
  let certB64 := get jo KEY_X509_CERT in
  fst (Main.parse lib jo h) =
  if typeof_string certB64 then
    match readCertPEM lib certB64 with
    | Return hx =>
        Return (Main.init lib (S (S h)) {| x509_addr := S h; hex := hx |})
    | Throw e => Throw (MslCryptoException X509CERT_PARSE_ERROR certB64 e)
    end
  else
    Throw (MslEncodingException JSON_PARSE_ERROR "X.509 authdata"
             (JSON_stringify jo)).
Proof.
  cbv zeta. unfold Main.parse.
  destruct (typeof_string (get jo KEY_X509_CERT)); cbn; [|reflexivity].
  unfold bind, try_catch, Main.new_X509_readCertPEM, bind, new, ret, throw,
    Main.new_X509AuthenticationData, bind, new, ret.
  destruct (readCertPEM lib (get jo KEY_X509_CERT)); reflexivity.
Qed.

(** C9 (amended): [parse] of [core/src/main/javascript] fails with the
    encoding error exactly when the wire object has neither a certificate
    nor a chain (each missing or falsy), whether or not it has an identity;
    it fails with the crypto error [X509CERT_PARSE_ERROR] exactly when there
    is a certificate and the library cannot decode it; it returns an
    instance otherwise.  [parse] of [src/main/javascript] fails with the
    encoding error exactly when [x509certificate] is not a string, and with
    the crypto error exactly when it is a string that does not decode. *)
Theorem C9_parse_outcomes :
  forall lib jo h,
    let certB64 := get jo KEY_X509_CERT in
    let chain := get jo KEY_X509_CHAIN in
    (is_encoding_error (fst (Core.parse lib jo h)) = true <->
     truthy certB64 = false /\ truthy chain = false)
    /\ (is_certificate_parse_error (fst (Core.parse lib jo h)) = true <->
        truthy certB64 = true /\ throws (readCertPEM lib certB64) = true)
    /\ (returns (fst (Core.parse lib jo h)) = true <->
        (truthy certB64 = true /\ returns (readCertPEM lib certB64) = true)
        \/ (truthy certB64 = false /\ truthy chain = true))
    /\ (is_encoding_error (fst (Main.parse lib jo h)) = true <->
        typeof_string certB64 = false)
    /\ (is_certificate_parse_error (fst (Main.parse lib jo h)) = true <->
        typeof_string certB64 = true /\ throws (readCertPEM lib certB64) = true)
    /\ (returns (fst (Main.parse lib jo h)) = true <->
        typeof_string certB64 = true /\ returns (readCertPEM lib certB64) = true).
Proof.
  intros lib jo h certB64 chain.
  rewrite (Core_parse_cases lib jo h), (Main_parse_cases lib jo h).
  cbv zeta. fold certB64 chain. unfold throws.
  destruct (truthy certB64), (truthy chain), (typeof_string certB64),
    (readCertPEM lib certB64); cbn; intuition congruence.
Qed.

Lemma C9_parse_outcomes_witness :
  is_encoding_error
    (fst (Core.parse sample_library [(KEY_X509_IDENTITY, JString "device")] 1))
  = true
  /\ is_certificate_parse_error
       (fst (Core.parse sample_library [(KEY_X509_CERT, JNumber five)] 1))
     = true
  /\ returns
       (fst (Core.parse sample_library [(KEY_X509_CERT, JString "3082aa01")] 1))
     = true
  /\ is_encoding_error
       (fst (Main.parse sample_library [(KEY_X509_CERT, JNumber five)] 1))
     = true.
Proof.
  pose proof (C9_parse_outcomes sample_library
                [(KEY_X509_IDENTITY, JString "device")] 1) as (E & _).
  pose proof (C9_parse_outcomes sample_library [(KEY_X509_CERT, JNumber five)] 1)
    as (_ & P & _ & M & _).
  pose proof (C9_parse_outcomes sample_library
                [(KEY_X509_CERT, JString "3082aa01")] 1) as (_ & _ & R & _).
  split; [|split; [|split]].
  - apply E. split; reflexivity.
  - apply P. split; reflexivity.
  - apply R. left. split; reflexivity.
  - apply M. reflexivity.
Defined.

(** C9 (as stated) fails: a wire object with a chain and no identity lacks
    a required field of the table, and [parse] returns an instance, whose
    identity is [undefined]. *)
Lemma C9_counterexample :
  let jo := [(KEY_X509_CHAIN, JArray 0 ["MIIB"])] in
  required_fields_present jo = false
  /\ is_encoding_error (fst (Core.parse sample_library jo 1)) = false
  /\ exists d,
      fst (Core.parse sample_library jo 1) = Return d
      /\ Core.getIdentity d = Undefined.
Proof.
  cbv zeta. split; [reflexivity|]. split; [reflexivity|].
  eexists. split; reflexivity.
Qed.

(** ** Message output stream *)

Module MOSTheorems.
Import MOS MOSProperties.
Local Open Scope Z_scope.
#[local] Arguments end_count _ : simpl never.


  (** *** Case analysis on a step *)

Ltac break_in H :=
    match type of H with
    | context [match (match ?x with _ => _ end) with _ => _ end] =>
        destruct x eqn:?
    | context [match ?x with _ => _ end] => destruct x eqn:?
    end.

  (** The cases of a step other than [abort()]. *)
Ltac unfold_step_in H :=
    unfold step, invoke, write, close, setCompressionAlgorithm,
      stopCaching, closeDestination, header_written, header_flushed,
      chunk_created, payload_written, payload_flushed, ready, flush, perform,
      flush_callback, suspend, done, silent, getMessageHeader in H.

Ltac step_cases H :=
    unfold_step_in H; cbn in H;
    repeat (break_in H; cbn in H; try discriminate H);
    inversion H; subst; clear H; cbn in *;
    repeat match goal with
      | E : ?f (stream ?w) = _ |- context [?f (stream ?w)] => rewrite E
      | E : isHandshake ?m = _ |- context [isHandshake ?m] => rewrite E
      end.

  (** The cases of a step when at most one operation is in flight:
      [E] says which. *)
Ltac turn_cases H E :=
    unfold step, invoke, write, close, setCompressionAlgorithm, abort,
      stopCaching, closeDestination, header_written, header_flushed,
      chunk_created, payload_written, payload_flushed, ready, flush, perform,
      flush_callback, suspend, done, silent, getMessageHeader in H;
    cbn in H; rewrite ?E in H; cbn in H;
    repeat (unfold flush_callback, suspend, done, silent in H;
            break_in H; cbn in H; try discriminate H);
    inversion H; subst; clear H; cbn in *;
    repeat match goal with
      | E : pending ?w = _ |- context [pending ?w] => rewrite E
      | E : ?f (stream ?w) = _ |- context [?f (stream ?w)] => rewrite E
      | E : isHandshake ?m = _ |- context [isHandshake ?m] => rewrite E
      end.

  (** *** The operations in flight *)

Lemma pick_Forall {A} (Q : A -> Prop) : forall i l x others,
    pick i l = Some (x, others) -> Forall Q l -> Q x /\ Forall Q others.
Proof.
  intros i l. revert i. induction l as [|y l IH]; intros i x others H HF.
  - discriminate.
  - inversion HF; subst. destruct i as [|j]; cbn in H.
    + inversion H; subst. split; assumption.
    + destruct (pick j l) as [[z r]|] eqn:E; [|discriminate].
      inversion H; subst. destruct (IH _ _ _ E H3) as [Hz Hr].
      split; [assumption|constructor; assumption].
Qed.

Lemma pick_last {A} (l : list A) x : pick (List.length l) (l ++ [x]) = Some (x, l).
Proof.
  induction l as [|y l IH]; [reflexivity|]. cbn. rewrite IH. reflexivity.
Qed.

Lemma take_waiter_Forall (Q : Stage * Continuation -> Prop) : forall p k others,
    take_waiter p = Some (k, others) -> Forall Q p ->
    Q (AwaitReady, k) /\ Forall Q others.
Proof.
  induction p as [|[st k0] p IH]; intros k others H HF; [discriminate|].
  inversion HF; subst.
  destruct st; cbn in H;
    try (destruct (take_waiter p) as [[k1 r]|] eqn:E; [|discriminate];
         inversion H; subst; destruct (IH _ _ eq_refl H3) as [Hz Hr];
         split; [assumption|constructor; assumption]).
  inversion H; subst. split; assumption.
Qed.

Lemma not_waiting_Forall (Q : Stage * Continuation -> Prop) : forall p,
    Forall Q p -> Forall Q (not_waiting p).
Proof.
  induction p as [|[st k0] p IH]; intros HF; [constructor|].
  inversion HF; subst. destruct st; cbn; auto.
Qed.

  (** What is known of every operation in flight is known of the one a
      completion is for and of the others. *)
Ltac pending_facts :=
    repeat match goal with
      | E : pick _ (pending ?w) = Some _, H : Forall _ (pending ?w) |- _ =>
          let H1 := fresh "Hthis" in
          let H2 := fresh "Hothers" in
          destruct (pick_Forall _ _ _ _ _ E H) as [H1 H2]; clear E;
          cbn in H1
      | E : take_waiter (pending ?w) = Some _, H : Forall _ (pending ?w) |- _ =>
          let H1 := fresh "Hthis" in
          let H2 := fresh "Hothers" in
          destruct (take_waiter_Forall _ _ _ _ E H) as [H1 H2]; clear E;
          cbn in H1
      end.

  (** The operations in flight after a step: the others and, when the
      operation goes on, its next wait. *)
Ltac pending_goal :=
    try (apply Forall_app; split; [|constructor; [cbn|constructor]]);
    try assumption.

  (** *** Invariants *)

  (** An invariant of the steps holds along a run. *)
Lemma run_invariant (P : World -> Prop) :
    (forall w ev w' os, step w ev = Some (w', os) -> P w -> P w') ->
    forall evs w w' os, run w evs = Some (w', os) -> P w -> P w'.
Proof.
  intros Hstep. induction evs as [|ev evs IH]; cbn; intros w w' os H Hw.
  - inversion H; subst; assumption.
  - destruct (step w ev) as [[w1 o]|] eqn:E; [|discriminate].
    destruct (run w1 evs) as [[w2 os2]|] eqn:E2; [|discriminate].
    inversion H; subst. eapply IH; eauto.
Qed.

  (** The same for an invariant of the steps whose events satisfy a
      guard. *)
Lemma run_invariant_guarded (guard : World -> Event -> bool) (P : World -> Prop) :
    (forall w ev w' os,
        guard w ev = true -> step w ev = Some (w', os) -> P w -> P w') ->
    forall evs w w' os,
      guarded guard w evs = true -> run w evs = Some (w', os) -> P w -> P w'.
Proof.
  intros Hstep. induction evs as [|ev evs IH]; cbn; intros w w' os Hg H Hw.
  - inversion H; subst; assumption.
  - apply andb_true_iff in Hg. destruct Hg as [Hev Hg].
    destruct (step w ev) as [[w1 o]|] eqn:E; [|discriminate].
    destruct (run w1 evs) as [[w2 os2]|] eqn:E2; [|discriminate].
    inversion H; subst. eapply IH; eauto.
Qed.

  (** A guard on the events alone. *)
Lemma guarded_forallb (sel : Event -> bool) : forall evs w w' os,
    run w evs = Some (w', os) ->
    forallb sel evs = true -> guarded (fun _ => sel) w evs = true.
Proof.
  induction evs as [|ev evs IH]; cbn; intros w w' os H Hs; [reflexivity|].
  apply andb_true_iff in Hs. destruct Hs as [Hev Hs]. rewrite Hev. cbn.
  destruct (step w ev) as [[w1 o]|] eqn:E; [|reflexivity].
  destruct (run w1 evs) as [[w2 os2]|] eqn:E2; [|discriminate].
  eapply IH; eauto.
Qed.

Lemma guarded_and (g1 g2 : World -> Event -> bool) : forall evs w,
    guarded g1 w evs = true -> guarded g2 w evs = true ->
    guarded (fun w ev => g1 w ev && g2 w ev) w evs = true.
Proof.
  induction evs as [|ev evs IH]; cbn; intros w H1 H2; [reflexivity|].
  apply andb_true_iff in H1, H2. destruct H1 as [Ha H1], H2 as [Hb H2].
  rewrite Ha, Hb. cbn.
  destruct (step w ev) as [[w1 o]|]; [|reflexivity]. apply IH; assumption.
Qed.

Lemma run_invariant_on (sel : Event -> bool) (P : World -> Prop) :
    (forall w ev w' os, sel ev = true -> step w ev = Some (w', os) -> P w -> P w') ->
    forall evs w w' os,
      forallb sel evs = true -> run w evs = Some (w', os) -> P w -> P w'.
Proof.
  intros Hstep evs w w' os Hsel Hrun.
  apply (run_invariant_guarded (fun _ => sel) P Hstep evs w w' os);
    [eapply guarded_forallb; eassumption | assumption].
Qed.

  (** [cancelAll()] keeps what the callbacks of the waiters keep. *)
Lemma cancelAll_invariant (P : World -> Prop) :
    (forall k w, P w -> P (fst (flush_callback k (Result (RBool false)) w))) ->
    forall ks w, P w -> P (fst (cancelAll ks w)).
Proof.
  intros Hk. induction ks as [|k ks IH]; intros w Hw; [exact Hw|].
  cbn. specialize (Hk k w Hw).
  destruct (flush_callback k (Result (RBool false)) w) as [w1 os1]. cbn in Hk.
  specialize (IH w1 Hk). destruct (cancelAll ks w1) as [w2 os2]. exact IH.
Qed.

  (** An invariant of the steps whose events satisfy a guard: it is kept
      by every such event but [abort()], by the first half of [abort()],
      which sets the flag, aborts the destination and takes the waiters
      out, and by the callback of each waiter. *)
Lemma step_invariant_guarded (guard : World -> Event -> bool) (P : World -> Prop) :
    (forall w ev w' os,
        ev <> Invoke Abort -> guard w ev = true ->
        step w ev = Some (w', os) -> P w -> P w') ->
    (forall w, P w ->
       P (set_pending (not_waiting (pending w))
            (call_destination DAbort (update (set_aborted true) w)))) ->
    (forall k w, P w -> P (fst (flush_callback k (Result (RBool false)) w))) ->
    forall w ev w' os,
      guard w ev = true -> step w ev = Some (w', os) -> P w -> P w'.
Proof.
  intros H1 H2 H3 w ev w' os Hg H Hw.
  assert (D : ev = Invoke Abort \/ ev <> Invoke Abort).
  { destruct ev as [[]| | | | | | | |]; try (right; discriminate).
    left; reflexivity. }
  destruct D as [->|D]; [|eapply H1; eassumption].
  cbn in H. unfold abort in H. cbn in H.
  inversion H as [H0].
  change w' with (fst (w', os)). rewrite <- H0.
  apply cancelAll_invariant; [assumption|]. apply H2. assumption.
Qed.

Lemma step_invariant (P : World -> Prop) :
    (forall w ev w' os,
        ev <> Invoke Abort -> step w ev = Some (w', os) -> P w -> P w') ->
    (forall w, P w ->
       P (set_pending (not_waiting (pending w))
            (call_destination DAbort (update (set_aborted true) w)))) ->
    (forall k w, P w -> P (fst (flush_callback k (Result (RBool false)) w))) ->
    forall w ev w' os, step w ev = Some (w', os) -> P w -> P w'.
Proof.
  intros H1 H2 H3 w ev w' os.
  apply (step_invariant_guarded (fun _ _ => true) P); auto.
  intros; eapply H1; eassumption.
Qed.

  (** Splits off the case of [abort()]. *)
Ltac not_abort ev Hev :=
    destruct ev as [[]| | | | | | | |]; try congruence; clear Hev.

  (** *** Lists of emitted chunks *)

Lemma emitted_app l1 l2 : emitted (l1 ++ l2) = emitted l1 ++ emitted l2.
Proof.
  induction l1 as [|c l1 IH]; cbn; [reflexivity|].
  destruct c as [[h|c]| | |]; cbn; rewrite IH; reflexivity.
Qed.

Lemma last_cons {A} (l : list A) : forall y d, last (y :: l) d = last l y.
Proof.
  induction l as [|z l IH]; intros y d; [reflexivity|].
  change (last (y :: z :: l) d) with (last (z :: l) d).
  rewrite (IH z d), (IH z y). reflexivity.
Qed.

Lemma gap_free_snoc l : forall p x,
    gap_free p (l ++ [x]) <->
    gap_free p l /\ (x = last l p \/ x = last l p + 1).
Proof.
  induction l as [|y l IH]; intros p x.
  - cbn. tauto.
  - change ((y :: l) ++ [x]) with (y :: (l ++ [x])).
    cbn [gap_free]. rewrite IH, (last_cons l y p). tauto.
Qed.

Lemma counts_from_one_snoc l x :
    counts_from_one l -> (x = last l 0 \/ x = last l 0 + 1) -> 1 <= x ->
    counts_from_one (l ++ [x]).
Proof.
  destruct l as [|y l].
  - cbn. intros _ H Hx. split; [lia|exact I].
  - change ((y :: l) ++ [x]) with (y :: (l ++ [x])). cbn [counts_from_one].
    intros [Hy Hg] H _. split; [assumption|].
    apply gap_free_snoc. split; [assumption|].
    rewrite <- (last_cons l y 0). assumption.
Qed.

Lemma last_snoc {A} (l : list A) x d : last (l ++ [x]) d = x.
Proof. apply last_last. Qed.

Lemma one_to_snoc n : one_to (S n) = one_to n ++ [Z.of_nat (S n)].
Proof. unfold one_to. rewrite seq_S, map_app. reflexivity. Qed.

Lemma one_to_counts n : counts_from_one (one_to n).
Proof.
  induction n as [|n IH]; [exact I|].
  rewrite one_to_snoc. apply counts_from_one_snoc; [assumption| |lia].
  right. destruct n as [|n]; [reflexivity|].
  rewrite one_to_snoc, last_snoc. lia.
Qed.

Ltac list_norm :=
    unfold sequence_numbers, end_flags in *; cbn in *;
    repeat (rewrite ?emitted_app, ?map_app, ?app_nil_r, ?last_snoc in *; cbn in * ).

  (** *** Caching *)

Lemma step_cache_off w ev w' os :
    step w ev = Some (w', os) -> cache_off w -> cache_off w'.
Proof.
  apply (step_invariant cache_off); clear.
  - intros w ev w' os Hev H [Hc Hp]. unfold cache_off.
    not_abort ev Hev; step_cases H; try (split; congruence).
  - intros w H. exact H.
  - intros k w [Hc Hp]. unfold cache_off, flush_callback.
    destruct k; cbn; try (split; assumption).
    destruct (_closeDestination (stream w)); cbn; split; assumption.
Qed.

Lemma step_cache_on w ev w' os :
    step w ev = Some (w', os) -> cache_on w -> cache_on w'.
Proof.
  apply (step_invariant cache_on); clear.
  - intros w ev w' os Hev H Hc. unfold cache_on in *.
    not_abort ev Hev; step_cases H; rewrite ?emitted_app; cbn;
      rewrite ?app_nil_r;
      intros; try congruence; try (rewrite Hc by congruence; reflexivity);
      try (apply Hc; congruence).
  - intros w H. unfold cache_on in *. cbn. rewrite emitted_app. cbn.
    rewrite app_nil_r. exact H.
  - intros k w Hc. unfold cache_on, flush_callback in *.
    destruct k; cbn; try assumption.
    destruct (_closeDestination (stream w)); cbn; rewrite ?emitted_app; cbn;
      rewrite ?app_nil_r; assumption.
Qed.

Lemma step_caching w ev w' os :
    not_stopCaching ev = true ->
    step w ev = Some (w', os) ->
    _caching (stream w) = true -> _caching (stream w') = true.
Proof.
  apply (step_invariant_guarded (fun _ => not_stopCaching)
           (fun w => _caching (stream w) = true)); clear.
  - intros w ev w' os Hev Hsel H Hc.
    not_abort ev Hev; step_cases H; try discriminate; congruence.
  - intros w H. exact H.
  - intros k w Hc. unfold flush_callback.
    destruct k; cbn; try assumption.
    destruct (_closeDestination (stream w)); cbn; assumption.
Qed.

  (** C10: caching is on when the stream is constructed and stays on until
      [stopCaching()] is called; while it is on, a chunk is put into the
      cache when it is handed to the destination, so that [getPayloads()]
      is the list of the chunks handed over.  [stopCaching()] empties the
      list at once, and it stays empty whatever happens afterwards: no
      chunk handed over later is put into it. *)
Theorem C10_stop_caching :
    (forall pref caps header len,
        _caching (stream (init pref caps header len)) = true
        /\ forall evs w os,
            run (init pref caps header len) evs = Some (w, os) ->
            (forallb not_stopCaching evs = true -> _caching (stream w) = true)
            /\ (_caching (stream w) = true ->
                getPayloads (stream w) = emitted (destination w)))
    /\ (forall w i c k others,
           pick i (pending w) = Some ((AwaitChunk c, k), others) ->
           exists w',
             step w (ChunkCreateDone i CreateResult) = Some (w', [])
             /\ emitted (destination w') = emitted (destination w) ++ [c]
             /\ _caching (stream w') = _caching (stream w)
             /\ getPayloads (stream w')
                = if _caching (stream w)
                  then getPayloads (stream w) ++ [c]
                  else getPayloads (stream w))
    /\ (forall w,
           exists w1,
             step w (Invoke StopCaching) = Some (w1, [])
             /\ _caching (stream w1) = false
             /\ getPayloads (stream w1) = []
             /\ forall evs w2 os,
                 run w1 evs = Some (w2, os) ->
                 _caching (stream w2) = false /\ getPayloads (stream w2) = []).
Proof.
  split; [|split].
  - intros pref caps header len. split; [reflexivity|].
    intros evs w os Hrun. split.
    + intros Hsel.
      apply (run_invariant_on not_stopCaching
               (fun w => _caching (stream w) = true)
               (fun w ev w' os Hs => step_caching w ev w' os Hs)
               _ _ _ _ Hsel Hrun).
      reflexivity.
    + apply (run_invariant cache_on step_cache_on _ _ _ _ Hrun).
      intros _. reflexivity.
  - intros w i c k others Hp. unfold step. rewrite Hp.
    unfold chunk_created, suspend, silent. cbn.
    destruct (_caching (stream w)) eqn:Ec; cbn;
      (eexists; split; [reflexivity|]); cbn;
      rewrite emitted_app; cbn; repeat split; exact Ec.
  - intros w. eexists. split; [reflexivity|]. split; [reflexivity|].
    split; [reflexivity|].
    intros evs w2 os Hrun.
    apply (run_invariant cache_off step_cache_off _ _ _ _ Hrun).
    split; reflexivity.
Qed.

Lemma C10_stop_caching_witness :
    (exists w os,
        run sample_stream
          (header_sent ++ Invoke (Write two_bytes 0 2)
             :: Invoke Flush :: chunk_sent) = Some (w, os)
        /\ map data (getPayloads (stream w)) = [two_bytes])
    /\ (exists w1 w2 os,
           step sample_buffering (Invoke StopCaching) = Some (w1, [])
           /\ run w1 (Invoke Flush :: chunk_sent) = Some (w2, os)
           /\ List.length (emitted (destination w2)) = 1%nat
           /\ getPayloads (stream w2) = []).
Proof.
  destruct C10_stop_caching as (Hon & _ & Hoff). split.
  - destruct (Hon first_algorithm sample_capabilities sample_header 10)
      as [_ Hall].
    specialize (Hall (header_sent ++ Invoke (Write two_bytes 0 2)
                        :: Invoke Flush :: chunk_sent)).
    match type of Hall with
    | forall w os, ?r = _ -> _ =>
        let v := eval vm_compute in r in
        match v with
        | Some (?w, ?os) => exists w, os; specialize (Hall w os)
        end
    end.
    split; [vm_compute; reflexivity|].
    destruct (Hall ltac:(vm_compute; reflexivity)) as [Hc Hp].
    rewrite (Hp (Hc eq_refl)). vm_compute. reflexivity.
  - destruct (Hoff sample_buffering) as (w1 & Hs & _ & _ & Hall).
    exists w1.
    vm_compute in Hs. injection Hs as <-.
    specialize (Hall (Invoke Flush :: chunk_sent)).
    match type of Hall with
    | forall w os, ?r = _ -> _ =>
        let v := eval vm_compute in r in
        match v with
        | Some (?w, ?os) =>
            exists w, os; specialize (Hall w os)
        end
    end.
    split; [vm_compute; reflexivity|].
    split; [vm_compute; reflexivity|].
    split; [reflexivity|].
    apply Hall. vm_compute. reflexivity.
Defined.

Ltac unfold_step :=
    unfold step, invoke, write, close, setCompressionAlgorithm,
      stopCaching, closeDestination, header_written, header_flushed,
      chunk_created, payload_written, payload_flushed, ready, flush, perform,
      flush_callback, suspend, done, silent, getMessageHeader.

Ltac by_fields :=
    unfold_step; cbn;
    repeat match goal with
      | E : pick ?i (pending ?w) = _ |- context [pick ?i (pending ?w)] =>
          rewrite E; cbn
      | E : pending ?w = _ |- context [pending ?w] => rewrite E; cbn
      | E : header_io ?w = _ |- context [header_io ?w] => rewrite E; cbn
      | E : ?f (stream ?w) = _ |- context [?f (stream ?w)] => rewrite E; cbn
      | E : isHandshake ?m = _ |- context [isHandshake ?m] => rewrite E; cbn
      end;
    try reflexivity.

  (** *** Write *)

  (** What [write] answers, test by test. *)
Lemma write_refusals w data off len :
    (_aborted (stream w) = true ->
     write data off len w = (w, [Result (RBool false)]))
    /\ (_aborted (stream w) = false -> _timedout (stream w) = true ->
        write data off len w = (w, [Timeout]))
    /\ (forall e,
           _aborted (stream w) = false -> _timedout (stream w) = false ->
           _errored (stream w) = Some e ->
           write data off len w = (w, [Error e]))
    /\ (healthy (stream w) -> _closed (stream w) = true ->
        write data off len w
        = (w, [Error (MslIoException
                        (Text "Message output stream already closed."))]))
    /\ (healthy (stream w) -> _closed (stream w) = false ->
        (off < 0 ->
         write data off len w
         = (w, [Error (RangeError "Offset cannot be negative.")]))
        /\ (0 <= off -> len < 0 ->
            write data off len w
            = (w, [Error (RangeError "Length cannot be negative.")]))
        /\ (0 <= off -> 0 <= len -> off + len > Z.of_nat (List.length data) ->
            write data off len w
            = (w, [Error (RangeError
                 "Offset plus length cannot be greater than the array length.")]))
        /\ (0 <= off -> 0 <= len -> off + len <= Z.of_nat (List.length data) ->
            (getMessageHeader (stream w) = None ->
             write data off len w
             = (w, [Error (MslInternalException
                             "Cannot write payload data for an error message.")]))
            /\ (forall h,
                   getMessageHeader (stream w) = Some h ->
                   isHandshake h = true ->
                   write data off len w
                   = (w, [Error (MslInternalException
                       "Cannot write payload data for a handshake message.")])))).
Proof.
  unfold healthy, getMessageHeader.
  split; [|split; [|split; [|split; [|split; [|split; [|split]]]]]].
  - intros Ha. unfold write, done. rewrite Ha. reflexivity.
  - intros Ha Ht. unfold write, done. rewrite Ha, Ht. reflexivity.
  - intros e Ha Ht He. unfold write, done. rewrite Ha, Ht, He. reflexivity.
  - intros (Ha & Ht & He) Hc. unfold write, done.
    rewrite Ha, Ht, He, Hc. reflexivity.
  - intros Ho. destruct H as (Ha & Ht & He). unfold write, done.
    rewrite Ha, Ht, He, H0.
    apply Z.ltb_lt in Ho. rewrite Ho. reflexivity.
  - intros Ho Hl. destruct H as (Ha & Ht & He). unfold write, done.
    rewrite Ha, Ht, He, H0.
    apply Z.ltb_ge in Ho. apply Z.ltb_lt in Hl. rewrite Ho, Hl. reflexivity.
  - intros Ho Hl Hs. destruct H as (Ha & Ht & He). unfold write, done.
    rewrite Ha, Ht, He, H0.
    assert (Hgt : (off + len >? Z.of_nat (List.length data)) = true)
      by (apply Z.gtb_lt; lia).
    apply Z.ltb_ge in Ho, Hl.
    rewrite Ho, Hl, Hgt. reflexivity.
  - intros Ho Hl Hs. destruct H as (Ha & Ht & He).
    assert (Hgt : (off + len >? Z.of_nat (List.length data)) = false)
      by (rewrite Z.gtb_ltb; apply Z.ltb_ge; lia).
    apply Z.ltb_ge in Ho, Hl.
    split.
    + intros Hh. unfold write, done, getMessageHeader.
      rewrite Ha, Ht, He, H0, Ho, Hl, Hgt.
      destruct (_header (stream w)); [discriminate|reflexivity].
    + intros h Hh Hhs. unfold write, done, getMessageHeader.
      rewrite Ha, Ht, He, H0, Ho, Hl, Hgt.
      destruct (_header (stream w)); [|discriminate].
      injection Hh as ->. rewrite Hhs. reflexivity.
Qed.

  (** C2 (amended): [write] tests, in this order, the aborted flag
      (answer [false]), the timed-out flag (timeout), the recorded error
      (that error), the closed flag (exception ["Message output stream
      already closed."]), the slice (a [RangeError]) and only then the
      header (an internal exception on an error header and on a handshake
      header).  So a closed stream with none of the three flags set
      refuses with the exception, an open one with an error or a handshake
      header, no flag set and the slice within the array refuses with an
      internal exception, and in no case does a closed stream or a stream
      with such a header accept bytes: the world is unchanged and the
      callback is not told a number of bytes. *)
Theorem C2_write_refused :
    forall w data off len,
      (_aborted (stream w) = true ->
       step w (Invoke (Write data off len)) = Some (w, [Result (RBool false)]))
      /\ (_aborted (stream w) = false -> _timedout (stream w) = true ->
          step w (Invoke (Write data off len)) = Some (w, [Timeout]))
      /\ (forall e,
             _aborted (stream w) = false -> _timedout (stream w) = false ->
             _errored (stream w) = Some e ->
             step w (Invoke (Write data off len)) = Some (w, [Error e]))
      /\ (healthy (stream w) -> _closed (stream w) = true ->
          step w (Invoke (Write data off len))
          = Some (w, [Error (MslIoException
                               (Text "Message output stream already closed."))]))
      /\ (healthy (stream w) -> _closed (stream w) = false ->
          (off < 0 ->
           step w (Invoke (Write data off len))
           = Some (w, [Error (RangeError "Offset cannot be negative.")]))
          /\ (0 <= off -> len < 0 ->
              step w (Invoke (Write data off len))
              = Some (w, [Error (RangeError "Length cannot be negative.")]))
          /\ (0 <= off -> 0 <= len ->
              off + len > Z.of_nat (List.length data) ->
              step w (Invoke (Write data off len))
              = Some (w, [Error (RangeError
                   "Offset plus length cannot be greater than the array length.")]))
          /\ (0 <= off -> 0 <= len ->
              off + len <= Z.of_nat (List.length data) ->
              (getMessageHeader (stream w) = None ->
               step w (Invoke (Write data off len))
               = Some (w, [Error (MslInternalException
                             "Cannot write payload data for an error message.")]))
              /\ (forall h,
                     getMessageHeader (stream w) = Some h ->
                     isHandshake h = true ->
                     step w (Invoke (Write data off len))
                     = Some (w, [Error (MslInternalException
                         "Cannot write payload data for a handshake message.")]))))
      /\ (_closed (stream w) = true \/ data_bearing (stream w) = false ->
          exists o,
            step w (Invoke (Write data off len)) = Some (w, [o])
            /\ forall n, o <> Result (RNumber n)).
Proof.
  intros w data off len.
  destruct (write_refusals w data off len) as (H1 & H2 & H3 & H4 & H5).
  unfold step, invoke.
  split; [intros; f_equal; auto|].
  split; [intros; f_equal; auto|].
  split; [intros; f_equal; eauto|].
  split; [intros; f_equal; auto|].
  split.
  - intros Hy Hc. destruct (H5 Hy Hc) as (R1 & R2 & R3 & R4).
    split; [intros; f_equal; auto|].
    split; [intros; f_equal; auto|].
    split; [intros; f_equal; auto|].
    intros Ho Hl Hs. destruct (R4 Ho Hl Hs) as [E1 E2].
    split; [intros; f_equal; auto|].
    intros; f_equal; eauto.
  - clear. intros H. unfold write, done, data_bearing, getMessageHeader in *.
    destruct (_aborted (stream w));
      [eexists; split; [reflexivity|discriminate]|].
    destruct (_timedout (stream w));
      [eexists; split; [reflexivity|discriminate]|].
    destruct (_errored (stream w));
      [eexists; split; [reflexivity|discriminate]|].
    destruct (_closed (stream w)) eqn:Hc;
      [eexists; split; [reflexivity|discriminate]|].
    destruct (off <? 0);
      [eexists; split; [reflexivity|discriminate]|].
    destruct (len <? 0);
      [eexists; split; [reflexivity|discriminate]|].
    destruct (off + len >? Z.of_nat (List.length data));
      [eexists; split; [reflexivity|discriminate]|].
    destruct H as [H|H]; [discriminate|].
    destruct (_header (stream w)) as [h|e];
      [|eexists; split; [reflexivity|discriminate]].
    apply negb_false_iff in H. rewrite H.
    eexists; split; [reflexivity|discriminate].
Qed.

Lemma C2_write_refused_witness :
    step sample_closed (Invoke (Write two_bytes 0 2))
    = Some (sample_closed,
            [Error (MslIoException
                      (Text "Message output stream already closed."))])
    /\ step (after sample_error_stream header_sent)
         (Invoke (Write two_bytes 0 2))
       = Some (after sample_error_stream header_sent,
               [Error (MslInternalException
                         "Cannot write payload data for an error message.")])
    /\ step (after sample_error_stream header_sent)
         (Invoke (Write two_bytes 1 2))
       = Some (after sample_error_stream header_sent,
               [Error (RangeError
                  "Offset plus length cannot be greater than the array length.")])
    /\ step sample_aborted (Invoke (Write two_bytes 0 2))
       = Some (sample_aborted, [Result (RBool false)])
    /\ (exists o,
           step sample_closed (Invoke (Write two_bytes 0 2))
           = Some (sample_closed, [o])
           /\ forall n, o <> Result (RNumber n)).
Proof.
  split; [|split; [|split; [|split]]].
  - apply (C2_write_refused sample_closed two_bytes 0 2);
      [repeat split | reflexivity].
  - apply (C2_write_refused (after sample_error_stream header_sent)
             two_bytes 0 2);
      [repeat split | reflexivity | lia | lia | simpl; lia | reflexivity].
  - apply (C2_write_refused (after sample_error_stream header_sent)
             two_bytes 1 2);
      [repeat split | reflexivity | lia | lia | simpl; lia].
  - apply (C2_write_refused sample_aborted two_bytes 0 2). reflexivity.
  - apply (C2_write_refused sample_closed two_bytes 0 2).
    left. reflexivity.
Defined.

  (** C2 (as stated) fails: [write] on a stream that was closed and then
      aborted does not fail; it reports [false]. *)
Lemma C2_counterexample :
    _closed (stream (after sample_closed [Invoke Abort])) = true
    /\ step (after sample_closed [Invoke Abort]) (Invoke (Write two_bytes 0 2))
       = Some (after sample_closed [Invoke Abort], [Result (RBool false)]).
Proof. vm_compute. repeat split. Qed.


  (** *** Sequence numbers *)

Lemma Forall_le_counter (n : Z) (l : list Z) :
    Forall (fun x => 1 <= x <= n) l -> Forall (fun x => 1 <= x <= n + 1) l.
Proof. apply Forall_impl. intros; lia. Qed.

Lemma Forall_pending_le_counter (n : Z) (p : list (Stage * Continuation)) :
    Forall (fun e => match fst e with
                     | AwaitChunk c | AwaitPayloadWrite c
                     | AwaitPayloadFlush c => 1 <= sequenceNumber c <= n
                     | _ => True
                     end) p ->
    Forall (fun e => match fst e with
                     | AwaitChunk c | AwaitPayloadWrite c
                     | AwaitPayloadFlush c => 1 <= sequenceNumber c <= n + 1
                     | _ => True
                     end) p.
Proof. apply Forall_impl. intros [[] k]; cbn; intros; try exact I; lia. Qed.

Lemma step_numbers_in_range w ev w' os :
    step w ev = Some (w', os) -> numbers_in_range w -> numbers_in_range w'.
Proof.
  apply (step_invariant numbers_in_range); clear.
  - intros w ev w' os Hev H (Hn & Hs & Hp). unfold numbers_in_range.
    not_abort ev Hev; step_cases H; pending_facts; list_norm;
      repeat split; try assumption; try lia;
      try (apply Forall_le_counter; assumption);
      try (apply Forall_pending_le_counter; assumption);
      try (apply Forall_app; split; [assumption|]; constructor;
           [lia|constructor]);
      try (apply Forall_app; split; [assumption|]; constructor;
           [cbn; lia|constructor]);
      try (apply Forall_app; split;
           [apply Forall_pending_le_counter; assumption|]; constructor;
           [cbn; lia|constructor]).
  - intros w (Hn & Hs & Hp). unfold numbers_in_range. list_norm.
    repeat split; try assumption. apply not_waiting_Forall. assumption.
  - intros k w (Hn & Hs & Hp). unfold numbers_in_range, flush_callback.
    destruct k; cbn; try (repeat split; assumption).
    destruct (_closeDestination (stream w)); list_norm;
      repeat split; try assumption.
    apply Forall_app; split; [assumption|]. constructor; [exact I|constructor].
Qed.

Lemma step_numbering w ev w' os :
    in_turn w ev = true ->
    step w ev = Some (w', os) -> numbering w -> numbering w'.
Proof.
  unfold numbering. intros Hg H (Hc & Hn & Hp).
  destruct (pending w) as [|[st k] [|? ?]] eqn:Ep;
    [| |destruct st; contradiction];
    unfold in_turn in Hg; rewrite Ep in Hg;
    turn_cases H Ep; try discriminate Hg; list_norm;
      repeat match goal with H : _ /\ _ |- _ => destruct H end;
      try assumption;
      repeat split; try assumption; try lia;
      try (apply counts_from_one_snoc; [assumption|lia|lia]).
Qed.

Lemma one_to_extend l x :
    l = one_to (List.length l) -> x = Z.of_nat (List.length l) + 1 ->
    l ++ [x] = one_to (List.length (l ++ [x])).
Proof.
  intros Hl Hx. rewrite length_app. cbn [List.length].
  replace (List.length l + 1)%nat with (S (List.length l)) by lia.
  rewrite one_to_snoc, <- Hl. f_equal. f_equal. lia.
Qed.

Lemma step_numbering_acknowledged w ev w' os :
    in_turn w ev && acknowledged ev = true ->
    step w ev = Some (w', os) ->
    numbering_acknowledged w -> numbering_acknowledged w'.
Proof.
  unfold numbering_acknowledged. intros Hg H (Hc & Hp).
  apply andb_true_iff in Hg. destruct Hg as [Hg Hack].
  destruct (pending w) as [|[st k] [|? ?]] eqn:Ep;
    [| |destruct st; contradiction];
    unfold in_turn in Hg; rewrite Ep in Hg;
    turn_cases H Ep; try discriminate Hg; try discriminate Hack;
      try (subst; cbn in *; congruence); list_norm;
      repeat match goal with H : _ /\ _ |- _ => destruct H end;
      try (split; assumption);
      repeat split; try assumption; try lia;
      try (apply one_to_extend; [assumption|lia]);
      try (rewrite length_app in *; cbn in *; lia).
Qed.

Lemma init_numbering pref caps header len :
    numbers_in_range (init pref caps header len)
    /\ numbering (init pref caps header len)
    /\ numbering_acknowledged (init pref caps header len).
Proof.
  unfold numbers_in_range, numbering, numbering_acknowledged. cbn.
  repeat split; try lia; try reflexivity; try constructor; left; reflexivity.
Qed.


  (** *** The steps of a flush *)

Lemma run_app : forall evs1 evs2 w,
    run w (evs1 ++ evs2)
    = match run w evs1 with
      | Some (w1, os1) =>
          match run w1 evs2 with
          | Some (w2, os2) => Some (w2, os1 ++ os2)
          | None => None
          end
      | None => None
      end.
Proof.
  induction evs1 as [|ev evs1 IH]; intros evs2 w.
  - cbn. destruct (run w evs2) as [[w2 os2]|]; reflexivity.
  - cbn. destruct (step w ev) as [[w1 os1]|]; [|reflexivity].
    rewrite IH. destruct (run w1 evs1) as [[w2 os2]|]; [|reflexivity].
    destruct (run w2 evs2) as [[w3 os3]|]; [|reflexivity].
    rewrite app_assoc. reflexivity.
Qed.

  (** [perform()] with something to send asks for a chunk. *)
Lemma perform_starts k w h segments :
    healthy (stream w) ->
    _header (stream w) = Message h -> isHandshake h = false ->
    _currentPayload (stream w) = Some segments ->
    (_closed (stream w) = true \/ segments <> []) ->
    perform k w
    = (set_pending
         (pending w ++
          [(AwaitChunk
              {| sequenceNumber := _payloadSequenceNumber (stream w);
                 chunk_messageId := messageId h;
                 endofmsg := _closed (stream w);
                 compressionAlgo := _compressionAlgo (stream w);
                 data := List.concat segments |}, k)]) w,
       []).
Proof.
  intros (Ha & Ht & He) Hh Hhs Hb Hsome.
  assert (Hgo : negb (_closed (stream w))
                && (Z.of_nat (List.length segments) =? 0) = false).
  { destruct Hsome as [Hc | Hs]; [rewrite Hc; reflexivity|].
    destruct segments; [congruence|]. cbn. apply andb_false_r. }
  unfold perform. rewrite Ha, Ht, He, Hb, Hgo.
  unfold getMessageHeader. rewrite Hh, Hhs. reflexivity.
Qed.

Lemma flush_starts w h segments :
    healthy (stream w) -> _ready (stream w) = true ->
    _header (stream w) = Message h -> isHandshake h = false ->
    _currentPayload (stream w) = Some segments ->
    (_closed (stream w) = true \/ segments <> []) ->
    step w (Invoke Flush)
    = Some (set_pending
              (pending w ++
               [(AwaitChunk
                   {| sequenceNumber := _payloadSequenceNumber (stream w);
                      chunk_messageId := messageId h;
                      endofmsg := _closed (stream w);
                      compressionAlgo := _compressionAlgo (stream w);
                      data := List.concat segments |}, KFlush)]) w,
            []).
Proof.
  intros Hy Hr Hh Hhs Hb Hsome.
  unfold step, invoke, flush. rewrite Hr. cbn [negb].
  rewrite (perform_starts KFlush w h segments Hy Hh Hhs Hb Hsome).
  reflexivity.
Qed.

  (** The chunk that was asked for is cached, if caching is on, and handed
      to the destination. *)
Lemma chunk_handed_over w i c k others :
    pick i (pending w) = Some ((AwaitChunk c, k), others) ->
    step w (ChunkCreateDone i CreateResult)
    = Some (set_pending (others ++ [(AwaitPayloadWrite c, k)])
              (call_destination (DWrite (PayloadBytes c)) (cached c w)),
            []).
Proof.
  intros Hp. unfold step. rewrite Hp. unfold chunk_created, cached.
  cbn [stream set_pending]. unfold suspend, silent.
  destruct (_caching (stream w)); reflexivity.
Qed.

Lemma payload_write_acknowledged w i c k others n :
    pick i (pending w) = Some ((AwaitPayloadWrite c, k), others) ->
    _aborted (stream w) = false ->
    step w (PayloadWriteDone i (WResult n))
    = Some (set_pending (others ++ [(AwaitPayloadFlush c, k)])
              (call_destination DFlush w),
            []).
Proof.
  intros Hp Ha. unfold step. rewrite Hp. unfold payload_written.
  cbn [stream set_pending]. rewrite Ha. reflexivity.
Qed.

  (** A flush, up to the point where the destination holds the chunk. *)
Lemma flush_attempt w h segments :
    healthy (stream w) -> _ready (stream w) = true -> pending w = [] ->
    _header (stream w) = Message h -> isHandshake h = false ->
    _currentPayload (stream w) = Some segments ->
    (_closed (stream w) = true \/ segments <> []) ->
    let chunk :=
      {| sequenceNumber := _payloadSequenceNumber (stream w);
         chunk_messageId := messageId h;
         endofmsg := _closed (stream w);
         compressionAlgo := _compressionAlgo (stream w);
         data := List.concat segments |} in
    run w [Invoke Flush; ChunkCreateDone 0 CreateResult]
    = Some (set_pending [(AwaitPayloadWrite chunk, KFlush)]
              (call_destination (DWrite (PayloadBytes chunk)) (cached chunk w)),
            []).
Proof.
  intros Hy Hr Hp Hh Hhs Hb Hsome chunk. cbn [run].
  rewrite (flush_starts w h segments Hy Hr Hh Hhs Hb Hsome). fold chunk.
  rewrite Hp. cbn [app].
  rewrite (chunk_handed_over (set_pending [(AwaitChunk chunk, KFlush)] w)
             0 chunk KFlush [] eq_refl).
  unfold cached. cbn. destruct (_caching (stream w)); reflexivity.
Qed.

Lemma attempted_stream c flushed w :
    stream (attempted c flushed w) = stream (cached c w)
    /\ emitted (destination (attempted c flushed w))
       = emitted (destination w) ++ [c].
Proof.
  unfold attempted, cached.
  destruct flushed, (_caching (stream w)); cbn;
    rewrite ?emitted_app; cbn; rewrite ?app_nil_r; split; reflexivity.
Qed.

Lemma cached_fields c w :
    let s := stream (cached c w) in
    _header s = _header (stream w)
    /\ _compressionAlgo s = _compressionAlgo (stream w)
    /\ _payloadSequenceNumber s = _payloadSequenceNumber (stream w)
    /\ _currentPayload s = _currentPayload (stream w)
    /\ _closed s = _closed (stream w)
    /\ _ready s = _ready (stream w)
    /\ _aborted s = _aborted (stream w)
    /\ _timedout s = _timedout (stream w)
    /\ _errored s = _errored (stream w)
    /\ _caching s = _caching (stream w)
    /\ _payloads s = (if _caching (stream w)
                      then _payloads (stream w) ++ [c]
                      else _payloads (stream w)).
Proof.
  unfold cached. destruct (_caching (stream w)) eqn:E; cbn;
    repeat split; try reflexivity; exact E.
Qed.

  (** The write of the chunk is not acknowledged. *)
Lemma flush_write_fails w h segments r :
    healthy (stream w) -> _ready (stream w) = true -> pending w = [] ->
    _header (stream w) = Message h -> isHandshake h = false ->
    _currentPayload (stream w) = Some segments ->
    (_closed (stream w) = true \/ segments <> []) ->
    (forall n, r <> WResult n) ->
    let chunk :=
      {| sequenceNumber := _payloadSequenceNumber (stream w);
         chunk_messageId := messageId h;
         endofmsg := _closed (stream w);
         compressionAlgo := _compressionAlgo (stream w);
         data := List.concat segments |} in
    run w [Invoke Flush; ChunkCreateDone 0 CreateResult; PayloadWriteDone 0 r]
    = Some (attempted chunk false w,
            [match r with
             | WError e =>
                 Error (if instanceof_MslException e
                        then MslIoExceptionCausedBy
                               (ErrorEncodingPayloadChunk
                                  (_payloadSequenceNumber (stream w))) e
                        else e)
             | _ => Timeout
             end]).
Proof.
  intros Hy Hr Hp Hh Hhs Hb Hsome Hfail chunk.
  change [Invoke Flush; ChunkCreateDone 0 CreateResult; PayloadWriteDone 0 r]
    with ([Invoke Flush; ChunkCreateDone 0 CreateResult]
            ++ [PayloadWriteDone 0 r]).
  rewrite run_app, (flush_attempt w h segments Hy Hr Hp Hh Hhs Hb Hsome).
  fold chunk. cbn [run step pending set_pending pick].
  unfold payload_written, flush_callback, done, encoding_error, attempted.
  destruct (cached_fields chunk w) as (_ & _ & Hn & _).
  destruct r as [n| |e]; [destruct (Hfail n eq_refl)| |]; cbn;
    rewrite ?Hn; reflexivity.
Qed.

  (** The chunk is written and its flush is not acknowledged. *)
Lemma flush_flush_fails w h segments n r :
    healthy (stream w) -> _ready (stream w) = true -> pending w = [] ->
    _header (stream w) = Message h -> isHandshake h = false ->
    _currentPayload (stream w) = Some segments ->
    (_closed (stream w) = true \/ segments <> []) ->
    r <> FResult true ->
    let chunk :=
      {| sequenceNumber := _payloadSequenceNumber (stream w);
         chunk_messageId := messageId h;
         endofmsg := _closed (stream w);
         compressionAlgo := _compressionAlgo (stream w);
         data := List.concat segments |} in
    run w [Invoke Flush; ChunkCreateDone 0 CreateResult;
           PayloadWriteDone 0 (WResult n); PayloadFlushDone 0 r]
    = Some (attempted chunk true w,
            [match r with
             | FError e =>
                 Error (if instanceof_MslException e
                        then MslIoExceptionCausedBy
                               (ErrorEncodingPayloadChunk
                                  (_payloadSequenceNumber (stream w))) e
                        else e)
             | _ => Timeout
             end]).
Proof.
  intros Hy Hr Hp Hh Hhs Hb Hsome Hfail chunk.
  change [Invoke Flush; ChunkCreateDone 0 CreateResult;
          PayloadWriteDone 0 (WResult n); PayloadFlushDone 0 r]
    with ([Invoke Flush; ChunkCreateDone 0 CreateResult]
            ++ [PayloadWriteDone 0 (WResult n); PayloadFlushDone 0 r]).
  rewrite run_app, (flush_attempt w h segments Hy Hr Hp Hh Hhs Hb Hsome).
  fold chunk.
  destruct (cached_fields chunk w) as (_ & _ & Hn & _ & _ & _ & Ha & _).
  destruct Hy as (Ha0 & _).
  cbn [run].
  rewrite (payload_write_acknowledged
             (set_pending [(AwaitPayloadWrite chunk, KFlush)]
                (call_destination (DWrite (PayloadBytes chunk))
                   (cached chunk w)))
             0 chunk KFlush [] n eq_refl)
    by (cbn; rewrite Ha; exact Ha0).
  cbn [app step pending set_pending pick].
  unfold payload_flushed, flush_callback, done, encoding_error, attempted.
  cbn [stream set_pending call_destination]. rewrite Ha, Ha0.
  destruct r as [[|]| |e]; [destruct (Hfail eq_refl)| | |]; cbn;
    rewrite ?Hn; reflexivity.
Qed.

  (** After an attempt the stream is as it was, but for the cache. *)
Lemma attempted_ready c flushed w h segments :
    healthy (stream w) -> _ready (stream w) = true ->
    _header (stream w) = Message h ->
    _currentPayload (stream w) = Some segments ->
    (_closed (stream w) = true \/ segments <> []) ->
    let w' := attempted c flushed w in
    healthy (stream w') /\ _ready (stream w') = true /\ pending w' = []
    /\ _header (stream w') = Message h
    /\ _currentPayload (stream w') = Some segments
    /\ (_closed (stream w') = true \/ segments <> [])
    /\ _payloadSequenceNumber (stream w') = _payloadSequenceNumber (stream w)
    /\ _closed (stream w') = _closed (stream w)
    /\ _compressionAlgo (stream w') = _compressionAlgo (stream w).
Proof.
  intros (Ha & Ht & He) Hr Hh Hb Hsome w'.
  destruct (attempted_stream c flushed w) as [Hs _].
  destruct (cached_fields c w)
    as (F1 & F2 & F3 & F4 & F5 & F6 & F7 & F8 & F9 & _).
  subst w'. unfold healthy. rewrite Hs.
  rewrite F1, F3, F4, F5, F6, F7, F8, F9, F2.
  repeat split; first [assumption | reflexivity].
Qed.

  (** *** Sequence numbers *)

  (** A second flush after an attempt hands over a chunk with the same
      number. *)
Lemma retry_numbers w h segments c flushed :
    healthy (stream w) -> _ready (stream w) = true ->
    _header (stream w) = Message h -> isHandshake h = false ->
    _currentPayload (stream w) = Some segments ->
    (_closed (stream w) = true \/ segments <> []) ->
    sequenceNumber c = _payloadSequenceNumber (stream w) ->
    exists w',
      run (attempted c flushed w) [Invoke Flush; ChunkCreateDone 0 CreateResult]
      = Some (w', [])
      /\ sequence_numbers w'
         = sequence_numbers w
           ++ [_payloadSequenceNumber (stream w);
               _payloadSequenceNumber (stream w)]
      /\ _payloadSequenceNumber (stream w') = _payloadSequenceNumber (stream w).
Proof.
  intros Hy Hr Hh Hhs Hb Hsome Hc.
  destruct (attempted_ready c flushed w h segments Hy Hr Hh Hb Hsome)
    as (Hy' & Hr' & Hp' & Hh' & Hb' & Hsome' & Hn' & _).
  rewrite (flush_attempt _ h segments Hy' Hr' Hp' Hh' Hhs Hb' Hsome').
  eexists. split; [reflexivity|].
  unfold sequence_numbers. cbn [destination set_pending call_destination stream].
  rewrite emitted_app.
  destruct (attempted_stream c flushed w) as [_ He].
  split.
  - replace (destination (cached _ (attempted c flushed w)))
      with (destination (attempted c flushed w))
      by (unfold cached; destruct (_caching _); reflexivity).
    rewrite He, !map_app, <- app_assoc. cbn [map sequenceNumber app].
    rewrite Hn', Hc. reflexivity.
  - destruct (cached_fields
                {| sequenceNumber := _payloadSequenceNumber
                                       (stream (attempted c flushed w));
                   chunk_messageId := messageId h;
                   endofmsg := _closed (stream (attempted c flushed w));
                   compressionAlgo := _compressionAlgo
                                        (stream (attempted c flushed w));
                   data := List.concat segments |}
                (attempted c flushed w)) as (_ & _ & Hn & _).
    cbv zeta in Hn. exact (eq_trans Hn Hn').
Qed.

  (** C3 (amended): every chunk handed to the destination carries a number
      from 1 to the stream's counter.  When the caller runs one operation
      at a time, the numbers begin at 1 and never skip a number (each chunk
      carries the number of the chunk before it or that number plus one),
      and when, moreover, the destination acknowledges every payload write
      and flush they are exactly 1, 2, 3, ...  The counter goes up only
      when the destination acknowledged the write and the flush of a chunk:
      after a flush whose chunk was handed over and whose write or flush
      timed out, failed or was unsuccessful, the next flush hands over a
      chunk with the same number. *)
Theorem C3_sequence_numbers_never_skip :
    (forall pref caps header len evs w os,
        run (init pref caps header len) evs = Some (w, os) ->
        Forall (fun x => 1 <= x <= _payloadSequenceNumber (stream w))
          (sequence_numbers w)
        /\ (one_at_a_time (init pref caps header len) evs = true ->
            counts_from_one (sequence_numbers w)
            /\ (forallb acknowledged evs = true ->
                sequence_numbers w = one_to (List.length (sequence_numbers w)))))
    /\ (forall w h segments,
           healthy (stream w) -> _ready (stream w) = true -> pending w = [] ->
           _header (stream w) = Message h -> isHandshake h = false ->
           _currentPayload (stream w) = Some segments ->
           (_closed (stream w) = true \/ segments <> []) ->
           let n := _payloadSequenceNumber (stream w) in
           (forall r, (forall m, r <> WResult m) ->
            exists w' o,
              run w [Invoke Flush; ChunkCreateDone 0 CreateResult;
                     PayloadWriteDone 0 r;
                     Invoke Flush; ChunkCreateDone 0 CreateResult]
              = Some (w', [o])
              /\ (forall b, o <> Result (RBool b))
              /\ sequence_numbers w' = sequence_numbers w ++ [n; n]
              /\ _payloadSequenceNumber (stream w') = n)
           /\ (forall m r, r <> FResult true ->
               exists w' o,
                 run w [Invoke Flush; ChunkCreateDone 0 CreateResult;
                        PayloadWriteDone 0 (WResult m); PayloadFlushDone 0 r;
                        Invoke Flush; ChunkCreateDone 0 CreateResult]
                 = Some (w', [o])
                 /\ (forall b, o <> Result (RBool b))
                 /\ sequence_numbers w' = sequence_numbers w ++ [n; n]
                 /\ _payloadSequenceNumber (stream w') = n)).
Proof.
  split.
  - intros pref caps header len evs w os Hrun.
    destruct (init_numbering pref caps header len) as (Hr & Hn & Ha). split.
    + apply (run_invariant numbers_in_range step_numbers_in_range
               _ _ _ _ Hrun Hr).
    + intros Hturn. split.
      * apply (run_invariant_guarded in_turn numbering step_numbering
                 _ _ _ _ Hturn Hrun Hn).
      * intros Hack.
        apply (run_invariant_guarded
                 (fun w ev => in_turn w ev && acknowledged ev)
                 numbering_acknowledged step_numbering_acknowledged
                 _ _ _ _
                 (guarded_and in_turn (fun _ => acknowledged) _ _ Hturn
                    (guarded_forallb acknowledged _ _ _ _ Hrun Hack))
                 Hrun Ha).
  - intros w h segments Hy Hr Hp Hh Hhs Hb Hsome n. split.
    + intros r Hfail.
      change [Invoke Flush; ChunkCreateDone 0 CreateResult;
              PayloadWriteDone 0 r;
              Invoke Flush; ChunkCreateDone 0 CreateResult]
        with ([Invoke Flush; ChunkCreateDone 0 CreateResult;
               PayloadWriteDone 0 r]
                ++ [Invoke Flush; ChunkCreateDone 0 CreateResult]).
      rewrite run_app,
        (flush_write_fails w h segments r Hy Hr Hp Hh Hhs Hb Hsome Hfail).
      destruct (retry_numbers w h segments
                  {| sequenceNumber := _payloadSequenceNumber (stream w);
                     chunk_messageId := messageId h;
                     endofmsg := _closed (stream w);
                     compressionAlgo := _compressionAlgo (stream w);
                     data := List.concat segments |}
                  false Hy Hr Hh Hhs Hb Hsome eq_refl)
        as (w' & Hrun & Hs & Hn).
      rewrite Hrun. eexists. eexists. split; [reflexivity|].
      split; [|split; assumption].
      destruct r as [m| |e]; [destruct (Hfail m eq_refl)| |]; discriminate.
    + intros m r Hfail.
      change [Invoke Flush; ChunkCreateDone 0 CreateResult;
              PayloadWriteDone 0 (WResult m); PayloadFlushDone 0 r;
              Invoke Flush; ChunkCreateDone 0 CreateResult]
        with ([Invoke Flush; ChunkCreateDone 0 CreateResult;
               PayloadWriteDone 0 (WResult m); PayloadFlushDone 0 r]
                ++ [Invoke Flush; ChunkCreateDone 0 CreateResult]).
      rewrite run_app,
        (flush_flush_fails w h segments m r Hy Hr Hp Hh Hhs Hb Hsome Hfail).
      destruct (retry_numbers w h segments
                  {| sequenceNumber := _payloadSequenceNumber (stream w);
                     chunk_messageId := messageId h;
                     endofmsg := _closed (stream w);
                     compressionAlgo := _compressionAlgo (stream w);
                     data := List.concat segments |}
                  true Hy Hr Hh Hhs Hb Hsome eq_refl)
        as (w' & Hrun & Hs & Hn).
      rewrite Hrun. eexists. eexists. split; [reflexivity|].
      split; [|split; assumption].
      destruct r as [[|]| |e]; [destruct (Hfail eq_refl)| | |]; discriminate.
Qed.

  (** C3 (as stated) fails.  The destination takes the whole chunk and
      times out on the flush: the next flush emits a second chunk with
      number 1, and both are in [getPayloads()].  And two flushes called
      one after the other, each before the other's chunk is acknowledged,
      emit two chunks with number 1; both acknowledgements count, and the
      chunk after them has number 3. *)
Lemma C3_counterexample :
    match
      run sample_stream
        (header_sent ++
         [Invoke (Write two_bytes 0 2); Invoke Flush;
          ChunkCreateDone 0 CreateResult; PayloadWriteDone 0 (WResult 40);
          PayloadFlushDone 0 FTimeout;
          Invoke Flush] ++ chunk_sent)
    with
    | Some (w, os) =>
        os = [Result (RNumber 2); Timeout; Result (RBool true)]
        /\ sequence_numbers w = [1; 1]
        /\ map sequenceNumber (getPayloads (stream w)) = [1; 1]
        /\ sequence_numbers w <> one_to (List.length (sequence_numbers w))
    | None => False
    end
    /\ match
        run sample_stream
          (header_sent ++
           [Invoke (Write two_bytes 0 2); Invoke Flush; Invoke Flush;
            ChunkCreateDone 0 CreateResult; ChunkCreateDone 0 CreateResult;
            PayloadWriteDone 0 (WResult 40); PayloadWriteDone 0 (WResult 40);
            PayloadFlushDone 0 (FResult true); PayloadFlushDone 0 (FResult true);
            Invoke (Write two_bytes 0 2); Invoke Flush] ++ chunk_sent)
      with
      | Some (w, os) =>
          os = [Result (RNumber 2); Result (RBool true); Result (RBool true);
                Result (RNumber 2); Result (RBool true)]
          /\ sequence_numbers w = [1; 1; 3]
          /\ ~ counts_from_one (sequence_numbers w)
      | None => False
      end.
Proof.
  split.
  - vm_compute. repeat split. discriminate.
  - vm_compute. split; [reflexivity|]. split; [reflexivity|].
    intros (_ & _ & [H|H] & _); discriminate.
Qed.

Lemma C3_sequence_numbers_never_skip_witness :
    Forall (fun x => 1 <= x <= 3) [1; 2]
    /\ counts_from_one [1; 2]
    /\ [1; 2] = one_to 2.
Proof.
  destruct C3_sequence_numbers_never_skip as [H _].
  specialize (H first_algorithm
      sample_capabilities sample_header 10
      (header_sent ++
         [Invoke (Write two_bytes 0 2); Invoke Flush] ++ chunk_sent
         ++ Invoke Close :: chunk_sent)).
  match type of H with
  | forall w os, ?r = _ -> _ =>
      let v := eval vm_compute in r in
      match v with
      | Some (?w, ?os) => specialize (H w os)
      end
  end.
  destruct (H ltac:(vm_compute; reflexivity)) as [H1 H2].
  destruct (H2 ltac:(vm_compute; reflexivity)) as [H3 H4].
  split; [exact H1|]. split; [exact H3 | exact (H4 eq_refl)].
Defined.


  (** *** End of message *)

Lemma end_count_snoc l b :
    end_count (l ++ [b]) = (end_count l + if b then 1 else 0)%nat.
Proof.
  unfold end_count. rewrite filter_app, length_app. destruct b; reflexivity.
Qed.

Lemma end_count_zero l : end_count l = 0%nat -> l = repeat false (List.length l).
Proof.
  unfold end_count. induction l as [|b l IH]; [reflexivity|].
  destruct b; cbn; [discriminate|]. intros H. rewrite <- IH by assumption.
  reflexivity.
Qed.

Lemma end_marks_last_snoc_true l :
    end_marks_last l -> end_marks_last (l ++ [true]).
Proof.
  intros (a & b & ->). exists a, (S b).
  rewrite <- app_assoc. f_equal.
  change [true] with (repeat true 1). rewrite <- repeat_app.
  f_equal. lia.
Qed.

Lemma end_marks_last_snoc_false l :
    end_count l = 0%nat -> end_marks_last (l ++ [false]).
Proof.
  intros H. exists (S (List.length l)), 0%nat. rewrite app_nil_r.
  rewrite (end_count_zero l H) at 1.
  change [false] with (repeat false 1). rewrite <- repeat_app.
  f_equal. lia.
Qed.

Ltac use_imps :=
    repeat match goal with
      | H : ?a = ?b -> _, E : ?a = ?b |- _ => specialize (H E)
      | H : ?a = ?a -> _ |- _ => specialize (H eq_refl)
      | H : _ /\ _ |- _ => destruct H
      end.

Ltac closing_tail :=
    use_imps;
    repeat split; intros; use_imps; try assumption; try congruence; try lia;
    try (apply end_marks_last_snoc_true; assumption);
    try (apply end_marks_last_snoc_false; assumption).

Lemma step_open_stream w ev w' os :
    not_close ev = true ->
    step w ev = Some (w', os) -> open_stream w -> open_stream w'.
Proof.
  apply (step_invariant_guarded (fun _ => not_close) open_stream); clear.
  - intros w ev w' os Hev Hsel H (Hc & He & Hp). unfold open_stream.
    not_abort ev Hev; step_cases H; try discriminate; pending_facts;
      list_norm; rewrite ?end_count_snoc in *;
      repeat split; try assumption; try congruence;
      try (rewrite He; match goal with
                       | E : endofmsg ?c = false |- _ => rewrite E
                       end; reflexivity);
      pending_goal; try exact I; try reflexivity; try assumption.
  - intros w (Hc & He & Hp). unfold open_stream. list_norm.
    repeat split; try assumption. apply not_waiting_Forall. assumption.
  - intros k w (Hc & He & Hp). unfold open_stream, flush_callback.
    destruct k; cbn; try (repeat split; assumption).
    destruct (_closeDestination (stream w)); list_norm;
      repeat split; try assumption.
    apply Forall_app; split; [assumption|]. constructor; [exact I|constructor].
Qed.

Lemma step_closing w ev w' os :
    in_turn w ev = true ->
    step w ev = Some (w', os) -> closing w -> closing w'.
Proof.
  unfold closing, data_bearing. intros Hg H (Hd & Hm & Hc & Hn & Hp).
  destruct (pending w) as [|[st k] [|? ?]] eqn:Ep;
    [| |destruct st; contradiction];
    unfold in_turn in Hg; rewrite Ep in Hg;
    turn_cases H Ep; try discriminate; list_norm;
      rewrite ?end_count_snoc in *; use_imps;
      repeat match goal with
        | E : endofmsg ?c = _ |- context [endofmsg ?c] => rewrite E
        end;
      try match goal with
        | |- context [_closed (stream ?w)] =>
            destruct (_closed (stream w)) eqn:?
        end;
      cbn in *; closing_tail.
Qed.

Lemma step_single_end w ev w' os :
    in_turn w ev && acknowledged ev = true ->
    step w ev = Some (w', os) -> single_end w -> single_end w'.
Proof.
  intros Hg H (Hcl & Hle & Hk).
  apply andb_true_iff in Hg. destruct Hg as [Hg Hack].
  split; [eapply step_closing; eassumption|].
  unfold closing, data_bearing in Hcl.
  destruct Hcl as (Hd & Hm & Hc & Hn & Hp).
  destruct (pending w) as [|[st k] [|? ?]] eqn:Ep;
    [| |destruct st; contradiction];
    unfold in_turn in Hg; rewrite Ep in Hg;
    turn_cases H Ep; try discriminate;
      try (subst; cbn in *; congruence); list_norm;
      rewrite ?end_count_snoc in *; use_imps;
      repeat match goal with
        | E : endofmsg ?c = _ |- context [endofmsg ?c] => rewrite E
        end;
      try match goal with
        | |- context [_closed (stream ?w)] =>
            destruct (_closed (stream w)) eqn:?
        end;
      cbn in *; use_imps;
      repeat split; intros; use_imps; try assumption; try congruence;
      try lia; try (left; congruence); try (right; congruence);
      try tauto;
      try match goal with
        | Hk : ?n = 1%nat -> _ \/ _ |- _ =>
            destruct (Nat.eq_dec n 1) as [E|E];
            [destruct (Hk E); congruence | lia]
        end.
Qed.

Lemma init_single_end pref caps h len :
    isHandshake h = false -> single_end (init pref caps (Message h) len).
Proof.
  intros Hh. unfold single_end, closing, data_bearing. cbn. rewrite Hh. cbn.
  repeat split; try (intros; discriminate); try lia;
    try (exists 0%nat, 0%nat; reflexivity);
    try (unfold end_count; cbn; lia).
Qed.

Lemma init_open_stream pref caps header len :
    open_stream (init pref caps header len).
Proof. unfold open_stream. cbn. repeat split. constructor. Qed.




#[local] Arguments waiting_callbacks _ : simpl never.

  (** *** Abort, timeout, error *)

Lemma waiters_waiting_callbacks p : waiters p = waiting_callbacks p.
Proof.
  unfold waiting_callbacks.
  induction p as [|[[] k] p IH]; cbn; rewrite ?IH; reflexivity.
Qed.

Lemma not_waiting_released p :
    Forall released (not_waiting p) /\ waiting_callbacks (not_waiting p) = [].
Proof.
  unfold waiting_callbacks.
  induction p as [|[[] k] p [IH1 IH2]]; cbn; split;
    try assumption; try constructor; try exact I; try assumption.
Qed.

Lemma take_waiter_first p k ks :
    waiting_callbacks p = k :: ks ->
    exists others,
      take_waiter p = Some (k, others) /\ waiting_callbacks others = ks.
Proof.
  unfold waiting_callbacks.
  induction p as [|[st k0] p IH]; cbn; [discriminate|].
  destruct st; cbn; intros H;
    try (destruct (IH H) as (others & -> & Ho); eexists;
         split; [reflexivity|]; cbn; exact Ho).
  inversion H; subst. eexists. split; reflexivity.
Qed.

Lemma waiting_callbacks_app p q :
    waiting_callbacks (p ++ q) = waiting_callbacks p ++ waiting_callbacks q.
Proof. unfold waiting_callbacks. rewrite filter_app, map_app. reflexivity. Qed.

  (** What the callback of an operation does with the report [false]. *)
Lemma aborted_callback k w :
    exists w',
      flush_callback k (Result (RBool false)) w
      = (w', aborted_report (_closeDestination (stream w)) k)
      /\ stream w' = stream w
      /\ (Forall released (pending w) -> Forall released (pending w'))
      /\ waiting_callbacks (pending w') = waiting_callbacks (pending w)
      /\ emitted (destination w') = emitted (destination w)
      /\ (forall e, In e (pending w) -> In e (pending w')).
Proof.
  unfold flush_callback, aborted_report.
  destruct k; cbn.
  - eexists. repeat split; auto.
  - destruct (_closeDestination (stream w)); cbn;
      (eexists; split; [reflexivity|]);
      cbn [stream pending destination set_pending call_destination];
      rewrite ?waiting_callbacks_app, ?emitted_app; cbn;
      rewrite ?app_nil_r; repeat split; auto.
    + intros H. apply Forall_app. split; [assumption|].
      constructor; [exact I|constructor].
    + intros e He. apply in_or_app. left. exact He.
  - eexists. repeat split; auto.
Qed.

Lemma cancelAll_report ks : forall w,
    exists w',
      cancelAll ks w
      = (w', flat_map (aborted_report (_closeDestination (stream w))) ks)
      /\ stream w' = stream w
      /\ (Forall released (pending w) -> Forall released (pending w'))
      /\ waiting_callbacks (pending w') = waiting_callbacks (pending w)
      /\ (forall e, In e (pending w) -> In e (pending w')).
Proof.
  induction ks as [|k ks IH]; intros w.
  - eexists. repeat split; auto.
  - cbn [cancelAll flat_map].
    destruct (aborted_callback k w) as (w1 & -> & Hs1 & Hr1 & Hw1 & _ & Hk1).
    destruct (IH w1) as (w2 & -> & Hs2 & Hr2 & Hw2 & Hk2).
    rewrite Hs1. eexists. split; [reflexivity|].
    split; [congruence|]. split; [auto|]. split; [congruence|auto].
Qed.

Lemma not_waiting_keeps p e : In e p -> released e -> In e (not_waiting p).
Proof.
  induction p as [|[st k] p IH]; [intros []|].
  intros [<-|H] Hr.
  - destruct st; cbn in *; try contradiction; left; reflexivity.
  - destruct st; cbn; auto.
Qed.

  (** The header transmission completes on an aborted stream: the waiter
      that polled first is told. *)
Lemma ready_aborted w k ks :
    _aborted (stream w) = true ->
    waiting_callbacks (pending w) = k :: ks ->
    exists w',
      ready w = (w', aborted_report (_closeDestination (stream w)) k)
      /\ waiting_callbacks (pending w') = ks
      /\ _aborted (stream w') = true.
Proof.
  intros Ha Hw. unfold ready. cbn [pending update].
  destruct (take_waiter_first _ _ _ Hw) as (others & -> & Ho).
  unfold perform. cbn [stream set_pending update _aborted set_readiness].
  rewrite Ha.
  destruct (aborted_callback k
              (set_pending others
                 (update (fun s => set_readiness true (_readyQueue s) s) w)))
    as (w' & -> & Hs & _ & Hw' & _).
  exists w'. split; [reflexivity|]. split; [|rewrite Hs; exact Ha].
  rewrite Hw'. exact Ho.
Qed.




  (** *** Compression algorithm *)

Lemma algo_eqb_eq a b : algo_eqb a b = true <-> a = b.
Proof. destruct a, b; cbn; split; congruence. Qed.

Lemma existsb_algo a l :
    existsb (fun c => algo_eqb c a) l = true <-> In a l.
Proof.
  rewrite existsb_exists. split.
  - intros (x & Hx & He). apply algo_eqb_eq in He. subst. exact Hx.
  - intros H. exists a. split; [exact H|]. apply algo_eqb_eq. reflexivity.
Qed.

Lemma supported_listed_by_both local remote s a :
    _capabilities s = MessageCapabilities_intersection local remote ->
    supported s (Some a) = true <-> listed_by_both local remote a.
Proof.
  unfold supported, listed_by_both, MessageCapabilities_intersection.
  intros ->. destruct local as [l|], remote as [r|]; cbn;
    try (split; [discriminate|intros (? & ? & ? & ? & _); discriminate]).
  rewrite existsb_algo, filter_In, existsb_exists. split.
  - intros (Hl & x & Hx & He). apply algo_eqb_eq in He. subst x.
    exists l, r. repeat split; assumption.
  - intros (l' & r' & El & Er & Hl & Hr). inversion El; inversion Er; subst.
    split; [assumption|]. exists a. split; [assumption|].
    apply algo_eqb_eq. reflexivity.
Qed.

Lemma step_capabilities w ev w' os :
    step w ev = Some (w', os) ->
    _capabilities (stream w') = _capabilities (stream w).
Proof.
  intros H.
  apply (step_invariant
           (fun v => _capabilities (stream v) = _capabilities (stream w)))
    with (w := w) (ev := ev) (os := os); [| | |assumption|reflexivity]; clear.
  - intros v ev v' os Hev H Hc.
    not_abort ev Hev; step_cases H; first [assumption | reflexivity].
  - intros v H. exact H.
  - intros k v H. unfold flush_callback. destruct k; cbn; try assumption.
    destruct (_closeDestination (stream v)); cbn; assumption.
Qed.

  (** [setCompressionAlgorithm] with a different, supported algorithm on a
      message stream is a flush that reports to its own callback. *)
Lemma setCompressionAlgorithm_flushes w h algo :
    getMessageHeader (stream w) = Some h ->
    algo_equals (_compressionAlgo (stream w)) algo = false ->
    supported (stream w) algo = true ->
    setCompressionAlgorithm algo w = flush (KSetCompressionAlgorithm algo) w.
Proof.
  unfold supported, setCompressionAlgorithm. intros Hh He Hs.
  rewrite Hh, He. destruct algo as [a|]; [|reflexivity].
  destruct (_capabilities (stream w)) as [c|]; [|discriminate].
  rewrite Hs. reflexivity.
Qed.




End MOSTheorems.

(** * Further properties *)

(** ** X.509 entity authentication data *)

Module X509Extras.

Lemma SFeqb_sym a b : SFeqb a b = SFeqb b a.
Proof.
  unfold SFeqb.
  destruct a as [sa|sa| |sa ma ea], b as [sb|sb| |sb mb eb]; cbn;
    try reflexivity; try (destruct sa, sb; reflexivity);
    try (destruct sa; reflexivity); try (destruct sb; reflexivity).
  destruct sa, sb; try reflexivity;
    rewrite (Z.compare_antisym ea eb); destruct (ea ?= eb)%Z; cbn;
    try reflexivity;
    pose proof (Pos.compare_cont_antisym ma mb Eq) as P; cbn in P;
    rewrite <- P; destruct (Pos.compare_cont Eq ma mb); reflexivity.
Qed.

Lemma SFeqb_refl a : a <> S754_nan -> SFeqb a a = true.
Proof.
  unfold SFeqb. destruct a as [s|s| |s m e]; cbn; intros H;
    try reflexivity; try congruence.
  - destruct s; reflexivity.
  - destruct s; rewrite Z.compare_refl, Pos.compare_cont_refl; reflexivity.
Qed.

(** [v === v] is true of every value but NaN. *)
Lemma strict_equals_refl v : strict_equals v v = negb (is_NaN v).
Proof.
  destruct v; cbn; auto using Bool.eqb_reflx, String.eqb_refl, Nat.eqb_refl.
  unfold number_equals.
  destruct (ieee x) eqn:E;
    [apply SFeqb_refl; discriminate | apply SFeqb_refl; discriminate
    | reflexivity | apply SFeqb_refl; discriminate].
Qed.

Lemma truthy_not_NaN v : truthy v = true -> is_NaN v = false.
Proof. destruct v; cbn; try reflexivity. destruct (ieee x); congruence. Qed.

Lemma strict_equals_sym v w : strict_equals v w = strict_equals w v.
Proof.
  destruct v, w; cbn; auto using String.eqb_sym, Nat.eqb_sym.
  - destruct b, b0; reflexivity.
  - apply SFeqb_sym.
Qed.

Lemma cert_strict_equals_sym c d :
  cert_strict_equals c d = cert_strict_equals d c.
Proof. destruct c, d; cbn; auto using Nat.eqb_sym. Qed.

Lemma scheme_eqb_sym a b : scheme_eqb a b = scheme_eqb b a.
Proof. destruct a, b; reflexivity. Qed.

(** [equals] of both versions answers true on the instance itself, false
    on anything that is no instance ([null], a string, ...), and the same
    whichever of two instances it is called on. *)
Theorem equals_reflexive_symmetric :
  (forall (a b : Main.X509AuthenticationData) (v : JsValue),
      Main.equals a (Main.Instance a) = true
      /\ Main.equals a (Main.Value v) = false
      /\ Main.equals a (Main.Instance b) = Main.equals b (Main.Instance a))
  /\ (forall (a b : Core.X509AuthenticationData) (v : JsValue),
         Core.equals a (Core.Instance a) = true
         /\ Core.equals a (Core.Value v) = false
         /\ Core.equals a (Core.Instance b) = Core.equals b (Core.Instance a)).
Proof.
  split; intros a b v; (split; [|split]).
  - unfold Main.equals. rewrite Nat.eqb_refl. reflexivity.
  - reflexivity.
  - unfold Main.equals, EntityAuthenticationData_equals.
    rewrite (Nat.eqb_sym (Main.self a)), (scheme_eqb_sym (Main.scheme a)),
      (String.eqb_sym (Main.identity a)). reflexivity.
  - unfold Core.equals. rewrite Nat.eqb_refl. reflexivity.
  - reflexivity.
  - unfold Core.equals, EntityAuthenticationData_equals.
    rewrite (Nat.eqb_sym (Core.self a)), (scheme_eqb_sym (Core.scheme a)),
      (strict_equals_sym (Core.identity a)),
      (cert_strict_equals_sym (Core.x509cert a)),
      (strict_equals_sym (Core.x509chain a)). reflexivity.
Qed.

(** In [src/main/javascript], when the library decodes the encoding of a
    certificate to that certificate, parsing the serialization of an
    instance gives an instance equal to it (both ways), with the same
    identity and the same serialization. *)
Theorem Main_parse_getAuthData_roundtrip :
  forall lib (c : X509) (this h : Addr),
    readCertPEM lib (JString (base64_of_hex lib (hex c))) = Return (hex c) ->
    let d := Main.init lib this c in
    exists d2,
      Main.parse lib (Main.getAuthData lib d) h = (Return d2, S (S (S h)))
      /\ Main.equals d (Main.Instance d2) = true
      /\ Main.equals d2 (Main.Instance d) = true
      /\ Main.getIdentity d2 = Main.getIdentity d
      /\ Main.getAuthData lib d2 = Main.getAuthData lib d.
Proof.
  intros lib c this h Hdec d.
  unfold Main.parse, Main.getAuthData. cbn.
  unfold bind, try_catch, Main.new_X509_readCertPEM, bind, new, ret, throw,
    Main.new_X509AuthenticationData, bind, new, ret. cbn in *.
  rewrite Hdec. eexists. split; [reflexivity|].
  unfold Main.equals, EntityAuthenticationData_equals. cbn.
  rewrite String.eqb_refl.
  repeat split; try reflexivity;
    match goal with |- (if ?b then _ else _) = true => destruct b; reflexivity end.
Qed.

Lemma Main_parse_getAuthData_roundtrip_witness :
  let cert := {| x509_addr := 1; hex := "3082aa01" |} in
  let d := Main.init sample_library 2 cert in
  exists d2,
    Main.parse sample_library (Main.getAuthData sample_library d) 3
    = (Return d2, 6)
    /\ Main.equals d (Main.Instance d2) = true.
Proof.
  destruct (Main_parse_getAuthData_roundtrip sample_library
              {| x509_addr := 1; hex := "3082aa01" |} 2 3)
    as (d2 & Hp & He & _).
  - reflexivity.
  - exists d2. split; [exact Hp | exact He].
Defined.

(** What [getAuthData] of [core/src/main/javascript] writes: with a
    certificate, its encoding and its subject as identity, and never the
    chain; without a certificate, the chain if it is truthy and the
    identity; the identity key always comes last. *)
Theorem Core_getAuthData_fields :
  forall lib (this : Addr) (identity chain : JsValue) (c : X509),
    Core.getAuthData lib (Core.init lib this identity (CertObject c) chain)
    = [(KEY_X509_CERT, JString (base64_of_hex lib (hex c)));
       (KEY_X509_IDENTITY, JString (getSubjectString lib (hex c)))]
    /\ (forall cert, cert_truthy cert = false ->
        Core.getAuthData lib (Core.init lib this identity cert chain)
        = if truthy chain
          then [(KEY_X509_CHAIN, chain); (KEY_X509_IDENTITY, identity)]
          else [(KEY_X509_IDENTITY, identity)]).
Proof.
  intros. split; [reflexivity|].
  intros cert Hc. destruct cert; try discriminate;
    unfold Core.getAuthData; cbn; destruct (truthy chain); reflexivity.
Qed.

Lemma Core_getAuthData_fields_witness :
  Core.getAuthData sample_library
    (Core.init sample_library 1 (JString "device") CertNull (JArray 0 ["MIIB"]))
  = [(KEY_X509_CHAIN, JArray 0 ["MIIB"]); (KEY_X509_IDENTITY, JString "device")].
Proof.
  apply (proj2 (Core_getAuthData_fields sample_library 1 (JString "device")
                  (JArray 0 ["MIIB"]) {| x509_addr := 0; hex := "" |}) CertNull).
  reflexivity.
Defined.

(** In [core/src/main/javascript] an instance built from a chain with a
    [null] certificate and an identity that is not NaN survives the round
    trip: parsing its serialization gives an equal instance with the same
    serialization.  With the identity NaN it does not, because
    [NaN === NaN] is false; built with an [undefined] certificate it does
    not either: the parsed instance holds [null], and [undefined === null]
    is false. *)
Theorem Core_chain_roundtrip :
  forall lib (this h : Addr) (identity chain : JsValue),
    truthy chain = true ->
    (is_NaN identity = false ->
     let d := Core.init lib this identity CertNull chain in
     exists d2,
       Core.parse lib (Core.getAuthData lib d) h = (Return d2, S h)
       /\ Core.equals d (Core.Instance d2) = true
       /\ Core.getAuthData lib d2 = Core.getAuthData lib d)
    /\ (this <> h -> is_NaN identity = true ->
        let d := Core.init lib this identity CertNull chain in
        exists d2,
          Core.parse lib (Core.getAuthData lib d) h = (Return d2, S h)
          /\ Core.equals d (Core.Instance d2) = false
          /\ Core.getAuthData lib d2 = Core.getAuthData lib d)
    /\ (this <> h ->
        let d := Core.init lib this identity CertUndefined chain in
        exists d2,
          Core.parse lib (Core.getAuthData lib d) h = (Return d2, S h)
          /\ Core.equals d (Core.Instance d2) = false).
Proof.
  intros lib this h identity chain Ht. split; [|split].
  - intros Hn. cbv zeta. unfold Core.getAuthData, Core.parse. cbn.
    rewrite Ht. cbn. rewrite Ht. eexists. split; [reflexivity|].
    unfold Core.equals, EntityAuthenticationData_equals. cbn.
    rewrite !strict_equals_refl, Hn, (truthy_not_NaN chain Ht), Ht. cbn.
    split; [destruct (Nat.eqb this h); reflexivity | reflexivity].
  - intros Hne Hn. cbv zeta. unfold Core.getAuthData, Core.parse. cbn.
    rewrite Ht. cbn. rewrite Ht. eexists. split; [reflexivity|].
    unfold Core.equals, EntityAuthenticationData_equals. cbn.
    apply Nat.eqb_neq in Hne. rewrite Hne.
    rewrite !strict_equals_refl, Hn, Ht. cbn. split; reflexivity.
  - intros Hne. cbv zeta. unfold Core.getAuthData, Core.parse. cbn.
    rewrite Ht. cbn. rewrite Ht. eexists. split; [reflexivity|].
    unfold Core.equals. cbn. apply Nat.eqb_neq in Hne. rewrite Hne.
    rewrite andb_false_r. reflexivity.
Qed.

Lemma Core_chain_roundtrip_witness :
  (let d := Core.init sample_library 1 (JString "device") CertNull
              (JArray 0 ["MIIB"]) in
   exists d2,
     Core.parse sample_library (Core.getAuthData sample_library d) 2
     = (Return d2, 3)
     /\ Core.equals d (Core.Instance d2) = true)
  /\ (let d := Core.init sample_library 1 (JNumber NaN) CertNull
                 (JArray 0 ["MIIB"]) in
      exists d2,
        Core.parse sample_library (Core.getAuthData sample_library d) 2
        = (Return d2, 3)
        /\ Core.equals d (Core.Instance d2) = false).
Proof.
  split.
  - destruct (Core_chain_roundtrip sample_library 1 2 (JString "device")
                (JArray 0 ["MIIB"]) eq_refl) as [H _].
    destruct (H eq_refl) as (d2 & Hp & He & _).
    exists d2. split; [exact Hp | exact He].
  - destruct (Core_chain_roundtrip sample_library 1 2 (JNumber NaN)
                (JArray 0 ["MIIB"]) eq_refl) as (_ & H & _).
    destruct (H ltac:(discriminate) eq_refl) as (d2 & Hp & He & _).
    exists d2. split; [exact Hp | exact He].
Defined.

(** In [core/src/main/javascript] an instance built with neither a
    certificate nor a truthy chain serializes to a wire object that [parse]
    rejects with the encoding error. *)
Theorem Core_roundtrip_without_material :
  forall lib (this h : Addr) (identity chain : JsValue) (cert : CertRef),
    cert_truthy cert = false -> truthy chain = false ->
    is_encoding_error
      (fst (Core.parse lib
              (Core.getAuthData lib (Core.init lib this identity cert chain)) h))
    = true.
Proof.
  intros lib this h identity chain cert Hc Ht.
  rewrite (proj2 (Core_getAuthData_fields lib this identity chain
                    {| x509_addr := 0; hex := "" |}) cert Hc), Ht.
  reflexivity.
Qed.

Lemma Core_roundtrip_without_material_witness :
  is_encoding_error
    (fst (Core.parse sample_library
            (Core.getAuthData sample_library
               (Core.init sample_library 1 (JString "device") CertNull Null)) 2))
  = true.
Proof.
  apply (Core_roundtrip_without_material sample_library 1 2 (JString "device")
           Null CertNull); reflexivity.
Defined.

(** [parse] of [core/src/main/javascript] on a wire object whose
    certificate decodes: the instance holds the decoded certificate, its
    subject as identity and no chain, whatever [identity] and [x509chain]
    the wire object carries; three objects are allocated, the first
    [X509] object being dropped. *)
Theorem Core_parse_certificate_wins :
  forall lib (jo : JsObject) (h : Addr) (hx : string),
    truthy (get jo KEY_X509_CERT) = true ->
    readCertPEM lib (get jo KEY_X509_CERT) = Return hx ->
    exists d,
      Core.parse lib jo h = (Return d, S (S (S h)))
      /\ Core.getIdentity d = JString (getSubjectString lib hx)
      /\ Core.x509cert d = CertObject {| x509_addr := S h; hex := hx |}
      /\ Core.x509chain d = Null
      /\ Core.self d = S (S h).
Proof.
  intros lib jo h hx Ht Hr. unfold Core.parse. rewrite Ht.
  unfold bind, try_catch, Core.new_X509_readCertPEM, bind, new, ret, throw,
    Core.new_X509AuthenticationData, bind, new, ret.
  rewrite Hr. eexists. repeat split.
Qed.

Lemma Core_parse_certificate_wins_witness :
  exists d,
    Core.parse sample_library
      [(KEY_X509_CERT, JString "3082aa01");
       (KEY_X509_CHAIN, JArray 0 ["MIIB"]);
       (KEY_X509_IDENTITY, JString "someone else")] 1
    = (Return d, 4)
    /\ Core.getIdentity d = JString "3082aa"
    /\ Core.x509chain d = Null.
Proof.
  destruct (Core_parse_certificate_wins sample_library
      [(KEY_X509_CERT, JString "3082aa01");
       (KEY_X509_CHAIN, JArray 0 ["MIIB"]);
       (KEY_X509_IDENTITY, JString "someone else")] 1 "3082aa01"
      eq_refl eq_refl) as (d & Hp & Hi & _ & Hc & _).
  exists d. split; [exact Hp|]. split; [exact Hi | exact Hc].
Defined.

End X509Extras.

(** ** Message output stream *)

Module MOSExtras.
Import MOS MOSProperties MOSMoreProperties MOSTheorems.
Local Open Scope Z_scope.

(** *** Write *)

Lemma subarray_length (data : list Byte.byte) off len :
  0 <= off -> 0 <= len -> off + len <= Z.of_nat (List.length data) ->
  Z.of_nat (List.length (subarray data off len)) = len.
Proof.
  intros Ho Hl Hs. unfold subarray.
  rewrite length_firstn, length_skipn. lia.
Qed.

Lemma write_accepted w h segments data off len :
  healthy (stream w) -> _closed (stream w) = false ->
  _header (stream w) = Message h -> isHandshake h = false ->
  _currentPayload (stream w) = Some segments ->
  0 <= off -> 0 <= len -> off + len <= Z.of_nat (List.length data) ->
  step w (Invoke (Write data off len))
  = Some (update (set_currentPayload
                    (Some (segments ++ [subarray data off len]))) w,
          [Result (RNumber len)]).
Proof.
  intros (Ha & Ht & He) Hc Hh Hhs Hp Ho Hl Hs.
  pose proof (subarray_length data off len Ho Hl Hs) as Hlen.
  apply Z.ltb_ge in Ho, Hl.
  assert (Hgt : (off + len >? Z.of_nat (List.length data)) = false)
    by (rewrite Z.gtb_ltb; apply Z.ltb_ge; lia).
  unfold_step. cbn. rewrite Ha, Ht, He, Hc, Ho, Hl, Hgt, Hh, Hhs, Hp, Hlen.
  reflexivity.
Qed.

(** On a healthy, open stream with a data-bearing header, [write] with a
    slice inside the array appends exactly that slice to the buffer as one
    segment, reports its length, which is [len], and touches nothing else;
    no chunk is emitted by writing. *)
Theorem write_appends_slice :
  forall w h segments data off len,
    healthy (stream w) -> _closed (stream w) = false ->
    _header (stream w) = Message h -> isHandshake h = false ->
    _currentPayload (stream w) = Some segments ->
    0 <= off -> 0 <= len -> off + len <= Z.of_nat (List.length data) ->
    step w (Invoke (Write data off len))
    = Some (update (set_currentPayload
                      (Some (segments ++ [subarray data off len]))) w,
            [Result (RNumber len)])
    /\ subarray data off len
       = firstn (Z.to_nat len) (skipn (Z.to_nat off) data)
    /\ Z.of_nat (List.length (subarray data off len)) = len.
Proof.
  intros w h segments data off len Hy Hc Hh Hhs Hp Ho Hl Hs.
  split; [|split; [reflexivity|apply subarray_length; assumption]].
  apply (write_accepted w h); assumption.
Qed.

Lemma write_appends_slice_witness :
  step (after sample_stream header_sent)
    (Invoke (Write [Byte.x01; Byte.x02; Byte.x03] 1 2))
  = Some (update (set_currentPayload (Some [[Byte.x02; Byte.x03]]))
            (after sample_stream header_sent),
          [Result (RNumber 2)]).
Proof.
  apply (write_appends_slice (after sample_stream header_sent)
           {| messageId := 7; isHandshake := false;
              messageCapabilities := sample_capabilities |}
           [] [Byte.x01; Byte.x02; Byte.x03] 1 2);
    try reflexivity; try (repeat split); try lia; cbn; lia.
Defined.

(** On a healthy, open stream, whatever its header, a slice outside the
    array is refused with a [RangeError] before the header is looked at,
    and the stream is unchanged: a negative offset, a negative length, or
    an end beyond the array. *)
Theorem write_range_errors :
  forall w data off len,
    healthy (stream w) -> _closed (stream w) = false ->
    (off < 0 \/ len < 0 \/ off + len > Z.of_nat (List.length data)) ->
    exists message,
      step w (Invoke (Write data off len))
      = Some (w, [Error (RangeError message)]).
Proof.
  intros w data off len (Ha & Ht & He) Hc Hr.
  unfold_step. cbn. rewrite Ha, Ht, He, Hc.
  destruct (off <? 0) eqn:E1; [eexists; reflexivity|].
  destruct (len <? 0) eqn:E2; [eexists; reflexivity|].
  destruct (off + len >? Z.of_nat (List.length data)) eqn:E3;
    [eexists; reflexivity|].
  apply Z.ltb_ge in E1, E2. rewrite Z.gtb_ltb in E3. apply Z.ltb_ge in E3.
  lia.
Qed.

Lemma write_range_errors_witness :
  exists message,
    step (after sample_error_stream header_sent) (Invoke (Write two_bytes 1 2))
    = Some (after sample_error_stream header_sent,
            [Error (RangeError message)]).
Proof.
  apply (write_range_errors (after sample_error_stream header_sent)
           two_bytes 1 2); [repeat split | reflexivity |].
  right. right. cbn. lia.
Defined.

(** *** Flush *)

(** On a healthy, ready stream [flush] answers true at once, emitting
    nothing and changing nothing, when the buffer was released, when the
    stream is open and nothing is buffered, and when the header is an
    error header or a handshake header. *)
Theorem flush_without_payload :
  forall w,
    healthy (stream w) -> _ready (stream w) = true ->
    (_currentPayload (stream w) = None
     \/ (_closed (stream w) = false /\ _currentPayload (stream w) = Some [])
     \/ data_bearing (stream w) = false) ->
    step w (Invoke Flush) = Some (w, [Result (RBool true)]).
Proof.
  intros w (Ha & Ht & He) Hr Hcase. unfold data_bearing in Hcase.
  unfold_step. cbn. rewrite Ha, Ht, He, Hr. cbn.
  destruct Hcase as [Hn | [[Hc Hn] | Hd]].
  - rewrite Hn. reflexivity.
  - rewrite Hn, Hc. reflexivity.
  - destruct (_currentPayload (stream w)) as [segments|]; [|reflexivity].
    destruct (negb (_closed (stream w)) && (Z.of_nat (List.length segments) =? 0));
      [reflexivity|].
    destruct (_header (stream w)) as [h|e]; [|reflexivity].
    apply negb_false_iff in Hd. rewrite Hd. reflexivity.
Qed.

Lemma flush_without_payload_witness :
  step (after sample_stream header_sent) (Invoke Flush)
  = Some (after sample_stream header_sent, [Result (RBool true)]).
Proof.
  apply (flush_without_payload (after sample_stream header_sent));
    [repeat split | reflexivity |].
  right. left. split; reflexivity.
Defined.

(** On a healthy, ready stream with a data-bearing header, no operation
    in flight and something to send (buffered segments, or the stream
    closed), a [flush] through a destination that acknowledges emits one
    chunk: the concatenation of the buffered segments, numbered with the
    counter, flagged end-of-message iff the stream is closed, under the
    current algorithm and the header's message id.  The counter goes up by
    one, the buffer is emptied (released if closed), the chunk is cached
    iff caching is on, and the answer is true. *)
Theorem flush_emits_buffer :
  forall w h segments n,
    healthy (stream w) -> _ready (stream w) = true -> pending w = [] ->
    _header (stream w) = Message h -> isHandshake h = false ->
    _currentPayload (stream w) = Some segments ->
    (_closed (stream w) = true \/ segments <> []) ->
    let chunk :=
      {| sequenceNumber := _payloadSequenceNumber (stream w);
         chunk_messageId := messageId h;
         endofmsg := _closed (stream w);
         compressionAlgo := _compressionAlgo (stream w);
         data := List.concat segments |} in
    exists w',
      run w [Invoke Flush; ChunkCreateDone 0 CreateResult;
             PayloadWriteDone 0 (WResult n); PayloadFlushDone 0 (FResult true)]
      = Some (w', [Result (RBool true)])
      /\ emitted (destination w') = emitted (destination w) ++ [chunk]
      /\ _payloadSequenceNumber (stream w')
         = _payloadSequenceNumber (stream w) + 1
      /\ _currentPayload (stream w')
         = (if _closed (stream w) then None else Some [])
      /\ getPayloads (stream w')
         = (if _caching (stream w)
            then getPayloads (stream w) ++ [chunk]
            else getPayloads (stream w))
      /\ pending w' = [].
Proof.
  intros w h segments n Hy Hr Hp Hh Hhs Hb Hsome chunk.
  pose proof Hy as (Ha & Ht & He).
  change [Invoke Flush; ChunkCreateDone 0 CreateResult;
          PayloadWriteDone 0 (WResult n); PayloadFlushDone 0 (FResult true)]
    with ([Invoke Flush; ChunkCreateDone 0 CreateResult]
            ++ [PayloadWriteDone 0 (WResult n); PayloadFlushDone 0 (FResult true)]).
  rewrite run_app, (flush_attempt w h segments Hy Hr Hp Hh Hhs Hb Hsome).
  fold chunk.
  destruct (cached_fields chunk w)
    as (_ & _ & Hn & Hcp & Hcl & _ & Hab & _ & _ & Hca & Hpl).
  cbv zeta in Hn, Hcp, Hcl, Hab, Hca, Hpl.
  cbn [run].
  rewrite (payload_write_acknowledged
             (set_pending [(AwaitPayloadWrite chunk, KFlush)]
                (call_destination (DWrite (PayloadBytes chunk))
                   (cached chunk w)))
             0 chunk KFlush [] n eq_refl)
    by (cbn; rewrite Hab; exact Ha).
  cbn [app step pending set_pending pick].
  unfold payload_flushed, flush_callback, done.
  cbn [stream set_pending call_destination update
       _aborted _closed set_payloadSequenceNumber negb].
  rewrite Hab, Ha, Hcl.
  destruct (_closed (stream w)); cbn [stream update _closed set_currentPayload
                                      set_payloadSequenceNumber];
    (eexists; split; [reflexivity|]);
    cbn [stream destination pending update set_pending call_destination
         _payloadSequenceNumber _currentPayload _payloads getPayloads
         set_currentPayload set_payloadSequenceNumber app];
    rewrite !emitted_app, Hn, Hpl; cbn [emitted];
    rewrite ?app_nil_r;
    (split; [unfold cached; destruct (_caching (stream w)); reflexivity|]);
    repeat split.
Qed.

Lemma flush_emits_buffer_witness :
  exists w',
    run sample_buffering (Invoke Flush :: chunk_sent)
    = Some (w', [Result (RBool true)])
    /\ map data (emitted (destination w')) = [two_bytes]
    /\ _payloadSequenceNumber (stream w') = 2.
Proof.
  destruct (flush_emits_buffer sample_buffering
              {| messageId := 7; isHandshake := false;
                 messageCapabilities := sample_capabilities |}
              [two_bytes] 40)
    as (w' & Hrun & Hem & Hn & _);
    try (vm_compute; repeat split; fail).
  - right. discriminate.
  - exists w'. split; [exact Hrun|]. split.
    + rewrite Hem. vm_compute. reflexivity.
    + rewrite Hn. vm_compute. reflexivity.
Defined.

(** *** Streams that carry no payload *)

(** The callback of a waiter told [false] leaves every invariant that
    speaks of the stream's flags, of the chunks emitted and of operations
    other than a wait for the destination's close. *)
Ltac callback_cases k w :=
  unfold flush_callback; destruct k; cbn;
  [ | destruct (_closeDestination (stream w)) eqn:?; cbn | ].

Lemma step_carries_nothing w ev w' os :
  step w ev = Some (w', os) -> carries_nothing w -> carries_nothing w'.
Proof.
  apply (step_invariant carries_nothing); clear.
  - intros w ev w' os Hev H (Hd & He & Hp & Hk).
    unfold carries_nothing, data_bearing in *.
    not_abort ev Hev; step_cases H; pending_facts;
      try discriminate; try contradiction;
      rewrite ?emitted_app, ?app_nil_r; cbn;
      repeat split; try assumption; try congruence;
      try (rewrite He; reflexivity);
      pending_goal; try exact I.
  - intros w (Hd & He & Hp & Hk). unfold carries_nothing in *. cbn.
    rewrite emitted_app, He. repeat split; try assumption.
    apply not_waiting_Forall. assumption.
  - intros k w (Hd & He & Hp & Hk). unfold carries_nothing in *.
    callback_cases k w; rewrite ?emitted_app, ?He; cbn;
      repeat split; try assumption.
    apply Forall_app; split; [assumption|]. constructor; [exact I|constructor].
Qed.

(** A stream constructed with an error header or a handshake header never
    hands a payload chunk to the destination and never caches one,
    whatever is called and whatever the destination reports. *)
Theorem no_payload_without_data_bearing_header :
  forall pref caps header len evs w os,
    data_bearing (stream (init pref caps header len)) = false ->
    run (init pref caps header len) evs = Some (w, os) ->
    emitted (destination w) = [] /\ getPayloads (stream w) = [].
Proof.
  intros pref caps header len evs w os Hd Hrun.
  assert (H0 : carries_nothing (init pref caps header len))
    by (repeat split; try assumption; constructor).
  destruct (run_invariant carries_nothing step_carries_nothing _ _ _ _ Hrun H0)
    as (_ & He & Hp & _).
  split; assumption.
Qed.

Lemma no_payload_without_data_bearing_header_witness :
  exists w os,
    run sample_error_stream
      (header_sent ++ [Invoke Flush; Invoke Close; Invoke Flush])
    = Some (w, os)
    /\ os = [Result (RBool true); Result (RBool true); Result (RBool true)]
    /\ emitted (destination w) = [].
Proof.
  pose proof (no_payload_without_data_bearing_header first_algorithm
                sample_capabilities (ErrorMessage {| errorCode := 3 |}) 10
                (header_sent ++ [Invoke Flush; Invoke Close; Invoke Flush]))
    as H.
  match type of H with
  | forall w os, _ -> ?r = _ -> _ =>
      let v := eval vm_compute in r in
      match v with
      | Some (?w, ?os) => exists w, os; specialize (H w os eq_refl)
      end
  end.
  split; [vm_compute; reflexivity|]. split; [reflexivity|].
  apply H. vm_compute. reflexivity.
Defined.

(** On a healthy, ready, open stream with an error header or a handshake
    header, with the destination not to be closed, [close] answers true at
    once, marks the stream closed and releases the buffer without a chunk;
    on a healthy stream that is closed [close] answers true and changes
    nothing. *)
Theorem close_without_payload :
  forall w,
    healthy (stream w) ->
    (_closed (stream w) = true ->
     step w (Invoke Close) = Some (w, [Result (RBool true)]))
    /\ (_closed (stream w) = false -> _ready (stream w) = true ->
        data_bearing (stream w) = false ->
        _currentPayload (stream w) <> None ->
        _closeDestination (stream w) = false ->
        step w (Invoke Close)
        = Some (update (set_currentPayload None) (update (set_closed true) w),
                [Result (RBool true)])).
Proof.
  intros w (Ha & Ht & He). unfold data_bearing. split.
  - intros Hc. by_fields.
  - intros Hc Hr Hd Hb Hcd. unfold_step. cbn.
    rewrite Ha, Ht, He, Hc, Hr. cbn. rewrite ?Ha, ?Ht, ?He. cbn.
    destruct (_currentPayload (stream w)) as [segments|]; [|congruence].
    destruct (_header (stream w)) as [h|e]; cbn.
    + apply negb_false_iff in Hd. rewrite Hd. cbn. rewrite Hcd. reflexivity.
    + rewrite Hcd. reflexivity.
Qed.

Lemma close_without_payload_witness :
  step (after sample_error_stream header_sent) (Invoke Close)
  = Some (update (set_currentPayload None)
            (update (set_closed true) (after sample_error_stream header_sent)),
          [Result (RBool true)])
  /\ step sample_closed (Invoke Close)
     = Some (sample_closed, [Result (RBool true)]).
Proof.
  split.
  - destruct (close_without_payload (after sample_error_stream header_sent)
                ltac:(vm_compute; repeat split)) as [_ H].
    apply H; vm_compute; try reflexivity. discriminate.
  - destruct (close_without_payload sample_closed
                ltac:(vm_compute; repeat split)) as [H _].
    apply H. vm_compute. reflexivity.
Defined.

(** *** The header goes first *)

Lemma header_writes_app l1 l2 :
  header_writes (l1 ++ l2) = (header_writes l1 + header_writes l2)%nat.
Proof.
  induction l1 as [|c l1 IH]; [reflexivity|].
  destruct c as [[h|c]| | |]; cbn; rewrite IH; reflexivity.
Qed.

Lemma hd_error_snoc {A} (l : list A) x y :
  hd_error l = Some y -> hd_error (l ++ [x]) = Some y.
Proof. destruct l; [discriminate|]. exact (fun H => H). Qed.

Ltac use_premises :=
  repeat match goal with
    | H : ?P -> _, E : ?P |- _ => specialize (H E)
    | H : ?x <> ?y -> _ |- _ =>
        let Hn := fresh in
        assert (Hn : x <> y) by discriminate; specialize (H Hn)
    | H : _ /\ _ |- _ => destruct H
    end.

Lemma step_header_first w ev w' os :
  step w ev = Some (w', os) -> header_first w -> header_first w'.
Proof.
  apply (step_invariant header_first); clear.
  - intros w ev w' os Hev H (Hh & Hc & Hr & Hd). unfold header_first.
    destruct Hr as [Hr | (Hr & He & Hq & Hio & Hp)].
    + not_abort ev Hev; step_cases H; try discriminate;
        rewrite ?emitted_app, ?header_writes_app, ?app_nil_r; cbn;
        use_premises;
        repeat split; intros; use_premises;
        try assumption; try congruence; try lia; try contradiction;
        try (repeat apply hd_error_snoc; assumption);
        try (left; first [assumption | reflexivity]).
    + not_abort ev Hev; step_cases H; pending_facts; try discriminate;
        try contradiction;
        try match goal with
          | E : negb (_ready (stream _)) = false |- _ =>
              rewrite Hr in E; discriminate E
          end;
        rewrite ?emitted_app, ?header_writes_app, ?app_nil_r; cbn;
        use_premises;
        repeat split; intros; use_premises;
        try assumption; try congruence; try lia; try contradiction;
        try (repeat apply hd_error_snoc; assumption);
        try (left; reflexivity);
        try (right; repeat split; try assumption; try congruence;
             rewrite ?emitted_app, ?He; try reflexivity;
             pending_goal; exact I).
  - intros w (Hh & Hc & Hr & Hd). unfold header_first. cbn.
    rewrite emitted_app, header_writes_app, app_nil_r. cbn.
    split; [apply hd_error_snoc; assumption|]. split; [lia|].
    split; [|assumption].
    destruct Hr as [Hr | (Hr & He & Hq & Hio & Hp)]; [left; assumption|].
    right. repeat split; try assumption.
    apply not_waiting_Forall. assumption.
  - intros k w (Hh & Hc & Hr & Hd). unfold header_first.
    callback_cases k w;
      rewrite ?emitted_app, ?header_writes_app, ?app_nil_r; cbn;
      (split; [try apply hd_error_snoc; assumption|]);
      (split; [lia|]); (split; [|assumption]);
      (destruct Hr as [Hr | (Hr & He & Hq & Hio & Hp)]; [left; assumption|]);
      right; repeat split; try assumption.
    apply Forall_app; split; [assumption|]. constructor; [exact I|constructor].
Qed.

Lemma init_header_first pref caps header len :
  header_first (init pref caps header len).
Proof.
  unfold header_first. cbn. split; [reflexivity|]. split; [reflexivity|].
  split.
  - right. repeat split; try reflexivity; try discriminate. constructor.
  - intros _. repeat split.
Qed.

Lemma run_header pref caps header len evs w os :
  run (init pref caps header len) evs = Some (w, os) ->
  _header (stream w) = header.
Proof.
  intros Hrun.
  apply (run_invariant (fun w => _header (stream w) = header)) with
    (evs := evs) (w := init pref caps header len) (os := os);
    [|assumption|reflexivity].
  clear. apply (step_invariant (fun w => _header (stream w) = header)).
  - intros w ev w' os Hev H Hw.
    not_abort ev Hev; step_cases H; first [assumption | congruence].
  - intros w H. exact H.
  - intros k w H. callback_cases k w; assumption.
Qed.

(** The header is the first thing handed to the destination and is handed
    over once; no payload chunk is handed over before the header
    transmission has completed and the stream is ready. *)
Theorem header_goes_first :
  forall pref caps header len evs w os,
    run (init pref caps header len) evs = Some (w, os) ->
    hd_error (destination w) = Some (DWrite (HeaderBytes header))
    /\ header_writes (destination w) = 1%nat
    /\ (_ready (stream w) = false -> emitted (destination w) = []).
Proof.
  intros pref caps header len evs w os Hrun.
  pose proof (run_header _ _ _ _ _ _ _ Hrun) as Hh.
  destruct (run_invariant header_first step_header_first _ _ _ _ Hrun
              (init_header_first pref caps header len))
    as (H1 & H2 & H3 & _).
  rewrite Hh in H1. split; [assumption|]. split; [assumption|].
  intros Hr. destruct H3 as [H3 | (_ & H3 & _)]; [congruence|assumption].
Qed.

Lemma header_goes_first_witness :
  exists w os,
    run sample_stream [Invoke (Write two_bytes 0 2); Invoke Flush]
    = Some (w, os)
    /\ os = [Result (RNumber 2)]
    /\ pending w = [(AwaitReady, KFlush)]
    /\ destination w = [DWrite (HeaderBytes sample_header)].
Proof.
  pose proof (header_goes_first first_algorithm sample_capabilities
                sample_header 10
                [Invoke (Write two_bytes 0 2); Invoke Flush]) as H.
  match type of H with
  | forall w os, ?r = _ -> _ =>
      let v := eval vm_compute in r in
      match v with
      | Some (?w, ?os) => exists w, os; specialize (H w os)
      end
  end.
  destruct (H ltac:(vm_compute; reflexivity)) as (H1 & _ & _).
  split; [vm_compute; reflexivity|]. split; [reflexivity|].
  split; [reflexivity|]. vm_compute. reflexivity.
Defined.

(** *** Flags stay *)

Lemma step_flags_kept w0 w ev w' os :
  step w ev = Some (w', os) -> flags_kept w0 w -> flags_kept w0 w'.
Proof.
  apply (step_invariant (flags_kept w0)); clear.
  - intros w ev w' os Hev H (Hc & Ha & Hr & Hd). unfold flags_kept.
    not_abort ev Hev; step_cases H; try discriminate;
      repeat split; intros; use_premises; try congruence; auto.
  - intros w (Hc & Ha & Hr & Hd). unfold flags_kept. cbn.
    repeat split; intros; use_premises; try congruence; auto.
  - intros k w (Hc & Ha & Hr & Hd). unfold flags_kept.
    callback_cases k w; repeat split; intros; use_premises;
      try congruence; auto.
Qed.

Lemma run_flags_stay w0 evs w os :
  run w0 evs = Some (w, os) -> flags_kept w0 w.
Proof.
  intros Hrun.
  apply (run_invariant (flags_kept w0) (step_flags_kept w0))
    with (evs := evs) (w := w0) (os := os); [assumption|].
  unfold flags_kept. repeat split; intros; auto.
Qed.

(** What the stream records stays: along any continuation of any run of a
    stream, closed stays closed, aborted stays aborted, a timeout of the
    header transmission stays recorded and so does its error. *)
Theorem flags_are_kept :
  forall pref caps header len evs1 evs2 w1 w2 os1 os2,
    run (init pref caps header len) evs1 = Some (w1, os1) ->
    run w1 evs2 = Some (w2, os2) ->
    (_closed (stream w1) = true -> _closed (stream w2) = true)
    /\ (_aborted (stream w1) = true -> _aborted (stream w2) = true)
    /\ (_timedout (stream w1) = true -> _timedout (stream w2) = true)
    /\ (forall e, _errored (stream w1) = Some e ->
                  _errored (stream w2) = Some e).
Proof.
  intros pref caps header len evs1 evs2 w1 w2 os1 os2 H1 H2.
  destruct (run_invariant header_first step_header_first _ _ _ _ H1
              (init_header_first pref caps header len))
    as (_ & _ & _ & Hd).
  destruct (run_flags_stay w1 evs2 w2 os2 H2) as (Hc & Ha & _ & Hk).
  split; [assumption|]. split; [assumption|].
  destruct (header_io w1) eqn:Eh.
  - destruct Hd as (_ & Ht & He); [discriminate|].
    split; intros; congruence.
  - destruct Hd as (_ & Ht & He); [discriminate|].
    split; intros; congruence.
  - destruct (Hk eq_refl) as (_ & Ht & He).
    split; intros; congruence.
Qed.

Lemma flags_are_kept_witness :
  exists w1 w2 os1 os2,
    run sample_stream [HeaderWriteDone WTimeout; Invoke Close] = Some (w1, os1)
    /\ run w1 [Invoke Abort; Invoke Flush; Invoke (Write two_bytes 0 2)]
       = Some (w2, os2)
    /\ os1 = [Timeout]
    /\ _timedout (stream w1) = true
    /\ _timedout (stream w2) = true
    /\ _aborted (stream w2) = true.
Proof.
  pose proof (flags_are_kept first_algorithm sample_capabilities sample_header
                10 [HeaderWriteDone WTimeout; Invoke Close]
                [Invoke Abort; Invoke Flush; Invoke (Write two_bytes 0 2)])
    as H.
  match type of H with
  | forall w1 w2 os1 os2, ?r = _ -> _ =>
      let v := eval vm_compute in r in
      match v with
      | Some (?w1, ?os1) =>
          exists w1;
          let v2 := eval vm_compute in
                      (run w1 [Invoke Abort; Invoke Flush;
                               Invoke (Write two_bytes 0 2)]) in
          match v2 with
          | Some (?w2, ?os2) =>
              exists w2, os1, os2; specialize (H w1 w2 os1 os2)
          end
      end
  end.
  destruct (H ltac:(vm_compute; reflexivity) ltac:(vm_compute; reflexivity))
    as (_ & _ & Ht & _).
  split; [vm_compute; reflexivity|]. split; [vm_compute; reflexivity|].
  split; [reflexivity|]. split; [reflexivity|].
  split; [apply Ht; reflexivity|]. reflexivity.
Defined.

(** A failure of the header transmission is replayed: in every state a
    stream reaches, if the timed-out flag or an error is recorded the
    stream is ready, so that, unless it was aborted, [write], [close] and
    [flush] report at once: the timeout, or else the recorded error.  A
    header written short and a header write that timed out set the
    timed-out flag; a header write that failed records its error. *)
Theorem header_failure_is_replayed :
  forall pref caps header len,
    (forall evs w os data off n,
        run (init pref caps header len) evs = Some (w, os) ->
        _aborted (stream w) = false ->
        (_timedout (stream w) = true ->
         step w (Invoke (Write data off n)) = Some (w, [Timeout])
         /\ step w (Invoke Close) = Some (w, [Timeout])
         /\ step w (Invoke Flush) = Some (w, [Timeout]))
        /\ (forall e,
               _timedout (stream w) = false -> _errored (stream w) = Some e ->
               step w (Invoke (Write data off n)) = Some (w, [Error e])
               /\ step w (Invoke Close) = Some (w, [Error e])
               /\ step w (Invoke Flush) = Some (w, [Error e])))
    /\ (forall n, n < len ->
        exists w,
          step (init pref caps header len) (HeaderWriteDone (WResult n))
          = Some (w, [])
          /\ _timedout (stream w) = true)
    /\ (exists w,
           step (init pref caps header len) (HeaderWriteDone WTimeout)
           = Some (w, [])
           /\ _timedout (stream w) = true)
    /\ (forall e, exists w,
           step (init pref caps header len) (HeaderWriteDone (WError e))
           = Some (w, [])
           /\ _errored (stream w) = Some e).
Proof.
  intros pref caps header len. split; [|split; [|split]].
  - intros evs w os data off n Hrun Ha.
    destruct (run_invariant header_first step_header_first _ _ _ _ Hrun
                (init_header_first pref caps header len))
      as (_ & _ & Hr & Hd).
    assert (Hready : _timedout (stream w) = true
                     \/ _errored (stream w) <> None ->
                     _ready (stream w) = true).
    { intros Hf. destruct Hr as [Hr | (_ & _ & _ & Hn & _)]; [assumption|].
      destruct (Hd Hn) as (_ & Ht & He).
      destruct Hf; congruence. }
    split.
    + intros Ht. assert (Hy := Hready (or_introl Ht)).
      repeat split; by_fields.
    + intros e Ht He.
      assert (Hy : _ready (stream w) = true)
        by (apply Hready; right; congruence).
      repeat split; by_fields.
  - intros n Hn. apply Z.ltb_lt in Hn. unfold step. cbn [header_io init].
    unfold header_written. cbn [stream init _aborted headerLength].
    rewrite Hn. cbn. eexists. split; reflexivity.
  - cbn. eexists. split; reflexivity.
  - intros e. cbn. eexists. split; reflexivity.
Qed.

Lemma header_failure_is_replayed_witness :
  exists w,
    step sample_stream (HeaderWriteDone (WResult 4)) = Some (w, [])
    /\ _timedout (stream w) = true
    /\ step w (Invoke (Write two_bytes 0 2)) = Some (w, [Timeout])
    /\ step w (Invoke Flush) = Some (w, [Timeout]).
Proof.
  destruct (header_failure_is_replayed first_algorithm sample_capabilities
              sample_header 10) as (Hall & Hshort & _).
  destruct (Hshort 4 ltac:(lia)) as (w & Hs & Ht).
  exists w. split; [exact Hs|]. split; [exact Ht|].
  assert (Hrun : run sample_stream [HeaderWriteDone (WResult 4)] = Some (w, [])).
  { cbn [run]. unfold sample_stream. rewrite Hs. reflexivity. }
  assert (Ha : _aborted (stream w) = false).
  { vm_compute in Hs. injection Hs as <-. reflexivity. }
  destruct (Hall [HeaderWriteDone (WResult 4)] w [] two_bytes 0 2 Hrun Ha)
    as [Htimed _].
  destruct (Htimed Ht) as (Hw & _ & Hf).
  split; [exact Hw | exact Hf].
Defined.

(** *** The destination is closed on request only *)

Lemma step_destination_open w ev w' os :
  close_not_requested ev = true ->
  step w ev = Some (w', os) -> destination_open w -> destination_open w'.
Proof.
  apply (step_invariant_guarded (fun _ => close_not_requested)
           destination_open); clear.
  - intros w ev w' os Hev Hsel H (Hc & Hn & Hp). unfold destination_open.
    not_abort ev Hev; step_cases H; pending_facts;
      try discriminate; try contradiction;
      rewrite ?in_app_iff; cbn;
      repeat split; try assumption; try congruence;
      try (intros [?|[?|[]]]; [contradiction|discriminate]);
      try (intros [[?|[?|[]]]|[?|[]]]; try contradiction; discriminate);
      pending_goal; try exact I;
      try match goal with
        | |- ?b = false => destruct b; [discriminate|reflexivity]
        end.
  - intros w (Hc & Hn & Hp). unfold destination_open. cbn.
    rewrite in_app_iff. cbn. repeat split; try assumption.
    + intros [?|[?|[]]]; [contradiction|discriminate].
    + apply not_waiting_Forall. assumption.
  - intros k w (Hc & Hn & Hp). unfold destination_open, flush_callback.
    destruct k; cbn; rewrite ?Hc; cbn; repeat split; assumption.
Qed.

(** Unless [closeDestination(true)] is called, the stream never closes its
    destination, whatever else is called and whatever the destination
    reports. *)
Theorem destination_closed_on_request_only :
  forall pref caps header len evs w os,
    forallb close_not_requested evs = true ->
    run (init pref caps header len) evs = Some (w, os) ->
    ~ In DClose (destination w).
Proof.
  intros pref caps header len evs w os Hsel Hrun.
  assert (H0 : destination_open (init pref caps header len)).
  { unfold destination_open. cbn. repeat split; try reflexivity.
    - intros [H|[]]; discriminate.
    - constructor. }
  apply (run_invariant_on close_not_requested destination_open
           (fun w ev w' o Hs => step_destination_open w ev w' o Hs)
           _ _ _ _ Hsel Hrun H0).
Qed.

Lemma destination_closed_on_request_only_witness :
  ~ In DClose (destination sample_closed)
  /\ In DClose
       (destination
          (after sample_stream
             (header_sent ++ Invoke (CloseDestination true)
                :: Invoke Close :: chunk_sent))).
Proof.
  split.
  - apply (destination_closed_on_request_only first_algorithm
             sample_capabilities sample_header 10
             (header_sent ++ Invoke Close :: chunk_sent)
             sample_closed [Result (RBool true)]);
      vm_compute; reflexivity.
  - vm_compute. tauto.
Defined.

(** With [closeDestination(true)], when the flush of [close] is
    acknowledged the buffer is released, the destination is asked to close
    and the caller is told what the destination then reports. *)
Theorem close_hands_over_to_destination :
  forall w i c others o,
    pick i (pending w) = Some ((AwaitPayloadFlush c, KClose), others) ->
    _aborted (stream w) = false -> _closed (stream w) = true ->
    _closeDestination (stream w) = true ->
    exists w1 w2,
      step w (PayloadFlushDone i (FResult true)) = Some (w1, [])
      /\ destination w1 = destination w ++ [DClose]
      /\ _currentPayload (stream w1) = None
      /\ pending w1 = others ++ [(AwaitDestinationClose, KFlush)]
      /\ step w1 (DestinationCloseDone (List.length others) o) = Some (w2, [o])
      /\ pending w2 = others.
Proof.
  intros w i c others o Hp Ha Hc Hcd.
  unfold_step. cbn. rewrite Hp. cbn. rewrite Ha. cbn. rewrite Hc. cbn.
  rewrite Hcd. cbn. eexists. eexists. split; [reflexivity|]. cbn.
  rewrite pick_last. repeat split.
Qed.

Lemma close_hands_over_to_destination_witness :
  let w := after sample_stream
             (header_sent ++
              [Invoke (CloseDestination true); Invoke Close;
               ChunkCreateDone 0 CreateResult;
               PayloadWriteDone 0 (WResult 40)]) in
  exists w1 w2,
    step w (PayloadFlushDone 0 (FResult true)) = Some (w1, [])
    /\ step w1 (DestinationCloseDone 0 Timeout) = Some (w2, [Timeout])
    /\ In DClose (destination w1).
Proof.
  cbv zeta.
  destruct (close_hands_over_to_destination
              (after sample_stream
                 (header_sent ++
                  [Invoke (CloseDestination true); Invoke Close;
                   ChunkCreateDone 0 CreateResult;
                   PayloadWriteDone 0 (WResult 40)]))
              0%nat
              {| sequenceNumber := 1; chunk_messageId := 7; endofmsg := true;
                 compressionAlgo := Some GZIP; data := [] |}
              [] Timeout)
    as (w1 & w2 & H1 & Hd & _ & _ & H2 & _);
    try (vm_compute; reflexivity).
  exists w1, w2. split; [exact H1|]. split; [exact H2|].
  rewrite Hd. apply in_or_app. right. left. reflexivity.
Defined.

(** *** After the end *)

Lemma step_sealed w0 w ev w' os :
  step w ev = Some (w', os) ->
  sealed w /\ emitted (destination w) = emitted (destination w0) ->
  sealed w' /\ emitted (destination w') = emitted (destination w0).
Proof.
  apply (step_invariant
           (fun w => sealed w
                     /\ emitted (destination w) = emitted (destination w0)));
    clear.
  - intros w ev w' os Hev H ((Hb & Hp) & He). unfold sealed.
    not_abort ev Hev; step_cases H; pending_facts;
      try discriminate; try contradiction;
      rewrite ?emitted_app, ?app_nil_r; cbn; rewrite ?app_nil_r;
      repeat split; try assumption; try congruence;
      pending_goal; try exact I.
  - intros w ((Hb & Hp) & He). unfold sealed. cbn.
    rewrite emitted_app, app_nil_r. repeat split; try assumption.
    apply not_waiting_Forall. assumption.
  - intros k w ((Hb & Hp) & He). unfold sealed.
    callback_cases k w; rewrite ?emitted_app, ?app_nil_r;
      repeat split; try assumption.
    apply Forall_app; split; [assumption|]. constructor; [exact I|constructor].
Qed.

(** Once the buffer has been released (a close completed) and no chunk is
    in the making, the stream never hands another chunk to the
    destination, whatever is called. *)
Theorem nothing_after_release :
  forall evs w w' os,
    _currentPayload (stream w) = None ->
    Forall idle (pending w) ->
    run w evs = Some (w', os) ->
    emitted (destination w') = emitted (destination w)
    /\ _currentPayload (stream w') = None.
Proof.
  intros evs w w' os Hb Hp Hrun.
  destruct (run_invariant
              (fun x => sealed x
                        /\ emitted (destination x) = emitted (destination w))
              (step_sealed w) evs w w' os Hrun
              (conj (conj Hb Hp) eq_refl)) as ((Hb' & _) & He).
  split; assumption.
Qed.

Lemma nothing_after_release_witness :
  exists w' os,
    run sample_closed [Invoke Flush; Invoke Close; Invoke (Write two_bytes 0 2)]
    = Some (w', os)
    /\ emitted (destination w') = emitted (destination sample_closed)
    /\ List.length (emitted (destination sample_closed)) = 1%nat.
Proof.
  pose proof (nothing_after_release
                [Invoke Flush; Invoke Close; Invoke (Write two_bytes 0 2)]
                sample_closed) as H.
  match type of H with
  | forall w' os, _ -> _ -> ?r = _ -> _ =>
      let v := eval vm_compute in r in
      match v with
      | Some (?w, ?os) => exists w, os; specialize (H w os)
      end
  end.
  split; [vm_compute; reflexivity|]. split; [|reflexivity].
  apply H; [reflexivity | vm_compute; constructor | vm_compute; reflexivity].
Defined.

(** *** What a chunk carries *)

Lemma step_stamped h w ev w' os :
  step w ev = Some (w', os) -> stamped h w -> stamped h w'.
Proof.
  apply (step_invariant (stamped h)); clear.
  - intros w ev w' os Hev H (Hh & Hf & Hn & Hp). unfold stamped.
    not_abort ev Hev; step_cases H; pending_facts; try discriminate;
      rewrite ?emitted_app, ?app_nil_r; cbn;
      use_premises;
      repeat split; try assumption; try congruence; try lia;
      try (apply Forall_app; split; [assumption|];
           constructor; [split; assumption|constructor]);
      pending_goal; try exact I;
      try (split; [congruence|assumption]).
  - intros w (Hh & Hf & Hn & Hp). unfold stamped. cbn.
    rewrite emitted_app, app_nil_r. repeat split; try assumption.
    apply not_waiting_Forall. assumption.
  - intros k w (Hh & Hf & Hn & Hp). unfold stamped.
    callback_cases k w; rewrite ?emitted_app, ?app_nil_r;
      repeat split; try assumption.
    apply Forall_app; split; [assumption|]. constructor; [exact I|constructor].
Qed.

(** Every chunk a stream hands to its destination carries the message id
    of the stream's header and a sequence number of at least 1. *)
Theorem chunks_carry_message_id :
  forall pref caps h len evs w os,
    run (init pref caps (Message h) len) evs = Some (w, os) ->
    Forall (fun c => chunk_messageId c = messageId h /\ 1 <= sequenceNumber c)
      (emitted (destination w)).
Proof.
  intros pref caps h len evs w os Hrun.
  assert (H0 : stamped h (init pref caps (Message h) len)).
  { unfold stamped. cbn. repeat split; try constructor; lia. }
  apply (run_invariant (stamped h) (step_stamped h) _ _ _ _ Hrun H0).
Qed.

Lemma chunks_carry_message_id_witness :
  Forall (fun c => chunk_messageId c = 7 /\ 1 <= sequenceNumber c)
    (emitted (destination sample_closed))
  /\ List.length (emitted (destination sample_closed)) = 1%nat.
Proof.
  split; [|reflexivity].
  apply (chunks_carry_message_id first_algorithm sample_capabilities
           {| messageId := 7; isHandshake := false;
              messageCapabilities := sample_capabilities |} 10
           (header_sent ++ Invoke Close :: chunk_sent)
           sample_closed [Result (RBool true)]).
  vm_compute. reflexivity.
Defined.

(** *** A failed flush keeps the data *)

(** A flush whose chunk is not acknowledged, on a healthy, ready stream
    with a data-bearing header, something to send and no other operation
    in flight.  When the chunk factory fails nothing has changed at all.
    When the chunk is handed over and its write or its flush times out,
    fails or is unsuccessful, the caller is told the timeout or the error,
    and the buffer and the counter are as they were before the flush, so
    that a later flush sends the same data under the same number; but the
    chunk is in the log of the destination and, when caching is on, in the
    cache.  An error that is an [MslException] is wrapped in an
    [MslIoException] that names the sequence number; any other error is
    passed on as it is. *)
Theorem failed_flush_keeps_buffer :
  forall w h segments,
    healthy (stream w) -> _ready (stream w) = true -> pending w = [] ->
    _header (stream w) = Message h -> isHandshake h = false ->
    _currentPayload (stream w) = Some segments ->
    (_closed (stream w) = true \/ segments <> []) ->
    let chunk :=
      {| sequenceNumber := _payloadSequenceNumber (stream w);
         chunk_messageId := messageId h;
         endofmsg := _closed (stream w);
         compressionAlgo := _compressionAlgo (stream w);
         data := List.concat segments |} in
    let report e :=
      Error (if instanceof_MslException e
             then MslIoExceptionCausedBy
                    (ErrorEncodingPayloadChunk
                       (_payloadSequenceNumber (stream w))) e
             else e) in
    let kept w' :=
      _currentPayload (stream w') = Some segments
      /\ _payloadSequenceNumber (stream w') = _payloadSequenceNumber (stream w)
      /\ pending w' = []
      /\ emitted (destination w') = emitted (destination w) ++ [chunk]
      /\ getPayloads (stream w')
         = (if _caching (stream w)
            then getPayloads (stream w) ++ [chunk]
            else getPayloads (stream w)) in
    (forall e,
        run w [Invoke Flush; ChunkCreateDone 0 (CreateError e)]
        = Some (w, [report e]))
    /\ (exists w',
           run w [Invoke Flush; ChunkCreateDone 0 CreateResult;
                  PayloadWriteDone 0 WTimeout] = Some (w', [Timeout])
           /\ kept w')
    /\ (forall e, exists w',
           run w [Invoke Flush; ChunkCreateDone 0 CreateResult;
                  PayloadWriteDone 0 (WError e)] = Some (w', [report e])
           /\ kept w')
    /\ (forall n, exists w',
           run w [Invoke Flush; ChunkCreateDone 0 CreateResult;
                  PayloadWriteDone 0 (WResult n); PayloadFlushDone 0 FTimeout]
           = Some (w', [Timeout])
           /\ kept w')
    /\ (forall n, exists w',
           run w [Invoke Flush; ChunkCreateDone 0 CreateResult;
                  PayloadWriteDone 0 (WResult n);
                  PayloadFlushDone 0 (FResult false)]
           = Some (w', [Timeout])
           /\ kept w')
    /\ (forall n e, exists w',
           run w [Invoke Flush; ChunkCreateDone 0 CreateResult;
                  PayloadWriteDone 0 (WResult n); PayloadFlushDone 0 (FError e)]
           = Some (w', [report e])
           /\ kept w').
Proof.
  intros w h segments Hy Hr Hp Hh Hhs Hb Hsome chunk report kept.
  assert (Hkept : forall flushed, kept (attempted chunk flushed w)).
  { intros flushed. subst kept. cbv beta.
    destruct (attempted_stream chunk flushed w) as [Hs He].
    destruct (cached_fields chunk w)
      as (_ & _ & Hn & Hcp & _ & _ & _ & _ & _ & _ & Hpl).
    cbv zeta in Hn, Hcp, Hpl. unfold getPayloads. rewrite Hs, Hcp, Hn, Hpl.
    repeat split; assumption. }
  split; [|split; [|split; [|split; [|split]]]].
  - intros e. cbn [run].
    rewrite (flush_starts w h segments Hy Hr Hh Hhs Hb Hsome), Hp.
    cbn [app step pending set_pending pick].
    unfold chunk_created, flush_callback, done, encoding_error. cbn.
    subst report. cbv beta. do 3 f_equal.
    destruct w; cbn in *. subst. reflexivity.
  - exists (attempted chunk false w). split; [|apply Hkept].
    apply (flush_write_fails w h segments WTimeout Hy Hr Hp Hh Hhs Hb Hsome).
    discriminate.
  - intros e. exists (attempted chunk false w). split; [|apply Hkept].
    apply (flush_write_fails w h segments (WError e)
             Hy Hr Hp Hh Hhs Hb Hsome).
    discriminate.
  - intros n. exists (attempted chunk true w). split; [|apply Hkept].
    apply (flush_flush_fails w h segments n FTimeout
             Hy Hr Hp Hh Hhs Hb Hsome).
    discriminate.
  - intros n. exists (attempted chunk true w). split; [|apply Hkept].
    apply (flush_flush_fails w h segments n (FResult false)
             Hy Hr Hp Hh Hhs Hb Hsome).
    discriminate.
  - intros n e. exists (attempted chunk true w). split; [|apply Hkept].
    apply (flush_flush_fails w h segments n (FError e)
             Hy Hr Hp Hh Hhs Hb Hsome).
    discriminate.
Qed.

Lemma failed_flush_keeps_buffer_witness :
  exists w',
    run sample_buffering
      [Invoke Flush; ChunkCreateDone 0 CreateResult;
       PayloadWriteDone 0 (WError (ForeignError true 1))]
    = Some (w', [Error (MslIoExceptionCausedBy (ErrorEncodingPayloadChunk 1)
                          (ForeignError true 1))])
    /\ _currentPayload (stream w') = Some [two_bytes]
    /\ _payloadSequenceNumber (stream w') = 1
    /\ List.length (getPayloads (stream sample_buffering)) = 0%nat
    /\ List.length (getPayloads (stream w')) = 1%nat
    /\ List.length (destination sample_buffering) = 2%nat
    /\ List.length (destination w') = 3%nat.
Proof.
  destruct (failed_flush_keeps_buffer sample_buffering
              {| messageId := 7; isHandshake := false;
                 messageCapabilities := sample_capabilities |}
              [two_bytes])
    as (_ & _ & Hw & _);
    try (vm_compute; repeat split; fail).
  - right. discriminate.
  - destruct (Hw (ForeignError true 1)) as (w' & Hrun & Hb & Hn & _ & _ & Hc).
    exists w'. split; [exact Hrun|]. split; [exact Hb|]. split; [exact Hn|].
    split; [reflexivity|]. split; [rewrite Hc; reflexivity|].
    split; [reflexivity|].
    vm_compute in Hrun. injection Hrun as <-. reflexivity.
Defined.

(** After a flush whose chunk the destination took but did not
    acknowledge (the flush of the destination timed out), the next flush
    hands over the very same chunk again: same number, same data, same
    flag. *)
Theorem retry_resends_same_chunk :
  forall w h segments n,
    healthy (stream w) -> _ready (stream w) = true -> pending w = [] ->
    _header (stream w) = Message h -> isHandshake h = false ->
    _currentPayload (stream w) = Some segments ->
    (_closed (stream w) = true \/ segments <> []) ->
    let chunk :=
      {| sequenceNumber := _payloadSequenceNumber (stream w);
         chunk_messageId := messageId h;
         endofmsg := _closed (stream w);
         compressionAlgo := _compressionAlgo (stream w);
         data := List.concat segments |} in
    exists w',
      run w [Invoke Flush; ChunkCreateDone 0 CreateResult;
             PayloadWriteDone 0 (WResult n); PayloadFlushDone 0 FTimeout;
             Invoke Flush; ChunkCreateDone 0 CreateResult]
      = Some (w', [Timeout])
      /\ emitted (destination w') = emitted (destination w) ++ [chunk; chunk]
      /\ _payloadSequenceNumber (stream w') = _payloadSequenceNumber (stream w)
      /\ _currentPayload (stream w') = Some segments.
Proof.
  intros w h segments n Hy Hr Hp Hh Hhs Hb Hsome chunk.
  change [Invoke Flush; ChunkCreateDone 0 CreateResult;
          PayloadWriteDone 0 (WResult n); PayloadFlushDone 0 FTimeout;
          Invoke Flush; ChunkCreateDone 0 CreateResult]
    with ([Invoke Flush; ChunkCreateDone 0 CreateResult;
           PayloadWriteDone 0 (WResult n); PayloadFlushDone 0 FTimeout]
            ++ [Invoke Flush; ChunkCreateDone 0 CreateResult]).
  rewrite run_app,
    (flush_flush_fails w h segments n FTimeout Hy Hr Hp Hh Hhs Hb Hsome)
    by discriminate.
  fold chunk.
  destruct (attempted_ready chunk true w h segments Hy Hr Hh Hb Hsome)
    as (Hy' & Hr' & Hp' & Hh' & Hb' & Hsome' & Hn' & Hcl' & Hal').
  rewrite (flush_attempt _ h segments Hy' Hr' Hp' Hh' Hhs Hb' Hsome').
  rewrite Hn', Hcl', Hal'. fold chunk.
  eexists. split; [reflexivity|].
  destruct (attempted_stream chunk true w) as [_ He].
  destruct (cached_fields chunk (attempted chunk true w))
    as (_ & _ & Hn & Hcp & _).
  cbv zeta in Hn, Hcp.
  cbn [destination stream set_pending call_destination].
  rewrite emitted_app.
  replace (destination (cached chunk (attempted chunk true w)))
    with (destination (attempted chunk true w))
    by (unfold cached; destruct (_caching _); reflexivity).
  rewrite He, <- app_assoc, Hn, Hcp.
  split; [reflexivity|]. split; assumption.
Qed.

Lemma retry_resends_same_chunk_witness :
  exists w',
    run sample_buffering
      [Invoke Flush; ChunkCreateDone 0 CreateResult;
       PayloadWriteDone 0 (WResult 40); PayloadFlushDone 0 FTimeout;
       Invoke Flush; ChunkCreateDone 0 CreateResult]
    = Some (w', [Timeout])
    /\ map sequenceNumber (emitted (destination w')) = [1; 1]
    /\ map data (emitted (destination w')) = [two_bytes; two_bytes].
Proof.
  destruct (retry_resends_same_chunk sample_buffering
              {| messageId := 7; isHandshake := false;
                 messageCapabilities := sample_capabilities |}
              [two_bytes] 40)
    as (w' & Hrun & Hem & _);
    try (vm_compute; repeat split; fail).
  - right. discriminate.
  - exists w'. split; [exact Hrun|].
    rewrite Hem. split; reflexivity.
Defined.

(** *** Writing while a flush is in flight *)

(** Bytes written while a flush waits for the destination are accepted
    and then dropped: when the flush is acknowledged the buffer is reset,
    and the bytes are in no chunk. *)
Theorem write_during_flush_is_dropped :
  forall w h i c others segments data off len,
    healthy (stream w) -> _closed (stream w) = false ->
    _header (stream w) = Message h -> isHandshake h = false ->
    _currentPayload (stream w) = Some segments ->
    pick i (pending w) = Some ((AwaitPayloadFlush c, KFlush), others) ->
    0 <= off -> 0 <= len -> off + len <= Z.of_nat (List.length data) ->
    exists w',
      run w [Invoke (Write data off len); PayloadFlushDone i (FResult true)]
      = Some (w', [Result (RNumber len); Result (RBool true)])
      /\ _currentPayload (stream w') = Some []
      /\ emitted (destination w') = emitted (destination w)
      /\ pending w' = others.
Proof.
  intros w h i c others segments data off len Hy Hc Hh Hhs Hb Hp Ho Hl Hs.
  pose proof (write_accepted w h segments data off len Hy Hc Hh Hhs Hb
                Ho Hl Hs) as Hw.
  destruct Hy as (Ha & Ht & He).
  unfold run. rewrite Hw.
  unfold step. cbn [pending update]. rewrite Hp.
  unfold payload_flushed, flush_callback, done. cbn. rewrite Ha, Hc. cbn.
  eexists. split; [reflexivity|]. cbn. repeat split.
Qed.

Lemma write_during_flush_is_dropped_witness :
  let w := after sample_buffering
             [Invoke Flush; ChunkCreateDone 0 CreateResult;
              PayloadWriteDone 0 (WResult 40)] in
  exists w',
    run w [Invoke (Write two_bytes 0 2); PayloadFlushDone 0 (FResult true)]
    = Some (w', [Result (RNumber 2); Result (RBool true)])
    /\ _currentPayload (stream w') = Some []
    /\ List.length (emitted (destination w')) = 1%nat.
Proof.
  cbv zeta.
  destruct (write_during_flush_is_dropped
              (after sample_buffering
                 [Invoke Flush; ChunkCreateDone 0 CreateResult;
                  PayloadWriteDone 0 (WResult 40)])
              {| messageId := 7; isHandshake := false;
                 messageCapabilities := sample_capabilities |}
              0%nat
              {| sequenceNumber := 1; chunk_messageId := 7; endofmsg := false;
                 compressionAlgo := Some GZIP; data := two_bytes |}
              [] [two_bytes] two_bytes 0 2)
    as (w' & Hrun & Hb & Hem & _);
    try (vm_compute; repeat split; fail); try lia.
  - cbn. lia.
  - exists w'. split; [exact Hrun|]. split; [exact Hb|].
    rewrite Hem. reflexivity.
Defined.

End MOSExtras.

(** ** The factories of the test context *)

Module ContextExtras.
Import MockMslContext ContextProperties.

Lemma own_get_set o key factory key' :
  own_get (own_set o key factory) key'
  = if key =? key' then Some factory else own_get o key'.
Proof.
  induction o as [|[k f] o IH]; cbn.
  - destruct (key =? key'); reflexivity.
  - destruct (k =? key) eqn:E; cbn.
    + apply String.eqb_eq in E. subst k.
      destruct (key =? key'); reflexivity.
    + destruct (k =? key') eqn:E'; [|exact IH].
      apply String.eqb_eq in E'. subst k.
      rewrite String.eqb_sym, E. reflexivity.
Qed.

Lemma own_get_delete o key key' :
  own_get (own_delete o key) key'
  = if key =? key' then None else own_get o key'.
Proof.
  induction o as [|[k f] o IH]; cbn.
  - destruct (key =? key'); reflexivity.
  - destruct (k =? key) eqn:E; cbn.
    + apply String.eqb_eq in E. subst k. rewrite IH.
      destruct (key =? key'); reflexivity.
    + destruct (k =? key') eqn:E'; [|exact IH].
      apply String.eqb_eq in E'. subst k.
      rewrite String.eqb_sym, E. reflexivity.
Qed.

(** The laws of a registry whose prototype is [Object.prototype] and
    that has no own property [__proto__]. *)
Lemma registry_laws (r : Registry) (factory : Factory) (key key' : string) :
  prototype r = OfObject ->
  own_get (own r) "__proto__" = None ->
  (exists r1,
      registry_set r key factory = Some r1
      /\ registry_get r1 key = AFactory factory
      /\ own_get (own r1) "__proto__" = None
      /\ (key <> "__proto__" -> prototype r1 = OfObject)
      /\ (key' <> key -> key <> "__proto__" ->
          registry_get r1 key' = registry_get r key')
      /\ (key = "__proto__" ->
          registry_get (registry_delete r1 key) key = AFactory factory))
  /\ prototype (registry_delete r key) = OfObject
  /\ own_get (own (registry_delete r key)) "__proto__" = None
  /\ (ordinary key = true -> registry_get (registry_delete r key) key = NoMember)
  /\ (is_object_prototype_member key = true ->
      registry_get (registry_delete r key) key = ObjectPrototypeMember key)
  /\ (key' <> key ->
      registry_get (registry_delete r key) key' = registry_get r key').
Proof.
  intros Hp Hown. split; [|split; [exact Hp|split; [|split; [|split]]]].
  - unfold registry_set. rewrite Hp.
    destruct (key =? "__proto__") eqn:Ek.
    + apply String.eqb_eq in Ek. subst key. rewrite Hown.
      eexists. split; [reflexivity|]. unfold registry_get. cbn.
      rewrite Hown. cbn.
      split; [reflexivity|]. split; [reflexivity|].
      split; [congruence|]. split; [congruence|].
      intros _. rewrite own_get_delete. reflexivity.
    + assert (exists r1,
                 (match own_get (own r) key with
                  | Some _ => Some {| own := own_set (own r) key factory;
                                      prototype := OfObject |}
                  | None => Some {| own := own_set (own r) key factory;
                                    prototype := OfObject |}
                  end) = Some r1
                 /\ r1 = {| own := own_set (own r) key factory;
                            prototype := OfObject |}) as (r1 & E1 & E2).
      { destruct (own_get (own r) key); eexists; split; reflexivity. }
      exists r1. split; [exact E1|]. subst r1. unfold registry_get. cbn.
      rewrite !own_get_set, String.eqb_refl, Ek, Hown.
      split; [reflexivity|]. split; [reflexivity|].
      split; [reflexivity|]. split.
      * intros Hne _. apply not_eq_sym, String.eqb_neq in Hne.
        rewrite Hne, Hp. reflexivity.
      * intros ->. discriminate.
  - cbn. rewrite own_get_delete, Hown.
    destruct (key =? "__proto__"); reflexivity.
  - unfold ordinary, registry_get, registry_delete. cbn. intros Ho.
    apply andb_true_iff in Ho. destruct Ho as [H1 H2].
    apply negb_true_iff in H1, H2.
    rewrite own_get_delete, String.eqb_refl, Hp, H1, H2. reflexivity.
  - unfold registry_get, registry_delete. cbn. intros Hm.
    rewrite own_get_delete, String.eqb_refl, Hp, Hm.
    destruct (key =? "__proto__") eqn:Ek; [|reflexivity].
    apply String.eqb_eq in Ek. subst key. discriminate.
  - unfold registry_get, registry_delete. cbn. intros Hne.
    apply not_eq_sym, String.eqb_neq in Hne.
    rewrite own_get_delete, Hne. reflexivity.
Qed.

Lemma registry_delete_proto (r : Registry) (key : string) :
  plain r -> key = "__proto__" ->
  registry_get (registry_delete r key) key = ObjectPrototype.
Proof.
  intros [Hp Hown] ->. unfold registry_get, registry_delete. cbn.
  rewrite own_get_delete, Hp. reflexivity.
Qed.

(** The registries of entity and of user authentication factories are
    plain JavaScript objects.  While a registry holds its factories as own
    properties under [Object.prototype]: a factory that is added is the one
    found under the name of its scheme, in place of any factory added
    before under that name; after a removal, under an ordinary name
    nothing is found, but under the name of a method of [Object.prototype]
    that method is found and under [__proto__] the prototype; a factory
    added under [__proto__] becomes the prototype and is found there still
    after its removal; adding under a name other than [__proto__], or
    removing, leaves what is found under every other name.  Adding to or
    removing from one registry leaves the other registry and the key
    exchange factories as they were. *)
Theorem authentication_factories_add_get_remove :
  registry_of_factories _entityAuthFactories
    addEntityAuthenticationFactory removeEntityAuthenticationFactory
    getEntityAuthenticationFactory
  /\ registry_of_factories _userAuthFactories
       addUserAuthenticationFactory removeUserAuthenticationFactory
       getUserAuthenticationFactory
  /\ (forall (this : Context) (factory : Factory) (s : Scheme),
        (forall this1, addEntityAuthenticationFactory factory this = Some this1 ->
           _userAuthFactories this1 = _userAuthFactories this
           /\ _keyxFactories this1 = _keyxFactories this)
        /\ (forall this1, addUserAuthenticationFactory factory this = Some this1 ->
             _entityAuthFactories this1 = _entityAuthFactories this
             /\ _keyxFactories this1 = _keyxFactories this)
        /\ _userAuthFactories (removeEntityAuthenticationFactory s this)
           = _userAuthFactories this
        /\ _keyxFactories (removeEntityAuthenticationFactory s this)
           = _keyxFactories this
        /\ _entityAuthFactories (removeUserAuthenticationFactory s this)
           = _entityAuthFactories this
        /\ _keyxFactories (removeUserAuthenticationFactory s this)
           = _keyxFactories this)
  /\ (forall s : Scheme,
        is_object_prototype_member (name s) = true ->
        getEntityAuthenticationFactory s empty_context
        = ObjectPrototypeMember (name s)
        /\ getUserAuthenticationFactory s empty_context
           = ObjectPrototypeMember (name s)).
Proof.
  split; [|split; [|split]].
  - intros this factory s [Hp Hown].
    destruct (registry_laws (_entityAuthFactories this) factory
                (name (scheme factory)) (name s) Hp Hown)
      as ((r1 & E1 & G1 & O1 & P1 & F1 & R1) & _).
    destruct (registry_laws (_entityAuthFactories this) factory
                (name s) (name s) Hp Hown)
      as (_ & P2 & O2 & N2 & M2 & _).
    destruct (registry_laws (_entityAuthFactories this) factory
                (name (scheme factory)) (name s) Hp Hown)
      as (_ & _ & _ & _ & _ & F3).
    unfold getEntityAuthenticationFactory, addEntityAuthenticationFactory,
      removeEntityAuthenticationFactory, plain. rewrite E1. cbn.
    split.
    + eexists. split; [reflexivity|]. cbn. split; [exact G1|]. split.
      * intros Hn. split; [split; [exact (P1 Hn)|exact O1]|].
        intros Hne. exact (F1 Hne Hn).
      * exact R1.
    + split; [split; assumption|]. split; [exact N2|]. split; [exact M2|].
      split; [|exact F3].
      apply registry_delete_proto. split; assumption.
  - intros this factory s [Hp Hown].
    destruct (registry_laws (_userAuthFactories this) factory
                (name (scheme factory)) (name s) Hp Hown)
      as ((r1 & E1 & G1 & O1 & P1 & F1 & R1) & _).
    destruct (registry_laws (_userAuthFactories this) factory
                (name s) (name s) Hp Hown)
      as (_ & P2 & O2 & N2 & M2 & _).
    destruct (registry_laws (_userAuthFactories this) factory
                (name (scheme factory)) (name s) Hp Hown)
      as (_ & _ & _ & _ & _ & F3).
    unfold getUserAuthenticationFactory, addUserAuthenticationFactory,
      removeUserAuthenticationFactory, plain. rewrite E1. cbn.
    split.
    + eexists. split; [reflexivity|]. cbn. split; [exact G1|]. split.
      * intros Hn. split; [split; [exact (P1 Hn)|exact O1]|].
        intros Hne. exact (F1 Hne Hn).
      * exact R1.
    + split; [split; assumption|]. split; [exact N2|]. split; [exact M2|].
      split; [|exact F3].
      apply registry_delete_proto. split; assumption.
  - intros this factory s.
    unfold addEntityAuthenticationFactory, addUserAuthenticationFactory.
    split; [|split; [|repeat split]].
    + intros this1 H.
      destruct (registry_set (_entityAuthFactories this) _ factory);
        [|discriminate].
      injection H as <-. split; reflexivity.
    + intros this1 H.
      destruct (registry_set (_userAuthFactories this) _ factory);
        [|discriminate].
      injection H as <-. split; reflexivity.
  - intros s Hm.
    unfold getEntityAuthenticationFactory, getUserAuthenticationFactory,
      registry_get.
    cbn [own prototype empty_context empty_registry own_get
         _entityAuthFactories _userAuthFactories].
    rewrite Hm.
    destruct (name s =? "__proto__") eqn:Ek; [|split; reflexivity].
    apply String.eqb_eq in Ek. rewrite Ek in Hm. discriminate.
Qed.

Lemma authentication_factories_add_get_remove_witness :
  let psk := {| name := "PSK" |} in
  let constructor := {| name := "constructor" |} in
  let proto := {| name := "__proto__" |} in
  let f1 := {| factory_addr := 1; scheme := psk |} in
  let f2 := {| factory_addr := 2; scheme := proto |} in
  (exists this1,
      addEntityAuthenticationFactory f1 empty_context = Some this1
      /\ getEntityAuthenticationFactory psk this1 = AFactory f1)
  /\ getEntityAuthenticationFactory constructor
       (removeEntityAuthenticationFactory constructor empty_context)
     = ObjectPrototypeMember "constructor"
  /\ (exists this1,
        addUserAuthenticationFactory f2 empty_context = Some this1
        /\ getUserAuthenticationFactory proto
             (removeUserAuthenticationFactory proto this1) = AFactory f2)
  /\ getUserAuthenticationFactory constructor empty_context
     = ObjectPrototypeMember "constructor".
Proof.
  cbv zeta.
  destruct authentication_factories_add_get_remove as (HE & HU & _ & HC).
  assert (plain empty_registry) as Hplain by (split; reflexivity).
  split; [|split; [|split]].
  - destruct (HE empty_context
                {| factory_addr := 1; scheme := {| name := "PSK" |} |}
                {| name := "PSK" |} Hplain)
      as ((this1 & E1 & G1 & _) & _).
    exists this1. split; assumption.
  - destruct (HE empty_context
                {| factory_addr := 1; scheme := {| name := "PSK" |} |}
                {| name := "constructor" |} Hplain)
      as (_ & _ & _ & M & _).
    exact (M eq_refl).
  - destruct (HU empty_context
                {| factory_addr := 2; scheme := {| name := "__proto__" |} |}
                {| name := "PSK" |} Hplain)
      as ((this1 & E1 & _ & _ & R1) & _).
    exists this1. split; [exact E1|]. exact (R1 eq_refl).
  - exact (proj2 (HC {| name := "constructor" |} eq_refl)).
Defined.

(** *** Key exchange factories *)

Lemma remove_loop_filter s : forall rest pre fuel,
  (List.length rest < fuel)%nat ->
  removeKeyExchangeFactories_loop fuel s (pre ++ rest)
    (Z.of_nat (List.length pre))
  = Some (pre ++ filter (other_scheme s) rest).
Proof.
  induction rest as [|f rest IH]; intros pre fuel Hf;
    (destruct fuel as [|fuel]; [cbn in Hf; lia|]);
    cbn [removeKeyExchangeFactories_loop].
  - cbn [filter]. rewrite !app_nil_r.
    replace (Z.of_nat (List.length pre) <? Z.of_nat (List.length pre))%Z
      with false by (symmetry; apply Z.ltb_ge; lia).
    reflexivity.
  - replace (Z.of_nat (List.length pre)
             <? Z.of_nat (List.length (pre ++ f :: rest)))%Z
      with true
      by (symmetry; apply Z.ltb_lt; rewrite length_app; cbn; lia).
    rewrite Nat2Z.id, nth_error_app2 by lia.
    rewrite Nat.sub_diag. cbn [nth_error filter]. unfold other_scheme at 1.
    destruct (scheme_equals (scheme f) s); cbn [negb].
    + replace (splice1 (pre ++ f :: rest) (Z.of_nat (List.length pre)))
        with (pre ++ rest).
      * replace (Z.of_nat (List.length pre) - 1 + 1)%Z
          with (Z.of_nat (List.length pre)) by lia.
        apply IH. cbn in Hf. lia.
      * unfold splice1. rewrite Nat2Z.id.
        rewrite firstn_app, Nat.sub_diag, firstn_all. cbn [firstn].
        rewrite app_nil_r. f_equal.
        rewrite skipn_app.
        replace (S (List.length pre) - List.length pre)%nat with 1%nat by lia.
        rewrite skipn_all2 by lia. reflexivity.
    + replace (pre ++ f :: rest) with ((pre ++ [f]) ++ rest)
        by (rewrite <- app_assoc; reflexivity).
      replace (Z.of_nat (List.length pre) + 1)%Z
        with (Z.of_nat (List.length (pre ++ [f])))
        by (rewrite length_app; cbn; lia).
      rewrite IH by (cbn in Hf; lia).
      rewrite <- app_assoc. reflexivity.
Qed.

Lemma get_loop_filter s s' keyx :
  getKeyExchangeFactory_loop s' (filter (other_scheme s) keyx)
  = if scheme_equals s' s then None else getKeyExchangeFactory_loop s' keyx.
Proof.
  unfold other_scheme, scheme_equals.
  induction keyx as [|f keyx IH]; cbn.
  - destruct (name s' =? name s); reflexivity.
  - unfold scheme_equals.
    destruct (name (scheme f) =? name s) eqn:E; cbn; unfold scheme_equals;
      rewrite ?IH;
      destruct (name s' =? name s) eqn:E1;
      destruct (name (scheme f) =? name s') eqn:E2; try reflexivity;
      try (exfalso;
      repeat match goal with
        | H : (_ =? _) = true |- _ => apply String.eqb_eq in H
        | H : (_ =? _) = false |- _ => apply String.eqb_neq in H
        end; congruence).
Qed.

(** [removeKeyExchangeFactories] ends, and removes exactly the factories
    of the scheme: the others stay, in their order; afterwards no factory
    is found for the scheme and the factory found for any other scheme is
    the same as before; the authentication registries are untouched. *)
Theorem removeKeyExchangeFactories_filters :
  forall (s : Scheme) (this : Context),
    exists this',
      removeKeyExchangeFactories s this = Some this'
      /\ getKeyExchangeFactories this'
         = filter (other_scheme s) (getKeyExchangeFactories this)
      /\ getKeyExchangeFactory s this' = None
      /\ (forall s', scheme_equals s' s = false ->
                     getKeyExchangeFactory s' this'
                     = getKeyExchangeFactory s' this)
      /\ _entityAuthFactories this' = _entityAuthFactories this
      /\ _userAuthFactories this' = _userAuthFactories this.
Proof.
  intros s this. unfold removeKeyExchangeFactories.
  pose proof (remove_loop_filter s (_keyxFactories this) []
                (S (List.length (_keyxFactories this)))
                (Nat.lt_succ_diag_r _)) as Hloop.
  cbn [app List.length Z.of_nat] in Hloop. rewrite Hloop.
  eexists. split; [reflexivity|]. cbn.
  unfold getKeyExchangeFactory, getKeyExchangeFactories. cbn.
  split; [reflexivity|]. split.
  - rewrite get_loop_filter. unfold scheme_equals. rewrite String.eqb_refl.
    reflexivity.
  - split; [|split; reflexivity].
    intros s' Hs. rewrite get_loop_filter, Hs. reflexivity.
Qed.

Lemma get_loop_app s l1 l2 :
  getKeyExchangeFactory_loop s (l1 ++ l2)
  = match getKeyExchangeFactory_loop s l1 with
    | Some f => Some f
    | None => getKeyExchangeFactory_loop s l2
    end.
Proof.
  induction l1 as [|f l1 IH]; cbn; [reflexivity|].
  destruct (scheme_equals (scheme f) s); [reflexivity|exact IH].
Qed.

(** [getKeyExchangeFactory] finds a factory of the scheme asked for, the
    one added first among those of that scheme; [addKeyExchangeFactory]
    puts the factory last: it is found only when no factory of its scheme
    was there, and what is found for other schemes does not change. *)
Theorem getKeyExchangeFactory_prefers_first :
  forall (this : Context) (factory : Factory) (s : Scheme),
    (forall f, getKeyExchangeFactory s this = Some f ->
               scheme_equals (scheme f) s = true
               /\ exists before after,
                   getKeyExchangeFactories this = before ++ f :: after
                   /\ forallb (other_scheme s) before = true)
    /\ (getKeyExchangeFactory s this = None ->
        forallb (other_scheme s) (getKeyExchangeFactories this) = true)
    /\ getKeyExchangeFactories (addKeyExchangeFactory factory this)
       = getKeyExchangeFactories this ++ [factory]
    /\ getKeyExchangeFactory s (addKeyExchangeFactory factory this)
       = match getKeyExchangeFactory s this with
         | Some f => Some f
         | None => if scheme_equals (scheme factory) s
                   then Some factory else None
         end.
Proof.
  intros this factory s.
  unfold getKeyExchangeFactory, getKeyExchangeFactories, addKeyExchangeFactory.
  cbn. split; [|split; [|split; [reflexivity|]]].
  - induction (_keyxFactories this) as [|g keyx IH]; cbn; [discriminate|].
    intros f Hf. destruct (scheme_equals (scheme g) s) eqn:E.
    + injection Hf as <-. split; [assumption|].
      exists [], keyx. split; reflexivity.
    + destruct (IH f Hf) as (Hs & before & after & Hk & Hb).
      split; [assumption|]. exists (g :: before), after.
      split; [rewrite Hk; reflexivity|].
      cbn. unfold other_scheme at 1. rewrite E. exact Hb.
  - induction (_keyxFactories this) as [|g keyx IH]; cbn; [reflexivity|].
    unfold other_scheme at 1.
    destruct (scheme_equals (scheme g) s); [discriminate|exact IH].
  - rewrite get_loop_app. cbn.
    destruct (getKeyExchangeFactory_loop s (_keyxFactories this));
      [reflexivity|].
    destruct (scheme_equals (scheme factory) s); reflexivity.
Qed.

Lemma getKeyExchangeFactory_prefers_first_witness :
  let dh := {| name := "DIFFIE_HELLMAN" |} in
  let f1 := {| factory_addr := 1; scheme := dh |} in
  let f2 := {| factory_addr := 2; scheme := dh |} in
  let ctx := {| _entityAuthFactories := empty_registry;
                  _userAuthFactories := empty_registry;
                _keyxFactories := [f1] |} in
  forallb (other_scheme {| name := "SYMMETRIC_WRAPPED" |})
    (getKeyExchangeFactories ctx) = true
  /\ getKeyExchangeFactory dh (addKeyExchangeFactory f2 ctx) = Some f1.
Proof.
  cbv zeta. split.
  - apply (getKeyExchangeFactory_prefers_first
             {| _entityAuthFactories := empty_registry;
                  _userAuthFactories := empty_registry;
                _keyxFactories :=
                  [{| factory_addr := 1;
                      scheme := {| name := "DIFFIE_HELLMAN" |} |}] |}
             {| factory_addr := 2; scheme := {| name := "DIFFIE_HELLMAN" |} |}
             {| name := "SYMMETRIC_WRAPPED" |}).
    reflexivity.
  - pose proof (getKeyExchangeFactory_prefers_first
             {| _entityAuthFactories := empty_registry;
                  _userAuthFactories := empty_registry;
                _keyxFactories :=
                  [{| factory_addr := 1;
                      scheme := {| name := "DIFFIE_HELLMAN" |} |}] |}
             {| factory_addr := 2; scheme := {| name := "DIFFIE_HELLMAN" |} |}
             {| name := "DIFFIE_HELLMAN" |}) as (_ & _ & _ & H).
    rewrite H. reflexivity.
Defined.

Lemma removeKeyExchangeFactories_filters_witness :
  let dh := {| name := "DIFFIE_HELLMAN" |} in
  let sw := {| name := "SYMMETRIC_WRAPPED" |} in
  let f1 := {| factory_addr := 1; scheme := dh |} in
  let f2 := {| factory_addr := 2; scheme := sw |} in
  let f3 := {| factory_addr := 3; scheme := dh |} in
  let ctx := {| _entityAuthFactories := empty_registry;
                  _userAuthFactories := empty_registry;
                _keyxFactories := [f1; f3; f2; f1] |} in
  exists ctx',
    removeKeyExchangeFactories dh ctx = Some ctx'
    /\ getKeyExchangeFactories ctx' = [f2].
Proof.
  cbv zeta.
  destruct (removeKeyExchangeFactories_filters {| name := "DIFFIE_HELLMAN" |}
      {| _entityAuthFactories := empty_registry;
                  _userAuthFactories := empty_registry;
         _keyxFactories :=
           [{| factory_addr := 1; scheme := {| name := "DIFFIE_HELLMAN" |} |};
            {| factory_addr := 3; scheme := {| name := "DIFFIE_HELLMAN" |} |};
            {| factory_addr := 2; scheme := {| name := "SYMMETRIC_WRAPPED" |} |};
            {| factory_addr := 1; scheme := {| name := "DIFFIE_HELLMAN" |} |}] |})
    as (ctx' & Hr & Hk & _).
  exists ctx'. split; [exact Hr|]. rewrite Hk. reflexivity.
Defined.

End ContextExtras.
